(** * Access-decision and event-ordering engine of the RFID server

    A shallow embedding of the two complete server variants of the
    repository (src/unnamed/part_000 and src/unnamed/part_001; the
    fragment src/serverfixing.js repeats the enrollment handler and the
    audit logger of part_000 verbatim), followed by the properties the
    specification states about them.

    Layout: strings and the tag validator; JavaScript values and the
    document store; the effect monad for promise-based code; the code
    shared by the variants; module [Part000]; module [Part001]; the
    theorems. *)

From stdpp Require Import gmap strings list fin_maps pretty.
From Stdlib Require Import ZArith Ascii String Lia.

Local Open Scope Z_scope.
Local Open Scope string_scope.

(** ** Strings

    A JavaScript string is modelled as a [string] of code units below 256
    (the serial link carries ASCII text). *)

(** White space as [String.prototype.trim] sees it, restricted to the code
    units below 256: TAB, LF, VT, FF, CR, SPACE and NBSP. *)
Definition isWhiteSpace (c : ascii) : bool :=
  let n := nat_of_ascii c in
  ((n =? 9) || (n =? 10) || (n =? 11) || (n =? 12) || (n =? 13)
   || (n =? 32) || (n =? 160))%nat.

Fixpoint trimStart (s : string) : string :=
  match s with
  | String c s' => if isWhiteSpace c then trimStart s' else s
  | EmptyString => EmptyString
  end.

Fixpoint trimEnd (s : string) : string :=
  match s with
  | String c s' =>
      match trimEnd s' with
      | EmptyString => if isWhiteSpace c then EmptyString else String c EmptyString
      | t => String c t
      end
  | EmptyString => EmptyString
  end.

(** [data.trim()] *)
Definition trim (s : string) : string := trimEnd (trimStart s).

Definition lowerChar (c : ascii) : ascii :=
  let n := nat_of_ascii c in
  if ((65 <=? n) && (n <=? 90))%nat then ascii_of_nat (n + 32)
  else if ((192 <=? n) && (n <=? 222) && negb (n =? 215))%nat then ascii_of_nat (n + 32)
  else c.

Definition upperChar (c : ascii) : ascii :=
  let n := nat_of_ascii c in
  if ((97 <=? n) && (n <=? 122))%nat then ascii_of_nat (n - 32)
  else if ((224 <=? n) && (n <=? 254) && negb (n =? 247))%nat then ascii_of_nat (n - 32)
  else c.

Fixpoint mapString (f : ascii -> ascii) (s : string) : string :=
  match s with
  | String c s' => String (f c) (mapString f s')
  | EmptyString => EmptyString
  end.

(** [s.toLowerCase()] and [s.toUpperCase()] *)
Definition toLowerCase : string -> string := mapString lowerChar.
Definition toUpperCase : string -> string := mapString upperChar.

(** [s.includes(t)] on strings. *)
Fixpoint isPrefix (t s : string) : bool :=
  match t, s with
  | EmptyString, _ => true
  | String a t', String b s' => if Ascii.eqb a b then isPrefix t' s' else false
  | String _ _, EmptyString => false
  end.

Fixpoint includesStr (s t : string) : bool :=
  isPrefix t s ||
  match s with
  | String _ s' => includesStr s' t
  | EmptyString => false
  end.

(** The character class [[0-9A-F]] under the [i] flag. *)
Definition isHexDigit (c : ascii) : bool :=
  let n := nat_of_ascii c in
  (((48 <=? n) && (n <=? 57)) || ((65 <=? n) && (n <=? 70))
   || ((97 <=? n) && (n <=? 102)))%nat.

(** [^[0-9A-F]{n}$] under the [i] flag: exactly [n] hexadecimal digits. *)
Fixpoint hexRun (n : nat) (s : string) : bool :=
  match n, s with
  | O, EmptyString => true
  | S n', String c s' => isHexDigit c && hexRun n' s'
  | _, _ => false
  end.

(** [isPingResponse(data)] of part_000. *)
Definition isPingResponse (data : string) : bool :=
  String.eqb (toLowerCase (trim data)) "ping".

(** ** JavaScript values and the document store *)

Inductive JsVal : Type :=
| JUndefined
| JNull
| JBool (b : bool)
| JNum (n : Z)
| JStr (s : string)
| JDate (ms : Z).

(** A plain object (a Firestore document's data) is a finite map from field
    names to values. *)
Abbreviation Doc := (gmap string JsVal).

(** Firestore: documents addressed by collection and document id. *)
Abbreviation Store := (gmap (string * string) (gmap string JsVal)).

(** [obj.field]: a missing field reads as [undefined]. *)
Definition getField (obj : Doc) (field : string) : JsVal :=
  default JUndefined (obj !! field).

(** An object literal [{ field: value, ... }]. *)
Definition object (fields : list (string * JsVal)) : Doc := list_to_map fields.
Arguments object : simpl never.

(** [v === b] for a boolean literal [b]. *)
Definition strictEqBool (v : JsVal) (b : bool) : bool :=
  match v with
  | JBool b' => Bool.eqb b' b
  | _ => false
  end.

(** The physical reader ports. *)
Inductive Port : Type :=
| portVehicleEntry | portWalkIn | portVehicleExit | portWalkOut | portAssign.

#[global] Instance Port_eq_dec : EqDecision Port.
Proof. solve_decision. Defined.

(** What a run leaves behind, in the order it happened. *)
Inductive Effect : Type :=
| EWrite (port : Port) (message : string) (ok : bool)
    (** [port.write(message, cb)]; [ok] when [cb] received no error *)
| EGet (coll key : string) (ok : bool)
| ESet (coll key : string) (data : Doc) (ok : bool)
| ELog (level message : string)
| EUnhandled (error : string).
    (** a promise rejected with no handler attached *)

(** The environment's choices: which store requests fail (and with which
    error message), how long each takes, which port writes fail. *)
Record Oracle : Type := mkOracle {
  dbFault : nat -> option string;
  dbDelay : nat -> Z;
  portFault : nat -> option string
}.

Record IO : Type := mkIO {
  store : Store;
  clock : Z;           (** [Date.now()], milliseconds since the epoch *)
  dbOps : nat;         (** store requests issued so far *)
  portOps : nat        (** port writes issued so far *)
}.

(** ** The effect monad

    Promise-based code is sequential code with exceptions and suspension
    points.  A computation reads the oracle, transforms the world, leaves a
    list of effects and either returns or throws an error (represented by
    its message). *)

Inductive Res (A : Type) : Type :=
| Ok (a : A)
| Thrown (error : string).
Arguments Ok {A} a.
Arguments Thrown {A} error.

Record Run (A : Type) : Type := mkRun {
  result : Res A;
  world : IO;
  effects : list Effect
}.
Arguments mkRun {A} result world effects.
Arguments result {A} r.
Arguments world {A} r.
Arguments effects {A} r.

Definition Js (A : Type) : Type := Oracle -> IO -> Run A.

Definition ret {A} (a : A) : Js A := fun _ io => mkRun (Ok a) io [].

Definition throw {A} (error : string) : Js A := fun _ io => mkRun (Thrown error) io [].

Definition bind {A B} (m : Js A) (k : A -> Js B) : Js B :=
  fun o io =>
    match m o io with
    | mkRun (Ok a) io' t =>
        match k a o io' with
        | mkRun r io'' t' => mkRun r io'' (t ++ t')
        end
    | mkRun (Thrown e) io' t => mkRun (Thrown e) io' t
    end.

(** [try { m } catch (error) { h }], and [m.catch(h)] on a promise. *)
Definition tryCatch {A} (m : Js A) (h : string -> Js A) : Js A :=
  fun o io =>
    match m o io with
    | mkRun (Ok a) io' t => mkRun (Ok a) io' t
    | mkRun (Thrown e) io' t =>
        match h e o io' with
        | mkRun r io'' t' => mkRun r io'' (t ++ t')
        end
    end.

Declare Scope js_scope.
Delimit Scope js_scope with js.
Notation "x <- m ;; k" := (bind m (fun x => k))
  (at level 100, m at next level, right associativity) : js_scope.
Notation "m ;; k" := (bind m (fun _ => k))
  (at level 100, right associativity) : js_scope.
Local Open Scope js_scope.

(** A single effect. *)
Definition emit (e : Effect) : Js unit := fun _ io => mkRun (Ok tt) io [e].

(** A call whose promise the caller neither awaits nor chains: its effects
    are recorded in program order, and a rejection reaches no handler. *)
Definition detached (m : Js unit) : Js unit :=
  tryCatch m (fun e => emit (EUnhandled e)).

(** [Date.now()] *)
Definition dateNow : Js Z := fun _ io => mkRun (Ok (clock io)) io [].

(** [console.log] / [console.error] / [logWithTimestamp]: the level and the
    message; the time-of-day prefix of [logWithTimestamp] is not kept. *)
Definition logLine (level message : string) : Js unit := emit (ELog level message).

(** A store request takes its turn in the oracle and some time. *)
Definition dbTick (o : Oracle) (io : IO) : IO :=
  mkIO (store io) (clock io + dbDelay o (dbOps io)) (S (dbOps io)) (portOps io).

(** [await db.collection(coll).doc(key).get()], reduced to
    [snapshot.exists ? snapshot.data() : null]. *)
Definition docGet (coll key : string) : Js (option Doc) :=
  fun o io =>
    match dbFault o (dbOps io) with
    | Some e => mkRun (Thrown e) (dbTick o io) [EGet coll key false]
    | None => mkRun (Ok (store io !! (coll, key))) (dbTick o io) [EGet coll key true]
    end.

(** [await db.collection(coll).doc(key).set(data)]: creates or replaces. *)
Definition docSet (coll key : string) (data : Doc) : Js unit :=
  fun o io =>
    match dbFault o (dbOps io) with
    | Some e => mkRun (Thrown e) (dbTick o io) [ESet coll key data false]
    | None =>
        let io' := dbTick o io in
        mkRun (Ok tt)
          (mkIO (<[(coll, key) := data]> (store io')) (clock io') (dbOps io') (portOps io'))
          [ESet coll key data true]
    end.

(** [port.write(message, cb)]: the error handed to [cb], if any. *)
Definition portWrite (port : Port) (message : string) : Js (option string) :=
  fun o io =>
    let r := portFault o (portOps io) in
    mkRun (Ok r) (mkIO (store io) (clock io) (dbOps io) (S (portOps io)))
      [EWrite port message (bool_decide (r = None))].

(** The lines that reached a port, and the documents written to the store. *)
Definition linesWritten (port : Port) (t : list Effect) : list string :=
  omap (fun e => match e with
                 | EWrite p m true => if decide (p = port) then Some m else None
                 | _ => None
                 end) t.

Definition storeWrites (t : list Effect) : list (string * string) :=
  omap (fun e => match e with
                 | ESet coll key _ true => Some (coll, key)
                 | _ => None
                 end) t.

Definition storeWriteAttempts (t : list Effect) : list (string * string) :=
  omap (fun e => match e with
                 | ESet coll key _ _ => Some (coll, key)
                 | _ => None
                 end) t.

Definition storeReads (t : list Effect) : list (string * string) :=
  omap (fun e => match e with
                 | EGet coll key _ => Some (coll, key)
                 | _ => None
                 end) t.

(** ** Code shared by the variants *)

(** The line feed that ends every response. *)
Definition nl : string := String (ascii_of_nat 10) EmptyString.

(** [/^[0-9A-F]{8}$/i.test(uid)] *)
Definition uidRegex_test (uid : string) : bool := hexRun 8 uid.

(** Default of the [retries] parameter of [writeToSerialPort] and
    [fetchResidentDataWithRetry]. *)
Definition defaultRetries : nat := 3.

(** The per-reader state that [handleReaderData] and [processQueue] receive
    by reference: the pending queue (an array) and the cooldown cache (an
    object used as a map from UID to the time of its last dequeue). *)
Record Channel : Type := mkChannel {
  queue : list string;
  cooldownCache : gmap string Z
}.

Definition emptyChannel : Channel := mkChannel [] ∅.

(** The guard of [handleReaderData] (part_000 line 174, part_001 line 121):
    [!queue.includes(uid) &&
     (!cooldownCache[uid] || currentTime - cooldownCache[uid] >= cooldownTime)].
    [!cooldownCache[uid]] holds for a missing entry and, a number being
    falsy exactly when it is 0, for an entry equal to 0. *)
Definition admits (cooldownTime : Z) (ch : Channel) (uid : string) (currentTime : Z) : bool :=
  negb (bool_decide (uid ∈ queue ch)) &&
  match cooldownCache ch !! uid with
  | None => true
  | Some t => ((t =? 0) || (cooldownTime <=? currentTime - t))%Z
  end.

(** [mode.includes('Entry') ? 'latest_accepted_entry_log' : 'latest_exit_log'] *)
Definition logCollectionOf (mode : string) : string :=
  if includesStr mode "Entry" then "latest_accepted_entry_log" else "latest_exit_log".

(** [new Date()] *)
Definition newDate : Js JsVal := fun _ io => mkRun (Ok (JDate (clock io))) io [].

(** The template literal [`${uid}-${Date.now()}`]. *)
Definition stampedKey (uid : string) (now : Z) : string := uid ++ "-" ++ pretty now.

(** An access reader's outcome for one line of input: the channel state it
    leaves and, when a UID was dequeued, the promise chain it started. *)
Definition Started : Type := Channel * option (string * Js unit).

(** ** Variant part_000 (promise chains, ping filter, three-way decision) *)

Module Part000.

Definition cooldownTime : Z := 180000.

(** [writeToSerialPort].  The retries run in the callbacks of [port.write];
    their effects are recorded at the call.  [gas] bounds the recursion of
    [tryWriting] and starts at [retries]; it is [retries - attempt]
    throughout, so it is positive whenever [attempt < retries]. *)
Fixpoint tryWriting (port : Port) (message : string) (retries attempt gas : nat)
  : Js unit :=
  err <- portWrite port message ;;
  match err with
  | Some e =>
      if (attempt <? retries)%nat then
        logLine "ERROR" ("Error writing to serial port (attempt "
                         ++ pretty (attempt + 1)%nat ++ "): " ++ e) ;;
        match gas with
        | S gas' => tryWriting port message retries (S attempt) gas'
        | O => ret tt
        end
      else
        logLine "ERROR" ("Failed to send message after " ++ pretty retries
                         ++ " attempts: " ++ e)
  | None => logLine "SUCCESS" ("Message sent to Arduino: " ++ trim message)
  end.

Definition writeToSerialPort (port : Port) (message : string) (retries : nat) : Js unit :=
  tryWriting port message retries 0 retries.

Definition isValidUID (uid : string) : Js bool :=
  let isValid := uidRegex_test uid in
  logLine "INFO" ("Checked UID validity: " ++ uid ++ " - Valid: "
                  ++ (if isValid then "true" else "false")) ;;
  ret isValid.

(** [fetchResidentDataWithRetry]; [gas] as in [tryWriting]. *)
Fixpoint tryFetching (uid : string) (retries attempt gas : nat) : Js (option Doc) :=
  tryCatch (docGet "residents" uid)
    (fun error =>
       if (attempt <? retries)%nat then
         match gas with
         | S gas' => tryFetching uid retries (S attempt) gas'
         | O => throw error
         end
       else throw ("Failed to fetch data for UID " ++ uid ++ ": " ++ error)).

Definition fetchResidentDataWithRetry (uid : string) (retries : nat) : Js (option Doc) :=
  tryFetching uid retries 0 retries.

(** [logToFirebase].  The caller does not wait for it; the chain carries
    its own [.catch], which covers the first write only: the promise of
    the second write is not returned from the [.then] callback. *)
Definition logToFirebase (uid status mode message : string) : Js unit :=
  let logCollection := logCollectionOf mode in
  timestamp <- newDate ;;
  now <- dateNow ;;
  tryCatch
    (docSet "all_rfid_logs" (stampedKey uid now)
       (object [("rfidTag", JStr uid); ("timestamp", timestamp);
                     ("status", JStr status); ("mode", JStr mode)]) ;;
     if String.eqb status "accepted" then
       detached (docSet logCollection uid
         (object [("rfidTag", JStr uid); ("timestamp", timestamp);
                       ("status", JStr status); ("mode", JStr mode);
                       ("message", JStr message)]))
     else if String.eqb status "denied" then
       now' <- dateNow ;;
       detached (docSet "denied_uid" (stampedKey uid now')
         (object [("rfidTag", JStr uid); ("timestamp", timestamp);
                       ("status", JStr status); ("message", JStr message)]))
     else ret tt)
    (fun error => logLine "ERROR" ("Error logging to Firebase: " ++ error)).

(** The [.then] callback of [processQueue] (lines 192-216); the JSON
    rendering of the record is left out of the first log line. *)
Definition onResidentData (uid mode : string) (port : Port) (residentData : option Doc)
  : Js unit :=
  match residentData with
  | Some data =>
      let assignedStatus := getField data "assigned" in
      logLine "INFO" ("Resident Data for UID " ++ uid ++ " on " ++ mode) ;;
      if strictEqBool assignedStatus true then
        let accessMessage :=
          if includesStr mode "Entry" then "Resident found Entry Granted"
          else "Resident found Exit Granted" in
        logLine "SUCCESS" ("Resident with UID " ++ uid ++ " is assigned. "
                           ++ accessMessage ++ " on " ++ mode) ;;
        writeToSerialPort port ("Resident Found" ++ nl) defaultRetries ;;
        logToFirebase uid "accepted" mode accessMessage
      else if strictEqBool assignedStatus false then
        logLine "INFO" "UID is found in database without a Resident Assigned. Please assign the UID." ;;
        writeToSerialPort port ("Resident Not Found - Assign Needed" ++ nl) defaultRetries ;;
        logToFirebase uid "denied" mode "UID exists but is not assigned"
      else
        logLine "INFO" ("Resident with UID " ++ uid
                        ++ " does not have an 'assigned' field. Access denied on " ++ mode) ;;
        writeToSerialPort port ("Resident Not Found" ++ nl) defaultRetries ;;
        logToFirebase uid "denied" mode "UID has no assigned field"
  | None =>
      logLine "INFO" ("ERROR: UID " ++ uid ++ " NOT FOUND IN DATABASE") ;;
      writeToSerialPort port ("Resident Not Found" ++ nl) defaultRetries ;;
      logToFirebase uid "denied" mode "UID not found in database"
  end.

(** The promise chain [processQueue] starts for the UID it dequeued:
    [fetchResidentDataWithRetry(uid).then(...).catch(...)]. *)
Definition resolution (uid mode : string) (port : Port) : Js unit :=
  tryCatch
    (residentData <- fetchResidentDataWithRetry uid defaultRetries ;;
     onResidentData uid mode port residentData)
    (fun error =>
       logLine "ERROR" ("Error processing UID " ++ uid ++ " on " ++ mode ++ ": " ++ error) ;;
       writeToSerialPort port ("Error" ++ nl) defaultRetries).

(** [processQueue]: the synchronous part mutates the queue and the cache;
    the chain it starts is returned to the event loop. *)
Definition processQueue (mode : string) (ch : Channel) (port : Port) : Js Started :=
  match queue ch with
  | [] => ret (ch, None)
  | uid :: rest =>
      currentTime <- dateNow ;;
      ret (mkChannel rest (<[uid := currentTime]> (cooldownCache ch)),
           Some (uid, resolution uid mode port))
  end.

Definition handleReaderData (data mode : string) (ch : Channel) (port : Port)
  : Js Started :=
  if isPingResponse data then
    logLine "INFO" ("Ping response received on " ++ mode ++ ". Ignoring...") ;;
    ret (ch, None)
  else
    let uid := trim data in
    logLine "INFO" ("Received data from " ++ mode ++ ": " ++ uid) ;;
    valid <- isValidUID uid ;;
    if negb valid then
      logLine "ERROR" ("Invalid UID received on " ++ mode ++ ": " ++ uid) ;;
      ret (ch, None)
    else
      currentTime <- dateNow ;;
      if admits cooldownTime ch uid currentTime then
        let ch' := mkChannel (queue ch ++ [uid]) (cooldownCache ch) in
        logLine "INFO" ("UID " ++ uid ++ " added to " ++ mode ++ " queue") ;;
        processQueue mode ch' port
      else
        logLine "WARNING" ("UID " ++ uid ++ " ignored on " ++ mode ++ " due to cooldown") ;;
        ret (ch, None).

(** [parserAssign.on('data', ...)], the enrollment reader (the same text
    in src/serverfixing.js). *)
Definition onAssignData (data : string) : Js unit :=
  let uid := trim data in
  logLine "INFO" ("Received data from Assign Reader: " ++ uid) ;;
  valid <- isValidUID uid ;;
  if negb valid then
    logLine "ERROR" ("Invalid UID received on Assign: " ++ uid)
  else
    tryCatch
      (existingResident <- docGet "residents" uid ;;
       match existingResident with
       | Some residentData =>
           if strictEqBool (getField residentData "assigned") false then
             logLine "INFO" ("RFID UID " ++ uid
                             ++ " present in database but not assigned. Please assign it.") ;;
             writeToSerialPort portAssign ("UID Not Assigned" ++ nl) defaultRetries
           else
             logLine "SUCCESS" ("Resident already assigned for UID: " ++ uid) ;;
             writeToSerialPort portAssign ("Resident Found" ++ nl) defaultRetries
       | None =>
           detached
             (tryCatch
                (docSet "residents" uid (object [("assigned", JBool false)]) ;;
                 logLine "INFO" ("New resident document created for UID: " ++ uid
                                 ++ " with assigned: false") ;;
                 writeToSerialPort portAssign ("New Resident Created" ++ nl) defaultRetries)
                (fun error =>
                   logLine "ERROR" ("Error creating new resident: " ++ error) ;;
                   writeToSerialPort portAssign ("Error" ++ nl) defaultRetries))
       end)
      (fun error =>
         logLine "ERROR" ("Error on Assign: " ++ error) ;;
         writeToSerialPort portAssign ("Error" ++ nl) defaultRetries).

(** The readers as wired at the end of the file. *)
Definition modeOf (port : Port) : string :=
  match port with
  | portVehicleEntry => "Vehicle Entry"
  | portWalkIn => "Walk-in"
  | portVehicleExit => "Vehicle Exit"
  | portWalkOut => "Walk-out"
  | portAssign => "Assign"
  end.

End Part000.

(** ** Variant part_001 (async/await, no ping filter, two-way decision) *)

Module Part001.

Definition cooldownTime : Z := 10000.

(** [writeToSerialPort]: the [while (attempt < retries)] loop; [gas] starts
    at [retries] and is [retries - attempt] at every test. *)
Fixpoint writeLoop (port : Port) (message : string) (retries attempt gas : nat)
  : Js unit :=
  if (attempt <? retries)%nat then
    err <- portWrite port message ;;
    match err with
    | None => ret tt
    | Some _ =>
        match gas with
        | S gas' => writeLoop port message retries (S attempt) gas'
        | O => ret tt
        end
    end
  else ret tt.

Definition writeToSerialPort (port : Port) (message : string) (retries : nat) : Js unit :=
  writeLoop port message retries 0 retries.

Definition isValidUID (uid : string) : bool := uidRegex_test uid.

(** [fetchResidentDataWithRetry]: a loop that runs to its end returns
    [undefined], which the caller tests like [null]. *)
Fixpoint fetchLoop (uid : string) (retries attempt gas : nat) : Js (option Doc) :=
  if (attempt <? retries)%nat then
    tryCatch (docGet "residents" uid)
      (fun error =>
         let attempt := S attempt in
         if (attempt =? retries)%nat then throw error
         else
           match gas with
           | S gas' => fetchLoop uid retries attempt gas'
           | O => ret None
           end)
  else ret None.

Definition fetchResidentDataWithRetry (uid : string) (retries : nat) : Js (option Doc) :=
  fetchLoop uid retries 0 retries.

Definition logToFirebase (uid status mode message : string) : Js unit :=
  let logCollection := logCollectionOf mode in
  timestamp <- newDate ;;
  now <- dateNow ;;
  docSet "all_rfid_logs" (stampedKey uid now)
    (object [("rfidTag", JStr uid); ("timestamp", timestamp);
                  ("status", JStr status); ("mode", JStr mode)]) ;;
  if String.eqb status "accepted" then
    docSet logCollection uid
      (object [("rfidTag", JStr uid); ("timestamp", timestamp);
                    ("status", JStr status); ("mode", JStr mode);
                    ("message", JStr message)])
  else ret tt.

Definition logDeniedUID (uid mode : string) : Js unit :=
  timestamp <- newDate ;;
  now <- dateNow ;;
  docSet "Denied Uid's" (stampedKey uid now)
    (object [("rfidTag", JStr uid); ("timestamp", timestamp);
                  ("location", JStr mode)]) ;;
  logLine "log" ("Denied UID logged: " ++ uid ++ " at " ++ mode).

(** The [try] block of [processQueue] after the resolver has answered
    (lines 138-153). *)
Definition afterFetch (uid mode : string) (port : Port) (residentData : option Doc)
  : Js unit :=
  match residentData with
  | Some data =>
      let assignedStatus := getField data "assigned" in
      if strictEqBool assignedStatus true then
        let accessMessage :=
          if includesStr mode "Entry" then "Resident Found Entry Granted"
          else "Resident Found Exit Granted" in
        writeToSerialPort port ("Resident Found" ++ nl) defaultRetries ;;
        logToFirebase uid "accepted" mode accessMessage
      else
        writeToSerialPort port ("Resident Not Found - Assign Needed" ++ nl) defaultRetries ;;
        logToFirebase uid "denied" mode "UID exists but is not assigned" ;;
        logDeniedUID uid mode
  | None =>
      writeToSerialPort port ("Resident Not Found" ++ nl) defaultRetries ;;
      logToFirebase uid "denied" mode "UID not found in database" ;;
      logDeniedUID uid mode
  end.

(** The body of [processQueue] from its [try] on (lines 135-157). *)
Definition resolution (uid mode : string) (port : Port) : Js unit :=
  tryCatch
    (residentData <- fetchResidentDataWithRetry uid defaultRetries ;;
     afterFetch uid mode port residentData)
    (fun error =>
       logLine "error" ("Error processing UID " ++ uid ++ " on " ++ mode ++ ": " ++ error) ;;
       writeToSerialPort port ("Error" ++ nl) defaultRetries).

(** [processQueue] up to its first [await]; the rest is [resolution]. *)
Definition processQueue (mode : string) (ch : Channel) (port : Port) : Js Started :=
  match queue ch with
  | [] => ret (ch, None)
  | uid :: rest =>
      currentTime <- dateNow ;;
      ret (mkChannel rest (<[uid := currentTime]> (cooldownCache ch)),
           Some (uid, resolution uid mode port))
  end.

Definition handleReaderData (data mode : string) (ch : Channel) (port : Port)
  : Js Started :=
  let uid := trim data in
  if negb (isValidUID uid) then
    logLine "error" ("Invalid UID received on " ++ mode ++ ": " ++ uid) ;;
    ret (ch, None)
  else
    currentTime <- dateNow ;;
    if admits cooldownTime ch uid currentTime then
      processQueue mode (mkChannel (queue ch ++ [uid]) (cooldownCache ch)) port
    else ret (ch, None).

(** [parserAssign.on('data', ...)] *)
Definition onAssignData (data : string) : Js unit :=
  let uid := trim data in
  if negb (isValidUID uid) then
    logLine "error" ("Invalid UID received on Assign: " ++ uid)
  else
    tryCatch
      (existingResident <- docGet "residents" uid ;;
       match existingResident with
       | Some residentData =>
           if strictEqBool (getField residentData "assigned") false then
             writeToSerialPort portAssign ("UID Not Assigned" ++ nl) defaultRetries
           else
             writeToSerialPort portAssign ("Resident Found" ++ nl) defaultRetries
       | None =>
           docSet "residents" uid (object [("assigned", JBool false)]) ;;
           writeToSerialPort portAssign ("New Resident Created" ++ nl) defaultRetries
       end)
      (fun error =>
         logLine "error" ("Error processing Assign UID: " ++ error) ;;
         writeToSerialPort portAssign ("Error" ++ nl) defaultRetries).

Definition modeOf (port : Port) : string :=
  match port with
  | portVehicleEntry => "Vehicle Entry"
  | portWalkIn => "Walk In"
  | portVehicleExit => "Vehicle Exit"
  | portWalkOut => "Walk Out"
  | portAssign => "Assign"
  end.

End Part001.

(** ** The event loop of one access reader

    Node runs one callback at a time.  A reader's state is its channel and
    the promise chains it has started and that have not settled yet; an
    event is a line from the serial parser, the passing of time, or the
    settling of one pending chain.  A chain is run in one piece when it
    settles, its first store request included; chains of one reader share
    nothing but the store and the port, so the pieces of two chains may
    also interleave, which this loop does not enumerate. *)

Inductive Event : Type :=
| Scan (data : string)
| Tick (dt : Z)
| Settle (i : nat).

Record Reader : Type := mkReader {
  channel : Channel;
  pending : list (string * Js unit);
  rworld : IO;
  history : list Effect;
  dequeued : list string   (** ghost: the UIDs dequeued so far, in order *)
}.

Section EventLoop.

Variable handleReaderData : string -> string -> Channel -> Port -> Js Started.
Variable mode : string.
Variable port : Port.
Variable o : Oracle.

Definition step (s : Reader) (ev : Event) : Reader :=
  match ev with
  | Scan data =>
      let r := handleReaderData data mode (channel s) port o (rworld s) in
      match result r with
      | Ok (ch, started) =>
          mkReader ch (pending s ++ option_list started) (world r)
                   (history s ++ effects r)
                   (dequeued s ++ option_list (fst <$> started))
      | Thrown _ =>
          mkReader (channel s) (pending s) (world r) (history s ++ effects r)
                   (dequeued s)
      end
  | Tick dt =>
      let io := rworld s in
      mkReader (channel s) (pending s)
               (mkIO (store io) (clock io + dt) (dbOps io) (portOps io)) (history s)
               (dequeued s)
  | Settle i =>
      match pending s !! i with
      | Some (_, chain) =>
          let r := chain o (rworld s) in
          mkReader (channel s) (delete i (pending s)) (world r) (history s ++ effects r)
                   (dequeued s)
      | None => s
      end
  end.

Definition run (s : Reader) (evs : list Event) : Reader := foldl step s evs.

End EventLoop.

Definition bootReader (io : IO) : Reader := mkReader emptyChannel [] io [] [].

(** The UIDs whose resolution is in flight. *)
Definition inFlight (s : Reader) : list string := (pending s).*1.

(** ** The specification's vocabulary

    The definitions of this section follow the words of the specification,
    not the code; the theorems compare the code with them. *)

Inductive Decision : Type :=
| Accepted
| DeniedUnassigned
| DeniedUnknown
| DeniedNoAssignedField
| DecisionError.

(** The state of the [assigned] field in the decision table. *)
Inductive AssignedField : Type :=
| AssignedTrue
| AssignedFalse
| AssignedAbsent.

(** The decision table. *)
Definition decisionTable (found : bool) (assigned : AssignedField) : Decision :=
  if found then
    match assigned with
    | AssignedFalse => DeniedUnassigned
    | AssignedAbsent => DeniedNoAssignedField
    | AssignedTrue => Accepted
    end
  else DeniedUnknown.

(** The response text of each decision. *)
Definition responseText (d : Decision) : string :=
  match d with
  | Accepted => "Resident Found"
  | DeniedUnassigned => "Resident Not Found - Assign Needed"
  | DeniedUnknown => "Resident Not Found"
  | DeniedNoAssignedField => "Resident Not Found"
  | DecisionError => "Error"
  end.

(** The decision the table assigns to what the resolver produced: a store
    failure, no record, or a record whose [assigned] field is [true],
    [false] or absent.  The table has no row for other values. *)
Definition tableDecision (r : Res (option Doc)) : option Decision :=
  match r with
  | Thrown _ => Some DecisionError
  | Ok None => Some (decisionTable false AssignedAbsent)
  | Ok (Some data) =>
      match data !! "assigned" with
      | None => Some (decisionTable true AssignedAbsent)
      | Some (JBool true) => Some (decisionTable true AssignedTrue)
      | Some (JBool false) => Some (decisionTable true AssignedFalse)
      | Some _ => None
      end
  end.

(** The audit writes the specification prescribes for a decision: the
    all-events append, then the write that depends on the decision. *)
Definition isAllEventsAppend (uid : string) (w : string * string) : Prop :=
  exists t, w = ("all_rfid_logs", stampedKey uid t).

Definition auditPlanOf (d : Decision) (uid : string) (writes : list (string * string)) : Prop :=
  match d with
  | Accepted =>
      exists w1 latest, writes = [w1; (latest, uid)] /\ isAllEventsAppend uid w1
  | DeniedUnassigned | DeniedUnknown | DeniedNoAssignedField =>
      exists w1 denied t, writes = [w1; (denied, stampedKey uid t)] /\ isAllEventsAppend uid w1
  | DecisionError =>
      exists w1, writes = [w1] /\ isAllEventsAppend uid w1
  end.

(** A normalized tag: upper-case hexadecimal digits. *)
Definition normalizedTag (raw : string) : string := toUpperCase (trim raw).

(** ** The variants side by side *)

Inductive Variant : Type := part_000 | part_001.

Definition handleReaderDataOf (v : Variant)
  : string -> string -> Channel -> Port -> Js Started :=
  match v with
  | part_000 => Part000.handleReaderData
  | part_001 => Part001.handleReaderData
  end.

Definition processQueueOf (v : Variant) : string -> Channel -> Port -> Js Started :=
  match v with
  | part_000 => Part000.processQueue
  | part_001 => Part001.processQueue
  end.

Definition resolutionOf (v : Variant) : string -> string -> Port -> Js unit :=
  match v with
  | part_000 => Part000.resolution
  | part_001 => Part001.resolution
  end.

Definition cooldownTimeOf (v : Variant) : Z :=
  match v with
  | part_000 => Part000.cooldownTime
  | part_001 => Part001.cooldownTime
  end.

Definition onAssignDataOf (v : Variant) : string -> Js unit :=
  match v with
  | part_000 => Part000.onAssignData
  | part_001 => Part001.onAssignData
  end.

Definition fetchResidentDataWithRetryOf (v : Variant) : string -> nat -> Js (option Doc) :=
  match v with
  | part_000 => Part000.fetchResidentDataWithRetry
  | part_001 => Part001.fetchResidentDataWithRetry
  end.

(** The collection that receives the denied scans. *)
Definition deniedCollectionOf (v : Variant) : string :=
  match v with
  | part_000 => "denied_uid"
  | part_001 => "Denied Uid's"
  end.

Definition errorLevelOf (v : Variant) : string :=
  match v with
  | part_000 => "ERROR"
  | part_001 => "error"
  end.

(** Every scan of [T] in [evs] comes less than [window] after [d]. *)
Fixpoint earlyScans (handle : string -> string -> Channel -> Port -> Js Started)
    (window : Z) (mode : string) (port : Port) (o : Oracle)
    (T : string) (d : Z) (s : Reader) (evs : list Event) : Prop :=
  match evs with
  | [] => True
  | ev :: evs' =>
      match ev with
      | Scan data => trim data = T -> clock (rworld s) - d < window
      | _ => True
      end
      /\ earlyScans handle window mode port o T d (step handle mode port o s ev) evs'
  end.

(** ** Vocabulary of the proofs *)

Definition healthyPort (o : Oracle) : Prop := forall k, portFault o k = None.

(** Every store request from the [n]-th on succeeds. *)
Definition healthyStoreFrom (o : Oracle) (n : nat) : Prop :=
  forall k, (n <= k)%nat -> dbFault o k = None.

(** All port writes, delivered or not. *)
Definition writeAttempts (t : list Effect) : list (Port * string) :=
  omap (fun e => match e with
                 | EWrite p m _ => Some (p, m)
                 | _ => None
                 end) t.

(** The response text the [.then] callback selects. *)
Definition responseOf (residentData : option Doc) : string :=
  match residentData with
  | Some data =>
      if strictEqBool (getField data "assigned") true then "Resident Found"
      else if strictEqBool (getField data "assigned") false
           then "Resident Not Found - Assign Needed"
           else "Resident Not Found"
  | None => "Resident Not Found"
  end.

(** The status the [.then] callback hands to the audit logger. *)
Definition statusOf (residentData : option Doc) : string :=
  match residentData with
  | Some data => if strictEqBool (getField data "assigned") true then "accepted" else "denied"
  | None => "denied"
  end.

(** The response text the two-way branch of [processQueue] selects. *)
Definition responseOf001 (residentData : option Doc) : string :=
  match residentData with
  | Some data =>
      if strictEqBool (getField data "assigned") true then "Resident Found"
      else "Resident Not Found - Assign Needed"
  | None => "Resident Not Found"
  end.

(** What both variants of [handleReaderData] do to a reader whose queue is
    empty: either nothing, or the trimmed line passes the guard, is dequeued
    on the spot with the current time as its stamp, and its chain is
    started.  No store request and no port write happens before the chain
    runs. *)
Definition gateBehaviour (handle : string -> string -> Channel -> Port -> Js Started)
    (chainOf : string -> string -> Port -> Js unit) (window : Z) : Prop :=
  forall data mode ch port o io,
    queue ch = [] ->
    let r := handle data mode ch port o io in
    world r = io /\ writeAttempts (effects r) = [] /\ storeReads (effects r) = []
    /\ storeWriteAttempts (effects r) = []
    /\ (result r = Ok (ch, None)
        \/ result r = Ok (mkChannel [] (<[trim data := clock io]> (cooldownCache ch)),
                          Some (trim data, chainOf (trim data) mode port))
           /\ uidRegex_test (trim data) = true
           /\ admits window ch (trim data) (clock io) = true)
    /\ (uidRegex_test (trim data) = true ->
        admits window ch (trim data) (clock io) = true ->
        result r = Ok (mkChannel [] (<[trim data := clock io]> (cooldownCache ch)),
                       Some (trim data, chainOf (trim data) mode port))).

(** ** Concrete worlds *)

(** A store and ports that never fail; every store request takes 5 ms. *)
Definition okOracle : Oracle := mkOracle (fun _ => None) (fun _ => 5) (fun _ => None).

(** A store that is down. *)
Definition downOracle : Oracle :=
  mkOracle (fun _ => Some "UNAVAILABLE") (fun _ => 5) (fun _ => None).

(** A store that fails its first [n] requests. *)
Definition flakyOracle (n : nat) : Oracle :=
  mkOracle (fun k => if (k <? n)%nat then Some "UNAVAILABLE" else None)
           (fun _ => 5) (fun _ => None).

(** A store that fails its [n]-th request only. *)
Definition glitchOracle (n : nat) : Oracle :=
  mkOracle (fun k => if (k =? n)%nat then Some "UNAVAILABLE" else None)
           (fun _ => 5) (fun _ => None).

Definition world0 : IO := mkIO ∅ 1700000000000 0 0.

(** A store in which the upper-case tag is an assigned resident. *)
Definition worldUpper : IO :=
  mkIO {[ ("residents", "DEADBEEF") := {[ "assigned" := JBool true ]} ]} 1700000000000 0 0.

(** A store with one resident whose record carries no [assigned] field. *)
Definition worldNoField : IO :=
  mkIO {[ ("residents", "1A2B3C4D") := {[ "name" := JStr "Ana" ]} ]} 1700000000000 0 0.

(** A store with one assigned resident. *)
Definition worldAssigned : IO :=
  mkIO {[ ("residents", "1A2B3C4D") := {[ "assigned" := JBool true ]} ]} 1700000000000 0 0.

Definition coolingChannel : Channel := mkChannel [] {[ "1A2B3C4D" := 1699999990000 ]}.

(** Simplification that keeps the trace projections and the appends of
    traces folded. *)
Ltac js_cbn :=
  cbn -[app linesWritten writeAttempts storeReads storeWrites storeWriteAttempts
        Part000.writeToSerialPort Part000.logToFirebase Part000.onResidentData
        Part000.fetchResidentDataWithRetry
        Part001.writeToSerialPort Part001.logToFirebase Part001.logDeniedUID
        Part001.fetchResidentDataWithRetry trim pretty stampedKey String.append
        object insert lookup uidRegex_test isPingResponse admits includesStr
        logCollectionOf].

(** ** Footprints

    What a computation may leave behind, as a relation between the world
    before, the world after and the effects in between that every run of the
    computation satisfies, whatever the oracle. *)

Definition keeps (I : Oracle -> IO -> IO -> list Effect -> Prop) {A} (m : Js A) : Prop :=
  forall o io, I o io (world (m o io)) (effects (m o io)).

(** A computation that never throws (a promise that never rejects). *)
Definition neverThrows {A} (m : Js A) : Prop :=
  forall o io, exists a, result (m o io) = Ok a.

(** The lines the access handlers pass to [writeToSerialPort], and the
    lines the enrollment handler passes to it. *)
Definition accessResponses : list string :=
  ["Resident Found" ++ nl; "Resident Not Found - Assign Needed" ++ nl;
   "Resident Not Found" ++ nl; "Error" ++ nl].

Definition assignResponses : list string :=
  ["UID Not Assigned" ++ nl; "Resident Found" ++ nl; "New Resident Created" ++ nl;
   "Error" ++ nl].

(** The collections the audit loggers name. *)
Definition auditCollections (v : Variant) : list string :=
  ["all_rfid_logs"; "latest_accepted_entry_log"; "latest_exit_log"; deniedCollectionOf v].

(** What the resolution of [uid] on the reader at [port] may do: write a
    response line to that port, read the resident's record, write to an
    audit collection, log. *)
Definition accessFootprint (v : Variant) (uid : string) (port : Port) (e : Effect) : Prop :=
  match e with
  | EWrite p message _ => p = port /\ message ∈ accessResponses
  | EGet coll key _ => coll = "residents" /\ key = uid
  | ESet coll _ _ _ => coll ∈ auditCollections v
  | ELog _ _ => True
  | EUnhandled _ => v = part_000
  end.

(** What the enrollment of [uid] may do. *)
Definition enrollFootprint (uid : string) (e : Effect) : Prop :=
  match e with
  | EWrite p message _ => p = portAssign /\ message ∈ assignResponses
  | EGet coll key _ => coll = "residents" /\ key = uid
  | ESet coll key data _ =>
      coll = "residents" /\ key = uid /\ data = object [("assigned", JBool false)]
  | ELog _ _ => True
  | EUnhandled _ => False
  end.

(** Three footprints: every effect satisfies [P]; the documents outside
    [touched] are left as they were; the clock does not run backwards when
    no store request takes negative time. *)
Definition traceInv (P : Effect -> Prop) : Oracle -> IO -> IO -> list Effect -> Prop :=
  fun _ _ _ t => Forall P t.

Definition frameInv (touched : string * string -> Prop)
  : Oracle -> IO -> IO -> list Effect -> Prop :=
  fun _ io io' _ => forall key, ~ touched key -> store io' !! key = store io !! key.

Definition clockInv : Oracle -> IO -> IO -> list Effect -> Prop :=
  fun o io io' _ => (forall k, 0 <= dbDelay o k) -> clock io <= clock io'.

(** The second audit write of a decision: the latest-accepted document of
    the reader's direction, keyed by the UID, or a document in the variant's
    denied collection under a key UID-time. *)
Definition isSecondaryWrite (v : Variant) (uid mode : string) (w : string * string) : Prop :=
  w = (logCollectionOf mode, uid) \/ exists t, w = (deniedCollectionOf v, stampedKey uid t).

(** The shapes of the audit trail of one resolution: the store writes it
    attempted and, of these, the ones the store accepted. *)
Inductive AuditShape (v : Variant) (uid mode : string)
  : list (string * string) -> list (string * string) -> Prop :=
| auditNothing : AuditShape v uid mode [] []
| auditFirstRejected w1 :
    isAllEventsAppend uid w1 -> AuditShape v uid mode [w1] []
| auditSecondRejected w1 w2 :
    isAllEventsAppend uid w1 -> isSecondaryWrite v uid mode w2 ->
    AuditShape v uid mode [w1; w2] [w1]
| auditComplete w1 w2 :
    isAllEventsAppend uid w1 -> isSecondaryWrite v uid mode w2 ->
    AuditShape v uid mode [w1; w2] [w1; w2].

(** A store that answers and a port that refuses every write. *)
Definition deadPortOracle : Oracle :=
  mkOracle (fun _ => None) (fun _ => 5) (fun _ => Some "EIO").

(** The response of a variant to what the resolver returned. *)
Definition responseOfVariant (v : Variant) (residentData : option Doc) : string :=
  match v with
  | part_000 => responseOf residentData
  | part_001 => responseOf001 residentData
  end.

(** ** The dequeues of a run and their times *)

(** The stamps the cooldown cache holds for [uids]. *)
Definition stampsOf (ch : Channel) (uids : list string) : list (string * Z) :=
  omap (fun T => (fun d => (T, d)) <$> cooldownCache ch !! T) uids.

(** The UIDs a run dequeues, each with the stamp its callback left in the
    cooldown cache ([cooldownCache[uid] = currentTime] in [processQueue]). *)
Fixpoint dequeueTimes (handle : string -> string -> Channel -> Port -> Js Started)
    (mode : string) (port : Port) (o : Oracle) (s : Reader) (evs : list Event)
  : list (string * Z) :=
  match evs with
  | [] => []
  | ev :: evs' =>
      let s' := step handle mode port o s ev in
      (stampsOf (channel s') (drop (List.length (dequeued s)) (dequeued s'))
       ++ dequeueTimes handle mode port o s' evs')%list
  end.

(** Every later entry for the same UID comes at least [window] after. *)
Fixpoint spaced (window : Z) (log : list (string * Z)) : Prop :=
  match log with
  | [] => True
  | (T, d) :: rest => (forall d', (T, d') ∈ rest -> window <= d' - d) /\ spaced window rest
  end.

(** Time that does not run backwards: no negative tick. *)
Definition forwardTicks (evs : list Event) : Prop :=
  Forall (fun ev => match ev with Tick dt => 0 <= dt | _ => True end) evs.

(** What holds between the callbacks of a reader under an oracle whose
    store requests take no negative time: the queue is empty, every stamp
    is a positive time not in the future, and no pending chain turns the
    clock back. *)
Definition readerInv (o : Oracle) (s : Reader) : Prop :=
  queue (channel s) = []
  /\ (forall T d, cooldownCache (channel s) !! T = Some d -> 0 < d <= clock (rworld s))
  /\ 0 < clock (rworld s)
  /\ Forall (fun p => forall io, clock io <= clock (world (p.2 o io))) (pending s).

(** Along a run of the event loop, in which the effects of a chain are
    recorded when it settles: every pending chain is the resolution of a
    dequeued UID on this reader's port, and the lines recorded so far
    number at least the chains that have settled and at most what these
    may send. *)
Definition answersInv (v : Variant) (mode : string) (port : Port) (s : Reader) : Prop :=
  Forall (fun p => p.2 = resolutionOf v p.1 mode port) (pending s)
  /\ (List.length (pending s) <= List.length (dequeued s))%nat
  /\ let settled := (List.length (dequeued s) - List.length (pending s))%nat in
     let lines := List.length (linesWritten port (history s)) in
     (settled <= lines)%nat
     /\ (lines <= match v with part_000 => settled | part_001 => 2 * settled end)%nat.

(** ** The resident cache and its cleaner (part_000, lines 58-117)

    [residentCache] is declared with an expiry time; the file never stores
    anything in it.  [cleanExpiredCache] runs every five
    minutes. *)

Definition cacheExpiryTime : Z := 300000.

(** An entry of [residentCache]: the cleaner reads its [timestamp]. *)
Record CacheEntry : Type := mkCacheEntry {
  timestamp : Z;
  cachedData : option Doc
}.

(** The object [residentCache] as the list of its properties in the order
    in which [for (const uid in residentCache)] visits them; the keys are
    distinct. *)
Abbreviation ResidentCache := (list (string * CacheEntry)).

(** The [for ... in] loop of [cleanExpiredCache]: an entry that has expired
    is deleted and reported, the others stay. *)
Fixpoint cleanLoop (currentTime : Z) (cache : ResidentCache) : Js ResidentCache :=
  match cache with
  | [] => ret []
  | (uid, entry) :: rest =>
      if (cacheExpiryTime <? currentTime - timestamp entry)%Z then
        logLine "INFO" ("Expired cache entry removed for UID: " ++ uid) ;;
        cleanLoop currentTime rest
      else
        rest' <- cleanLoop currentTime rest ;;
        ret ((uid, entry) :: rest')
  end.

Definition cleanExpiredCache (residentCache : ResidentCache) : Js ResidentCache :=
  currentTime <- dateNow ;;
  cleanLoop currentTime residentCache.

(** * The readers' firmware (src/Arduino Code)

    The sketches run on the readers.  Over the serial link they print
    lines, which reach the server's handlers through its line parser, and
    read the lines the server's [writeToSerialPort] sends. *)

(** ** The Arduino core and the serial link *)

Definition CR : ascii := ascii_of_nat 13.
Definition LF : ascii := ascii_of_nat 10.
Definition CRLF : string := String CR (String LF EmptyString).

(** [Serial.print(s)] and [Serial.println(s)] on the bytes printed so far. *)
Definition serialPrint (out s : string) : string := out ++ s.
Definition serialPrintln (out s : string) : string := out ++ s ++ CRLF.

(** The digit characters of [Print::printNumber]:
    [c < 10 ? c + '0' : c + 'A' - 10]. *)
Definition digitChar (c : N) : ascii :=
  if (c <? 10)%N then ascii_of_N (c + 48) else ascii_of_N (c + 65 - 10).

(** [Print::printNumber(n, base)]: the digits of [n], most significant
    first; the buffer has room for 32 of them. *)
Fixpoint printNumberLoop (room : nat) (n base : N) (str : string) : string :=
  match room with
  | O => str
  | S room' =>
      let str' := String (digitChar (n mod base)) str in
      let n' := (n / base)%N in
      if (n' =? 0)%N then str' else printNumberLoop room' n' base str'
  end.

Definition printNumber (n base : N) : string :=
  printNumberLoop 32 n (if (base <? 2)%N then 10%N else base) EmptyString.

(** [isspace] and [String::trim()] of the Arduino core. *)
Definition isspace (c : ascii) : bool :=
  let n := nat_of_ascii c in
  ((n =? 32) || ((9 <=? n) && (n <=? 13)))%nat.

Fixpoint skipSpace (s : string) : string :=
  match s with
  | String c s' => if isspace c then skipSpace s' else s
  | EmptyString => EmptyString
  end.

Fixpoint dropTrailingSpace (s : string) : string :=
  match s with
  | String c s' =>
      match dropTrailingSpace s' with
      | EmptyString => if isspace c then EmptyString else String c EmptyString
      | t => String c t
      end
  | EmptyString => EmptyString
  end.

Definition arduinoTrim (s : string) : string := dropTrailingSpace (skipSpace s).

#[global] Instance byte_eq_dec : EqDecision Byte.byte := Byte.byte_eq_dec.

(** [Stream::readStringUntil(terminator)] on the bytes received so far: the
    bytes before the first terminator, and what stays in the buffer.  When
    the buffer holds no terminator the call takes all of it and returns
    after its timeout of one second. *)
Definition readTimeout : Z := 1000.

Fixpoint hasChar (c : ascii) (s : string) : bool :=
  match s with
  | EmptyString => false
  | String c' s' => Ascii.eqb c' c || hasChar c s'
  end.

Fixpoint readStringUntil (terminator : ascii) (buffer : string) : string * string :=
  match buffer with
  | EmptyString => (EmptyString, EmptyString)
  | String c rest =>
      if Ascii.eqb c terminator then (EmptyString, rest)
      else let (s, rest') := readStringUntil terminator rest in (String c s, rest')
  end.

(** The server's [new ReadlineParser({ delimiter: '\n' })]: the complete
    lines of a stream, without the delimiter, and the unfinished rest. *)
Fixpoint parserLines (stream : string) : list string * string :=
  match stream with
  | EmptyString => ([], EmptyString)
  | String c rest =>
      let (lines, tail) := parserLines rest in
      if Ascii.eqb c LF then (EmptyString :: lines, tail)
      else match lines with
           | [] => ([], String c tail)
           | line :: lines' => (String c line :: lines', tail)
           end
  end.

(** [sendUIDToServer()], the same in the walk-in, walk-out and assignment
    sketches: each byte of the UID in two upper-case hexadecimal digits
    ([if (b < 0x10) Serial.print("0"); Serial.print(b, HEX);]), then a line
    end.  [uidByte] holds the [mfrc522.uid.size] bytes of the card's UID. *)
Definition printByteHex (b : Byte.byte) : string :=
  (if (Byte.to_N b <? 16)%N then "0" else "") ++ printNumber (Byte.to_N b) 16.

Fixpoint printUID (uidByte : list Byte.byte) : string :=
  match uidByte with
  | [] => EmptyString
  | b :: rest => printByteHex b ++ printUID rest
  end.

Definition sendUIDToServer (out : string) (uidByte : list Byte.byte) : string :=
  serialPrintln (serialPrint out (printUID uidByte)) "".

(** Every character of a string satisfies [p]. *)
Fixpoint allChars (p : ascii -> bool) (s : string) : bool :=
  match s with
  | EmptyString => true
  | String c s' => p c && allChars p s'
  end.

(** A character the server's validator accepts that is already in upper
    case and is neither white space nor a line feed. *)
Definition isUpperHexDigit (c : ascii) : bool :=
  isHexDigit c && Ascii.eqb (upperChar c) c && negb (isWhiteSpace c)
  && negb (Ascii.eqb c LF).

(** [a - b] on [unsigned long]. *)
Definition usub (a b : Z) : Z := (a - b) mod 2 ^ 32.

(** ** The walk-out sketch (walk_out_exit_rfid_code.ino) *)

Module WalkOut.

Inductive LedState : Type := STANDBY | FOUND | NOT_FOUND.

#[global] Instance LedState_eq_dec : EqDecision LedState.
Proof. solve_decision. Defined.

Definition ledDelay : Z := 700.
Definition scanCooldown : Z := 300.
Definition responseDelay : Z := 2500.

(** The board and the globals of the sketch. *)
Record Sketch : Type := mkSketch {
  millis : Z;                  (** the millisecond counter, an [unsigned long] *)
  redLed : bool;
  yellowLed : bool;
  greenLed : bool;
  tones : nat;                 (** calls of [tone(BUZZER_PIN, 4000, 300)] so far *)
  serialOut : string;          (** the bytes printed so far *)
  serialIn : string;           (** the bytes received and not yet read *)
  lastActionTime : Z;
  lastScanTime : Z;
  cardPresent : bool;
  lastUID : list Byte.byte;    (** [byte lastUID[10]] *)
  lastUIDSize : nat;
  waitingForResponse : bool;
  responseTimeout : Z;
  timeoutExceeded : bool;
  currentLedState : LedState
}.

Definition setLeds (r y g : bool) (s : Sketch) : Sketch :=
  mkSketch (millis s) r y g (tones s) (serialOut s) (serialIn s) (lastActionTime s)
    (lastScanTime s) (cardPresent s) (lastUID s) (lastUIDSize s) (waitingForResponse s)
    (responseTimeout s) (timeoutExceeded s) (currentLedState s).

Definition setSerialOut (out : string) (s : Sketch) : Sketch :=
  mkSketch (millis s) (redLed s) (yellowLed s) (greenLed s) (tones s) out (serialIn s)
    (lastActionTime s) (lastScanTime s) (cardPresent s) (lastUID s) (lastUIDSize s)
    (waitingForResponse s) (responseTimeout s) (timeoutExceeded s) (currentLedState s).

Definition setSerialIn (buffer : string) (s : Sketch) : Sketch :=
  mkSketch (millis s) (redLed s) (yellowLed s) (greenLed s) (tones s) (serialOut s) buffer
    (lastActionTime s) (lastScanTime s) (cardPresent s) (lastUID s) (lastUIDSize s)
    (waitingForResponse s) (responseTimeout s) (timeoutExceeded s) (currentLedState s).

Definition setLastActionTime (t : Z) (s : Sketch) : Sketch :=
  mkSketch (millis s) (redLed s) (yellowLed s) (greenLed s) (tones s) (serialOut s)
    (serialIn s) t (lastScanTime s) (cardPresent s) (lastUID s) (lastUIDSize s)
    (waitingForResponse s) (responseTimeout s) (timeoutExceeded s) (currentLedState s).

Definition setLastScanTime (t : Z) (s : Sketch) : Sketch :=
  mkSketch (millis s) (redLed s) (yellowLed s) (greenLed s) (tones s) (serialOut s)
    (serialIn s) (lastActionTime s) t (cardPresent s) (lastUID s) (lastUIDSize s)
    (waitingForResponse s) (responseTimeout s) (timeoutExceeded s) (currentLedState s).

Definition setCardPresent (b : bool) (s : Sketch) : Sketch :=
  mkSketch (millis s) (redLed s) (yellowLed s) (greenLed s) (tones s) (serialOut s)
    (serialIn s) (lastActionTime s) (lastScanTime s) b (lastUID s) (lastUIDSize s)
    (waitingForResponse s) (responseTimeout s) (timeoutExceeded s) (currentLedState s).

Definition setLastUID (uid : list Byte.byte) (size : nat) (s : Sketch) : Sketch :=
  mkSketch (millis s) (redLed s) (yellowLed s) (greenLed s) (tones s) (serialOut s)
    (serialIn s) (lastActionTime s) (lastScanTime s) (cardPresent s) uid size
    (waitingForResponse s) (responseTimeout s) (timeoutExceeded s) (currentLedState s).

Definition setWaitingForResponse (b : bool) (s : Sketch) : Sketch :=
  mkSketch (millis s) (redLed s) (yellowLed s) (greenLed s) (tones s) (serialOut s)
    (serialIn s) (lastActionTime s) (lastScanTime s) (cardPresent s) (lastUID s)
    (lastUIDSize s) b (responseTimeout s) (timeoutExceeded s) (currentLedState s).

Definition setResponseTimeout (t : Z) (s : Sketch) : Sketch :=
  mkSketch (millis s) (redLed s) (yellowLed s) (greenLed s) (tones s) (serialOut s)
    (serialIn s) (lastActionTime s) (lastScanTime s) (cardPresent s) (lastUID s)
    (lastUIDSize s) (waitingForResponse s) t (timeoutExceeded s) (currentLedState s).

Definition setTimeoutExceeded (b : bool) (s : Sketch) : Sketch :=
  mkSketch (millis s) (redLed s) (yellowLed s) (greenLed s) (tones s) (serialOut s)
    (serialIn s) (lastActionTime s) (lastScanTime s) (cardPresent s) (lastUID s)
    (lastUIDSize s) (waitingForResponse s) (responseTimeout s) b (currentLedState s).

Definition setCurrentLedState (l : LedState) (s : Sketch) : Sketch :=
  mkSketch (millis s) (redLed s) (yellowLed s) (greenLed s) (tones s) (serialOut s)
    (serialIn s) (lastActionTime s) (lastScanTime s) (cardPresent s) (lastUID s)
    (lastUIDSize s) (waitingForResponse s) (responseTimeout s) (timeoutExceeded s) l.

(** [Serial.println(line)] *)
Definition println (line : string) (s : Sketch) : Sketch :=
  setSerialOut (serialPrintln (serialOut s) line) s.

(** [delay(ms)]: the counter moves on. *)
Definition delay (ms : Z) (s : Sketch) : Sketch :=
  mkSketch ((millis s + ms) mod 2 ^ 32) (redLed s) (yellowLed s) (greenLed s) (tones s)
    (serialOut s) (serialIn s) (lastActionTime s) (lastScanTime s) (cardPresent s)
    (lastUID s) (lastUIDSize s) (waitingForResponse s) (responseTimeout s)
    (timeoutExceeded s) (currentLedState s).

(** [tone(BUZZER_PIN, 4000, 300)]: starts a beep and returns. *)
Definition tone (s : Sketch) : Sketch :=
  mkSketch (millis s) (redLed s) (yellowLed s) (greenLed s) (S (tones s)) (serialOut s)
    (serialIn s) (lastActionTime s) (lastScanTime s) (cardPresent s) (lastUID s)
    (lastUIDSize s) (waitingForResponse s) (responseTimeout s) (timeoutExceeded s)
    (currentLedState s).

Definition turnOffAllLEDs (s : Sketch) : Sketch := setLeds false false false s.

Definition standbyState (s : Sketch) : Sketch :=
  let s := turnOffAllLEDs s in
  let s := setLeds (redLed s) true (greenLed s) s in
  setCurrentLedState STANDBY s.

Definition playAcceptedSound (s : Sketch) : Sketch := delay 700 (tone s).

Definition playDeniedSound (s : Sketch) : Sketch :=
  let beep s := delay 300 (tone s) in
  beep (beep (beep s)).

Definition userFound (s : Sketch) : Sketch :=
  let s := turnOffAllLEDs s in
  let s := setLeds (redLed s) (yellowLed s) true s in
  let s := println "Green LED on: Resident Found" s in
  let s := playAcceptedSound s in
  let s := setCurrentLedState FOUND s in
  setLastActionTime (millis s) s.

Definition userNotFound (s : Sketch) : Sketch :=
  let s := turnOffAllLEDs s in
  let s := setLeds true (yellowLed s) (greenLed s) s in
  let s := println "Red LED on: Resident Not Found or Access Denied!" s in
  let s := playDeniedSound s in
  let s := setCurrentLedState NOT_FOUND s in
  setLastActionTime (millis s) s.

Definition logToFirebase (collection status mode message : string) (s : Sketch) : Sketch :=
  println ("Logging to " ++ collection ++ ": " ++ status ++ " - " ++ mode ++ ": " ++ message) s.

Definition updateLogs (status : string) (s : Sketch) : Sketch :=
  let s :=
    if String.eqb status "accepted" then
      logToFirebase "latest_exit_log" "accepted" "Walk-Out Exit" "Resident found" s
    else if String.eqb status "denied" then
      logToFirebase "denied_entry_log" "denied" "Walk-Out Exit"
        "Resident not found or UID not assigned" s
    else s in
  logToFirebase "all_rfid_logs" status "Scan" "RFID scanned" s.

(** [saveLastUID(uid, uidSize)]: the copy loop; [uid] holds the [uidSize]
    bytes read from the card, at most 10. *)
Fixpoint copyUID (count i : nat) (uid array : list Byte.byte) : list Byte.byte :=
  match count with
  | O => array
  | S count' =>
      match uid !! i with
      | Some b => copyUID count' (S i) uid (<[i := b]> array)
      | None => array
      end
  end.

Definition saveLastUID (uid : list Byte.byte) (s : Sketch) : Sketch :=
  setLastUID (copyUID (List.length uid) 0 uid (lastUID s)) (List.length uid) s.

Definition clearLastUID (s : Sketch) : Sketch := setLastUID (lastUID s) 0 s.

(** [isSameUID(uid, uidSize)] *)
Fixpoint sameBytes (count i : nat) (uid array : list Byte.byte) : bool :=
  match count with
  | O => true
  | S count' =>
      if bool_decide (uid !! i = array !! i) then sameBytes count' (S i) uid array
      else false
  end.

Definition isSameUID (uid : list Byte.byte) (s : Sketch) : bool :=
  if negb (List.length uid =? lastUIDSize s)%nat then false
  else sameBytes (List.length uid) 0 uid (lastUID s).

(** The part of [loop] that reads the server's line (lines 89-116). *)
Definition readResponse (s : Sketch) : Sketch :=
  match serialIn s with
  | EmptyString => s
  | _ =>
      let (line, rest) := readStringUntil LF (serialIn s) in
      let s := if hasChar LF (serialIn s) then s else delay readTimeout s in
      let s := setSerialIn rest s in
      let response := arduinoTrim line in
      let s := setSerialOut (serialPrint (serialOut s) "Response received: ") s in
      let s := println response s in
      if String.eqb response "Resident Found" then
        let s := userFound s in
        let s := updateLogs "accepted" s in
        let s := setWaitingForResponse false s in
        setTimeoutExceeded false s
      else if String.eqb response "Resident Not Found" || String.eqb response "LED:RED" then
        let s := userNotFound s in
        let s := updateLogs "denied" s in
        let s := setWaitingForResponse false s in
        setTimeoutExceeded false s
      else if String.eqb response "UID Not Assigned" then
        let s := println "Access Denied: UID found but not assigned. Please assign it to the admin." s in
        let s := updateLogs "denied" s in
        let s := setWaitingForResponse false s in
        let s := setTimeoutExceeded false s in
        playDeniedSound s
      else
        println "Unknown response received from server." s
  end.

(** [loop()]; [card] is the UID read when
    [mfrc522.PICC_IsNewCardPresent() && mfrc522.PICC_ReadCardSerial()]. *)
Definition loop (card : option (list Byte.byte)) (s : Sketch) : Sketch :=
  let currentTime := millis s in
  let s :=
    if (ledDelay <? usub currentTime (lastActionTime s))%Z
       && negb (bool_decide (currentLedState s = STANDBY))
    then standbyState s else s in
  let s :=
    if waitingForResponse s && (responseDelay <? usub currentTime (responseTimeout s))%Z then
      let s := println "Response timeout exceeded!" s in
      let s := userNotFound s in
      let s := setWaitingForResponse false s in
      setTimeoutExceeded true s
    else s in
  let s :=
    match card with
    | Some uid =>
        if negb (waitingForResponse s)
           && (scanCooldown <? usub currentTime (lastScanTime s))%Z
        then
          if negb (isSameUID uid s) then
            let s := setSerialOut (sendUIDToServer (serialOut s) uid) s in
            let s := setWaitingForResponse true s in
            let s := setResponseTimeout (millis s) s in
            let s := saveLastUID uid s in
            let s := setCardPresent true s in
            setLastScanTime (millis s) s
          else s
        else s
    | None =>
        if cardPresent s then
          let s := setCardPresent false s in
          let s := clearLastUID s in
          println "Card removed." s
        else s
    end in
  readResponse s.

(** [setup()] on a board that has just been reset. *)
Definition setup : Sketch :=
  let s := mkSketch 0 false false false 0 EmptyString EmptyString 0 0 false
             (replicate 10 Byte.x00) 0 false 0 false STANDBY in
  let s := println "Walk-Out RFID Exit system initialized. Scan a card..." s in
  standbyState s.

End WalkOut.

(** The wording a variant uses for a decision: the table's text, except
    that part_001 words a record without an [assigned] field like an
    unassigned one. *)
Definition wordingOf (v : Variant) (dec : Decision) : string :=
  match v, dec with
  | part_001, DeniedNoAssignedField => "Resident Not Found - Assign Needed"
  | _, _ => responseText dec
  end.

(** ** The vehicle sketch (Vehicle_entry_rfid_code.ino): the table of
    card states in the EEPROM and the events between the two boards *)

Module Vehicle.

Definition MAX_PAIRED_UIDS : nat := 20.
Definition UID_SIZE : nat := 4.
Definition STATE_RECORD_SIZE : nat := UID_SIZE + 1.
Definition STATE_OUTSIDE : Byte.byte := Byte.x00.
Definition STATE_INSIDE : Byte.byte := Byte.x01.

(** The cells of the EEPROM.  The sketch only uses the addresses below
    [MAX_PAIRED_UIDS * STATE_RECORD_SIZE]; a cell the memory does not have
    reads as an erased one and cannot be written. *)
Abbreviation Eeprom := (list Byte.byte).

Definition eepromRead (e : Eeprom) (addr : nat) : Byte.byte := default Byte.xff (e !! addr).
Definition eepromWrite (e : Eeprom) (addr : nat) (b : Byte.byte) : Eeprom := <[addr := b]> e.

(** The inner loop of [getUIDState] and [setUIDState]:
    [for (j = 0; j < UID_SIZE; j++) if (EEPROM.read(addr + j) != uid[j]) { match = false; break; }].
    [uid] is the array the pointer refers to. *)
Fixpoint matchLoop (count j : nat) (e : Eeprom) (addr : nat) (uid : list Byte.byte) : bool :=
  match count with
  | O => true
  | S count' =>
      if bool_decide (uid !! j = Some (eepromRead e (addr + j)))
      then matchLoop count' (S j) e addr uid
      else false
  end.

Definition slotMatches (e : Eeprom) (addr : nat) (uid : list Byte.byte) : bool :=
  matchLoop UID_SIZE 0 e addr uid.

(** [getUIDState(uid, uidSize, state)]: [Some state] when it returns true. *)
Fixpoint getLoop (count i : nat) (e : Eeprom) (uid : list Byte.byte) : option Byte.byte :=
  match count with
  | O => None
  | S count' =>
      let addr := (i * STATE_RECORD_SIZE)%nat in
      if slotMatches e addr uid then Some (eepromRead e (addr + UID_SIZE))
      else getLoop count' (S i) e uid
  end.

Definition getUIDState (e : Eeprom) (uid : list Byte.byte) : option Byte.byte :=
  getLoop MAX_PAIRED_UIDS 0 e uid.

(** [for (j = 0; j < UID_SIZE; j++) EEPROM.write(addr + j, uid[j]);] *)
Fixpoint storeLoop (count j : nat) (e : Eeprom) (addr : nat) (uid : list Byte.byte) : Eeprom :=
  match count with
  | O => e
  | S count' =>
      match uid !! j with
      | Some b => storeLoop count' (S j) (eepromWrite e (addr + j) b) addr uid
      | None => e
      end
  end.

(** [setUIDState(uid, uidSize, state)] *)
Fixpoint setLoop (count i : nat) (e : Eeprom) (uid : list Byte.byte) (state : Byte.byte)
    : Eeprom :=
  match count with
  | O => e
  | S count' =>
      let addr := (i * STATE_RECORD_SIZE)%nat in
      if slotMatches e addr uid then eepromWrite e (addr + UID_SIZE) state
      else if bool_decide (eepromRead e addr = Byte.xff) then
        eepromWrite (storeLoop UID_SIZE 0 e addr uid) (addr + UID_SIZE) state
      else setLoop count' (S i) e uid state
  end.

Definition setUIDState (e : Eeprom) (uid : list Byte.byte) (state : Byte.byte) : Eeprom :=
  setLoop MAX_PAIRED_UIDS 0 e uid state.

(** The decision of [loop] on a scan (lines 92-101), by the macro
    [DEVICE_MODE_ENTRY]:
    [allow = (!found || state == STATE_OUTSIDE)] on the entry board,
    [allow = (found && state == STATE_INSIDE)] on the exit board. *)
Definition allow (deviceModeEntry : bool) (e : Eeprom) (uid : list Byte.byte) : bool :=
  match getUIDState e uid with
  | None => if deviceModeEntry then true else false
  | Some state =>
      if deviceModeEntry then bool_decide (state = STATE_OUTSIDE)
      else bool_decide (state = STATE_INSIDE)
  end.

(** [sendEventToOtherArduino(uid, uidSize, eventType)]; [uid] holds the
    [uidSize] bytes of the card. *)
Definition sendEventToOtherArduino (out : string) (uid : list Byte.byte) (eventType : string)
    : string :=
  let out := serialPrint out "EVENT:" in
  let out := serialPrint out (printUID uid) in
  let out := serialPrint out "," in
  serialPrintln out eventType.

(** [String::startsWith], [String::indexOf(char)] and
    [String::substring(left, right)] of the Arduino core. *)
Definition startsWith (s p : string) : bool := String.prefix p s.

Fixpoint indexOf (c : ascii) (s : string) : option nat :=
  match s with
  | EmptyString => None
  | String c' s' => if Ascii.eqb c' c then Some O else option_map S (indexOf c s')
  end.

Definition arduinoSubstring (s : string) (left right : nat) : string :=
  let (left, right) := if (right <? left)%nat then (right, left) else (left, right) in
  if (String.length s <=? left)%nat then EmptyString
  else
    let right := if (String.length s <? right)%nat then String.length s else right in
    String.substring left (right - left) s.

(** [strtoul(s, NULL, 16)] of avr-libc: white space, a sign, an optional
    [0x], then the digits; the value saturates at [ULONG_MAX]. *)
Definition hexValue (c : ascii) : option N :=
  let n := N_of_ascii c in
  if ((48 <=? n) && (n <=? 57))%N then Some (n - 48)%N
  else if ((65 <=? n) && (n <=? 70))%N then Some (n - 55)%N
  else if ((97 <=? n) && (n <=? 102))%N then Some (n - 87)%N
  else None.

Fixpoint strtoulDigits (s : string) (acc : N) : N :=
  match s with
  | EmptyString => acc
  | String c s' =>
      match hexValue c with
      | Some d => strtoulDigits s' (acc * 16 + d)%N
      | None => acc
      end
  end.

Definition ULONG_MAX : N := (2 ^ 32 - 1)%N.

Definition strtoul16 (s : string) : N :=
  let s := skipSpace s in
  let (neg, s) :=
    match s with
    | String "-" s' => (true, s')
    | String "+" s' => (false, s')
    | _ => (false, s)
    end in
  let s :=
    match s with
    | String "0" (String "x" s') => s'
    | String "0" (String "X" s') => s'
    | _ => s
    end in
  let acc := strtoulDigits s 0%N in
  if (ULONG_MAX <? acc)%N then ULONG_MAX
  else if neg then ((2 ^ 32 - acc) mod 2 ^ 32)%N
  else acc.

(** The assignment of an [unsigned long] to a [byte]. *)
Definition toByte (n : N) : Byte.byte := default Byte.x00 (Byte.of_N (n mod 256)%N).

(** [for (i = 0; i < UID_SIZE; i++) uid[i] = strtoul(uidStr.substring(i*2, i*2+2).c_str(), NULL, 16);] *)
Fixpoint decodeLoop (count i : nat) (uidStr : string) : list Byte.byte :=
  match count with
  | O => []
  | S count' =>
      toByte (strtoul16 (arduinoSubstring uidStr (i * 2) (i * 2 + 2)))
      :: decodeLoop count' (S i) uidStr
  end.

(** [processIncomingEvent(msg)] *)
Definition processIncomingEvent (e : Eeprom) (msg : string) : Eeprom :=
  if negb (startsWith msg "EVENT:") then e
  else
    match indexOf "," msg with
    | None => e
    | Some commaIdx =>
        let uidStr := arduinoSubstring msg 6 commaIdx in
        let eventType := arduinoSubstring msg (commaIdx + 1) (String.length msg) in
        let uid := decodeLoop UID_SIZE 0 uidStr in
        if String.eqb eventType "VEHICLE_ENTRY" || String.eqb eventType "WALKIN_ENTRY" then
          setUIDState e uid STATE_INSIDE
        else if String.eqb eventType "VEHICLE_EXIT" || String.eqb eventType "WALKIN_EXIT" then
          setUIDState e uid STATE_OUTSIDE
        else e
    end.

(** The part of [loop] that reads an event from the other board
    (lines 83-87). *)
Definition readEvent (e : Eeprom) (serialIn : string) : Eeprom * string :=
  match serialIn with
  | EmptyString => (e, serialIn)
  | _ =>
      let (msg, rest) := readStringUntil LF serialIn in
      (processIncomingEvent e (arduinoTrim msg), rest)
  end.

End Vehicle.

(** A slot [setUIDState] can use for [uid]: one that holds it, or one whose
    first cell is erased. *)
Definition usableSlot (e : Vehicle.Eeprom) (uid : list Byte.byte) (i : nat) : bool :=
  Vehicle.slotMatches e (i * Vehicle.STATE_RECORD_SIZE) uid
  || bool_decide (Vehicle.eepromRead e (i * Vehicle.STATE_RECORD_SIZE) = Byte.xff).

Definition hasUsableSlot (e : Vehicle.Eeprom) (uid : list Byte.byte) : bool :=
  existsb (usableSlot e uid) (seq 0 Vehicle.MAX_PAIRED_UIDS).

(** The event the sketch sends after a scan it allows and the state it
    records for the card (lines 103-113 of [loop]), by the macros
    [DEVICE_MODE_ENTRY] and [USER_TYPE_VEHICLE]. *)
Definition eventTypeOf (deviceModeEntry userTypeVehicle : bool) : string :=
  if userTypeVehicle then (if deviceModeEntry then "VEHICLE_ENTRY" else "VEHICLE_EXIT")
  else (if deviceModeEntry then "WALKIN_ENTRY" else "WALKIN_EXIT").

Definition recordedState (deviceModeEntry : bool) : Byte.byte :=
  if deviceModeEntry then Vehicle.STATE_INSIDE else Vehicle.STATE_OUTSIDE.

(** ** The walk-in sketch (walk_in_entry_rfid_code.ino) *)

Module WalkIn.

Inductive LedState : Type := STANDBY | ENTRY_GRANTED | ENTRY_DENIED.

#[global] Instance LedState_eq_dec : EqDecision LedState.
Proof. solve_decision. Defined.

Definition ledDelay : Z := 700.
Definition scanCooldown : Z := 300.
Definition responseDelay : Z := 3000.
Definition cacheTimeout : Z := 5000.

(** The board and the globals of the sketch. *)
Record Sketch : Type := mkSketch {
  millis : Z;  (** the millisecond counter, an [unsigned long] *)
  redLed : bool;
  yellowLed : bool;
  greenLed : bool;
  tones : nat;  (** calls of [tone(BUZZER_PIN, 4000, 300)] so far *)
  serialOut : string;  (** the bytes printed so far *)
  serialIn : string;  (** the bytes received and not yet read *)
  lastActionTime : Z;
  lastScanTime : Z;
  cardPresent : bool;
  lastUID : list Byte.byte;  (** [byte lastUID[10]] *)
  lastUIDSize : nat;
  waitingForResponse : bool;
  responseTimeout : Z;
  timeoutExceeded : bool;
  cachedUID : list Byte.byte;  (** [byte cachedUID[10]] *)
  cachedTime : Z;
  isCacheRefreshing : bool;
  currentLedState : LedState
}.

Definition setLeds (r : bool) (y : bool) (g : bool) (s : Sketch) : Sketch :=
  mkSketch
    (millis s) r y g (tones s) (serialOut s) (serialIn s) (lastActionTime s) (lastScanTime s)
    (cardPresent s) (lastUID s) (lastUIDSize s) (waitingForResponse s) (responseTimeout s)
    (timeoutExceeded s) (cachedUID s) (cachedTime s) (isCacheRefreshing s) (currentLedState s).

Definition setSerialOut (out : string) (s : Sketch) : Sketch :=
  mkSketch
    (millis s) (redLed s) (yellowLed s) (greenLed s) (tones s) out (serialIn s)
    (lastActionTime s) (lastScanTime s) (cardPresent s) (lastUID s) (lastUIDSize s)
    (waitingForResponse s) (responseTimeout s) (timeoutExceeded s) (cachedUID s) (cachedTime s)
    (isCacheRefreshing s) (currentLedState s).

Definition setSerialIn (buffer : string) (s : Sketch) : Sketch :=
  mkSketch
    (millis s) (redLed s) (yellowLed s) (greenLed s) (tones s) (serialOut s) buffer
    (lastActionTime s) (lastScanTime s) (cardPresent s) (lastUID s) (lastUIDSize s)
    (waitingForResponse s) (responseTimeout s) (timeoutExceeded s) (cachedUID s) (cachedTime s)
    (isCacheRefreshing s) (currentLedState s).

Definition setLastActionTime (t : Z) (s : Sketch) : Sketch :=
  mkSketch
    (millis s) (redLed s) (yellowLed s) (greenLed s) (tones s) (serialOut s) (serialIn s) t
    (lastScanTime s) (cardPresent s) (lastUID s) (lastUIDSize s) (waitingForResponse s)
    (responseTimeout s) (timeoutExceeded s) (cachedUID s) (cachedTime s) (isCacheRefreshing s)
    (currentLedState s).

Definition setLastScanTime (t : Z) (s : Sketch) : Sketch :=
  mkSketch
    (millis s) (redLed s) (yellowLed s) (greenLed s) (tones s) (serialOut s) (serialIn s)
    (lastActionTime s) t (cardPresent s) (lastUID s) (lastUIDSize s) (waitingForResponse s)
    (responseTimeout s) (timeoutExceeded s) (cachedUID s) (cachedTime s) (isCacheRefreshing s)
    (currentLedState s).

Definition setCardPresent (b : bool) (s : Sketch) : Sketch :=
  mkSketch
    (millis s) (redLed s) (yellowLed s) (greenLed s) (tones s) (serialOut s) (serialIn s)
    (lastActionTime s) (lastScanTime s) b (lastUID s) (lastUIDSize s) (waitingForResponse s)
    (responseTimeout s) (timeoutExceeded s) (cachedUID s) (cachedTime s) (isCacheRefreshing s)
    (currentLedState s).

Definition setLastUID (uid : list Byte.byte) (size : nat) (s : Sketch) : Sketch :=
  mkSketch
    (millis s) (redLed s) (yellowLed s) (greenLed s) (tones s) (serialOut s) (serialIn s)
    (lastActionTime s) (lastScanTime s) (cardPresent s) uid size (waitingForResponse s)
    (responseTimeout s) (timeoutExceeded s) (cachedUID s) (cachedTime s) (isCacheRefreshing s)
    (currentLedState s).

Definition setWaitingForResponse (b : bool) (s : Sketch) : Sketch :=
  mkSketch
    (millis s) (redLed s) (yellowLed s) (greenLed s) (tones s) (serialOut s) (serialIn s)
    (lastActionTime s) (lastScanTime s) (cardPresent s) (lastUID s) (lastUIDSize s) b
    (responseTimeout s) (timeoutExceeded s) (cachedUID s) (cachedTime s) (isCacheRefreshing s)
    (currentLedState s).

Definition setResponseTimeout (t : Z) (s : Sketch) : Sketch :=
  mkSketch
    (millis s) (redLed s) (yellowLed s) (greenLed s) (tones s) (serialOut s) (serialIn s)
    (lastActionTime s) (lastScanTime s) (cardPresent s) (lastUID s) (lastUIDSize s)
    (waitingForResponse s) t (timeoutExceeded s) (cachedUID s) (cachedTime s)
    (isCacheRefreshing s) (currentLedState s).

Definition setTimeoutExceeded (b : bool) (s : Sketch) : Sketch :=
  mkSketch
    (millis s) (redLed s) (yellowLed s) (greenLed s) (tones s) (serialOut s) (serialIn s)
    (lastActionTime s) (lastScanTime s) (cardPresent s) (lastUID s) (lastUIDSize s)
    (waitingForResponse s) (responseTimeout s) b (cachedUID s) (cachedTime s)
    (isCacheRefreshing s) (currentLedState s).

Definition setCache (uid : list Byte.byte) (t : Z) (s : Sketch) : Sketch :=
  mkSketch
    (millis s) (redLed s) (yellowLed s) (greenLed s) (tones s) (serialOut s) (serialIn s)
    (lastActionTime s) (lastScanTime s) (cardPresent s) (lastUID s) (lastUIDSize s)
    (waitingForResponse s) (responseTimeout s) (timeoutExceeded s) uid t (isCacheRefreshing s)
    (currentLedState s).

Definition setCurrentLedState (l : LedState) (s : Sketch) : Sketch :=
  mkSketch
    (millis s) (redLed s) (yellowLed s) (greenLed s) (tones s) (serialOut s) (serialIn s)
    (lastActionTime s) (lastScanTime s) (cardPresent s) (lastUID s) (lastUIDSize s)
    (waitingForResponse s) (responseTimeout s) (timeoutExceeded s) (cachedUID s) (cachedTime s)
    (isCacheRefreshing s) l.

(** [Serial.println(line)] *)
Definition println (line : string) (s : Sketch) : Sketch :=
  setSerialOut (serialPrintln (serialOut s) line) s.

(** [delay(ms)]: the counter moves on. *)
Definition delay (ms : Z) (s : Sketch) : Sketch :=
  mkSketch
    ((millis s + ms) mod 2 ^ 32) (redLed s) (yellowLed s) (greenLed s) (tones s) (serialOut s)
    (serialIn s) (lastActionTime s) (lastScanTime s) (cardPresent s) (lastUID s) (lastUIDSize s)
    (waitingForResponse s) (responseTimeout s) (timeoutExceeded s) (cachedUID s) (cachedTime s)
    (isCacheRefreshing s) (currentLedState s).

(** [tone(BUZZER_PIN, 4000, 300)]: starts a beep and returns. *)
Definition tone (s : Sketch) : Sketch :=
  mkSketch
    (millis s) (redLed s) (yellowLed s) (greenLed s) (S (tones s)) (serialOut s) (serialIn s)
    (lastActionTime s) (lastScanTime s) (cardPresent s) (lastUID s) (lastUIDSize s)
    (waitingForResponse s) (responseTimeout s) (timeoutExceeded s) (cachedUID s) (cachedTime s)
    (isCacheRefreshing s) (currentLedState s).

Definition turnOffAllLEDs (s : Sketch) : Sketch := setLeds false false false s.

Definition standbyState (s : Sketch) : Sketch :=
  let s := turnOffAllLEDs s in
  let s := setLeds (redLed s) true (greenLed s) s in
  setCurrentLedState STANDBY s.

Definition playAcceptedSound (s : Sketch) : Sketch := delay 700 (tone s).

Definition playDeniedSound (s : Sketch) : Sketch :=
  let beep s := delay 300 (tone s) in
  beep (beep s).

Definition entryGranted (s : Sketch) : Sketch :=
  let s := turnOffAllLEDs s in
  let s := setLeds (redLed s) (yellowLed s) true s in
  let s := println "Green LED on: Entry Granted" s in
  let s := playAcceptedSound s in
  let s := setCurrentLedState ENTRY_GRANTED s in
  setLastActionTime (millis s) s.

Definition entryDenied (s : Sketch) : Sketch :=
  let s := turnOffAllLEDs s in
  let s := setLeds true (yellowLed s) (greenLed s) s in
  let s := println "Red LED on: Entry Denied" s in
  let s := playDeniedSound s in
  let s := setCurrentLedState ENTRY_DENIED s in
  setLastActionTime (millis s) s.

Definition logToFirebase (collection status mode message : string) (s : Sketch) : Sketch :=
  println ("Logging to " ++ collection ++ ": " ++ status ++ " - " ++ mode ++ ": " ++ message) s.

Definition updateLogs (status : string) (s : Sketch) : Sketch :=
  let s :=
    if String.eqb status "accepted" then
      logToFirebase "latest_accepted_entry_log" "accepted" "Entry" "Resident found" s
    else if String.eqb status "denied" then
      logToFirebase "denied_entry_log" "denied" "Entry"
        "Resident not found or UID not assigned" s
    else s in
  logToFirebase "all_rfid_logs" status "Scan" "RFID scanned" s.

(** The copy loop of [saveLastUID] and [saveCacheUID]; [uid] holds the
    [uidSize] bytes read from the card, at most 10. *)
Fixpoint copyUID (count i : nat) (uid array : list Byte.byte) : list Byte.byte :=
  match count with
  | O => array
  | S count' =>
      match uid !! i with
      | Some b => copyUID count' (S i) uid (<[i := b]> array)
      | None => array
      end
  end.

Definition saveLastUID (uid : list Byte.byte) (s : Sketch) : Sketch :=
  setLastUID (copyUID (List.length uid) 0 uid (lastUID s)) (List.length uid) s.

Definition clearLastUID (s : Sketch) : Sketch := setLastUID (lastUID s) 0 s.

Definition saveCacheUID (uid : list Byte.byte) (s : Sketch) : Sketch :=
  setCache (copyUID (List.length uid) 0 uid (cachedUID s)) (millis s) s.

(** [isSameUID(uid, uidSize)] *)
Fixpoint sameBytes (count i : nat) (uid array : list Byte.byte) : bool :=
  match count with
  | O => true
  | S count' =>
      if bool_decide (uid !! i = array !! i) then sameBytes count' (S i) uid array
      else false
  end.

Definition isSameUID (uid : list Byte.byte) (s : Sketch) : bool :=
  if negb (List.length uid =? lastUIDSize s)%nat then false
  else sameBytes (List.length uid) 0 uid (lastUID s).

(** The part of [loop] that reads the server's line (lines 102-122). *)
Definition readResponse (s : Sketch) : Sketch :=
  match serialIn s with
  | EmptyString => s
  | _ =>
      let (line, rest) := readStringUntil LF (serialIn s) in
      let s := if hasChar LF (serialIn s) then s else delay readTimeout s in
      let s := setSerialIn rest s in
      let response := arduinoTrim line in
      let s := setSerialOut (serialPrint (serialOut s) "Response received: ") s in
      let s := println response s in
      if String.eqb response "Resident Found" then
        let s := entryGranted s in
        let s := updateLogs "accepted" s in
        let s := setWaitingForResponse false s in
        setTimeoutExceeded false s
      else
        let s := entryDenied s in
        let s := updateLogs "denied" s in
        let s := setWaitingForResponse false s in
        setTimeoutExceeded false s
  end.

(** [loop()]; [card] is the UID read when
    [mfrc522.PICC_IsNewCardPresent() && mfrc522.PICC_ReadCardSerial()].  The
    cache check leaves [loop] at once. *)
Definition loop (card : option (list Byte.byte)) (s : Sketch) : Sketch :=
  let currentTime := millis s in
  let s :=
    if (ledDelay <? usub currentTime (lastActionTime s))%Z
       && negb (bool_decide (currentLedState s = STANDBY))
    then standbyState s else s in
  let s :=
    if waitingForResponse s && (responseDelay <? usub currentTime (responseTimeout s))%Z then
      let s := println "Response timeout exceeded!" s in
      let s := entryDenied s in
      let s := setWaitingForResponse false s in
      setTimeoutExceeded true s
    else s in
  match card with
  | Some uid =>
      if negb (waitingForResponse s)
         && (scanCooldown <? usub currentTime (lastScanTime s))%Z
      then
        if isSameUID uid s && (usub currentTime (cachedTime s) <? cacheTimeout)%Z then
          println "Using cached UID." s
        else
          let s := setSerialOut (sendUIDToServer (serialOut s) uid) s in
          let s := setWaitingForResponse true s in
          let s := setResponseTimeout (millis s) s in
          let s := saveLastUID uid s in
          let s := setCardPresent true s in
          let s := setLastScanTime (millis s) s in
          let s := saveCacheUID uid s in
          readResponse s
      else readResponse s
  | None =>
      let s :=
        if cardPresent s then
          let s := setCardPresent false s in
          let s := clearLastUID s in
          println "Card removed." s
        else s in
      readResponse s
  end.

End WalkIn.

(** ** The assignment sketch (the second sketch of
    Vehicle_entry_rfid_code.ino) *)

Module Assign.

Inductive LedState : Type :=
  STANDBY | FOUND | NOT_FOUND | ALREADY_PRESENT | UNASSIGNED | NEW_RESIDENT.

#[global] Instance LedState_eq_dec : EqDecision LedState.
Proof. solve_decision. Defined.

Definition ledDelay : Z := 500.
Definition scanCooldown : Z := 800.
Definition responseDelay : Z := 3000.

(** The board and the globals of the sketch. *)
Record Sketch : Type := mkSketch {
  millis : Z;  (** the millisecond counter, an [unsigned long] *)
  redLed : bool;
  yellowLed : bool;
  greenLed : bool;
  blueLed : bool;
  whiteLed : bool;
  serialOut : string;  (** the bytes printed so far *)
  serialIn : string;  (** the bytes received and not yet read *)
  lastActionTime : Z;
  lastScanTime : Z;
  cardPresent : bool;
  lastUID : list Byte.byte;  (** [byte lastUID[10]] *)
  lastUIDSize : nat;
  waitingForResponse : bool;
  responseTimeout : Z;
  timeoutExceeded : bool;
  currentLedState : LedState
}.

Definition setLeds (r y g b w : bool) (s : Sketch) : Sketch :=
  mkSketch
    (millis s) r y g b w (serialOut s) (serialIn s) (lastActionTime s) (lastScanTime s)
    (cardPresent s) (lastUID s) (lastUIDSize s) (waitingForResponse s) (responseTimeout s)
    (timeoutExceeded s) (currentLedState s).

Definition setSerialOut (out : string) (s : Sketch) : Sketch :=
  mkSketch
    (millis s) (redLed s) (yellowLed s) (greenLed s) (blueLed s) (whiteLed s) out (serialIn s)
    (lastActionTime s) (lastScanTime s) (cardPresent s) (lastUID s) (lastUIDSize s)
    (waitingForResponse s) (responseTimeout s) (timeoutExceeded s) (currentLedState s).

Definition setSerialIn (buffer : string) (s : Sketch) : Sketch :=
  mkSketch
    (millis s) (redLed s) (yellowLed s) (greenLed s) (blueLed s) (whiteLed s) (serialOut s)
    buffer (lastActionTime s) (lastScanTime s) (cardPresent s) (lastUID s) (lastUIDSize s)
    (waitingForResponse s) (responseTimeout s) (timeoutExceeded s) (currentLedState s).

Definition setMillis (t : Z) (s : Sketch) : Sketch :=
  mkSketch
    t (redLed s) (yellowLed s) (greenLed s) (blueLed s) (whiteLed s) (serialOut s) (serialIn s)
    (lastActionTime s) (lastScanTime s) (cardPresent s) (lastUID s) (lastUIDSize s)
    (waitingForResponse s) (responseTimeout s) (timeoutExceeded s) (currentLedState s).

Definition setLastActionTime (t : Z) (s : Sketch) : Sketch :=
  mkSketch
    (millis s) (redLed s) (yellowLed s) (greenLed s) (blueLed s) (whiteLed s) (serialOut s)
    (serialIn s) t (lastScanTime s) (cardPresent s) (lastUID s) (lastUIDSize s)
    (waitingForResponse s) (responseTimeout s) (timeoutExceeded s) (currentLedState s).

Definition setLastScanTime (t : Z) (s : Sketch) : Sketch :=
  mkSketch
    (millis s) (redLed s) (yellowLed s) (greenLed s) (blueLed s) (whiteLed s) (serialOut s)
    (serialIn s) (lastActionTime s) t (cardPresent s) (lastUID s) (lastUIDSize s)
    (waitingForResponse s) (responseTimeout s) (timeoutExceeded s) (currentLedState s).

Definition setCardPresent (b : bool) (s : Sketch) : Sketch :=
  mkSketch
    (millis s) (redLed s) (yellowLed s) (greenLed s) (blueLed s) (whiteLed s) (serialOut s)
    (serialIn s) (lastActionTime s) (lastScanTime s) b (lastUID s) (lastUIDSize s)
    (waitingForResponse s) (responseTimeout s) (timeoutExceeded s) (currentLedState s).

Definition setLastUID (uid : list Byte.byte) (size : nat) (s : Sketch) : Sketch :=
  mkSketch
    (millis s) (redLed s) (yellowLed s) (greenLed s) (blueLed s) (whiteLed s) (serialOut s)
    (serialIn s) (lastActionTime s) (lastScanTime s) (cardPresent s) uid size
    (waitingForResponse s) (responseTimeout s) (timeoutExceeded s) (currentLedState s).

Definition setWaitingForResponse (b : bool) (s : Sketch) : Sketch :=
  mkSketch
    (millis s) (redLed s) (yellowLed s) (greenLed s) (blueLed s) (whiteLed s) (serialOut s)
    (serialIn s) (lastActionTime s) (lastScanTime s) (cardPresent s) (lastUID s) (lastUIDSize s)
    b (responseTimeout s) (timeoutExceeded s) (currentLedState s).

Definition setResponseTimeout (t : Z) (s : Sketch) : Sketch :=
  mkSketch
    (millis s) (redLed s) (yellowLed s) (greenLed s) (blueLed s) (whiteLed s) (serialOut s)
    (serialIn s) (lastActionTime s) (lastScanTime s) (cardPresent s) (lastUID s) (lastUIDSize s)
    (waitingForResponse s) t (timeoutExceeded s) (currentLedState s).

Definition setTimeoutExceeded (b : bool) (s : Sketch) : Sketch :=
  mkSketch
    (millis s) (redLed s) (yellowLed s) (greenLed s) (blueLed s) (whiteLed s) (serialOut s)
    (serialIn s) (lastActionTime s) (lastScanTime s) (cardPresent s) (lastUID s) (lastUIDSize s)
    (waitingForResponse s) (responseTimeout s) b (currentLedState s).

Definition setCurrentLedState (l : LedState) (s : Sketch) : Sketch :=
  mkSketch
    (millis s) (redLed s) (yellowLed s) (greenLed s) (blueLed s) (whiteLed s) (serialOut s)
    (serialIn s) (lastActionTime s) (lastScanTime s) (cardPresent s) (lastUID s) (lastUIDSize s)
    (waitingForResponse s) (responseTimeout s) (timeoutExceeded s) l.

(** [Serial.println(line)] *)
Definition println (line : string) (s : Sketch) : Sketch :=
  setSerialOut (serialPrintln (serialOut s) line) s.

(** [Stream::readStringUntil] returning after its timeout: the counter
    moves on. *)
Definition delay (ms : Z) (s : Sketch) : Sketch := setMillis ((millis s + ms) mod 2 ^ 32) s.

Definition turnOffAllLEDs (s : Sketch) : Sketch := setLeds false false false false false s.

Definition standbyState (s : Sketch) : Sketch :=
  let s := turnOffAllLEDs s in
  let s := setLeds (redLed s) true (greenLed s) (blueLed s) (whiteLed s) s in
  setCurrentLedState STANDBY s.

Definition newUserCreated (s : Sketch) : Sketch :=
  let s := turnOffAllLEDs s in
  let s := setLeds (redLed s) (yellowLed s) true (blueLed s) (whiteLed s) s in
  let s := println "New Resident Created!" s in
  let s := setCurrentLedState NEW_RESIDENT s in
  setLastActionTime (millis s) s.

Definition userNotFound (s : Sketch) : Sketch :=
  let s := turnOffAllLEDs s in
  let s := setLeds true (yellowLed s) (greenLed s) (blueLed s) (whiteLed s) s in
  let s := println "Resident Not Found!" s in
  let s := setCurrentLedState NOT_FOUND s in
  setLastActionTime (millis s) s.

Definition userFound (s : Sketch) : Sketch :=
  let s := turnOffAllLEDs s in
  let s := setLeds (redLed s) (yellowLed s) (greenLed s) true (whiteLed s) s in
  let s := println "Resident Already Exists!" s in
  let s := setCurrentLedState ALREADY_PRESENT s in
  setLastActionTime (millis s) s.

Definition uidNotAssigned (s : Sketch) : Sketch :=
  let s := turnOffAllLEDs s in
  let s := setLeds (redLed s) (yellowLed s) (greenLed s) (blueLed s) true s in
  let s := println "UID exists but is not assigned. Please assign it." s in
  let s := setCurrentLedState UNASSIGNED s in
  setLastActionTime (millis s) s.

(** [saveLastUID(uid, uidSize)]: the copy loop; [uid] holds the [uidSize]
    bytes read from the card, at most 10. *)
Fixpoint copyUID (count i : nat) (uid array : list Byte.byte) : list Byte.byte :=
  match count with
  | O => array
  | S count' =>
      match uid !! i with
      | Some b => copyUID count' (S i) uid (<[i := b]> array)
      | None => array
      end
  end.

Definition saveLastUID (uid : list Byte.byte) (s : Sketch) : Sketch :=
  setLastUID (copyUID (List.length uid) 0 uid (lastUID s)) (List.length uid) s.

Definition clearLastUID (s : Sketch) : Sketch := setLastUID (lastUID s) 0 s.

(** [isSameUID(uid, uidSize)] *)
Fixpoint sameBytes (count i : nat) (uid array : list Byte.byte) : bool :=
  match count with
  | O => true
  | S count' =>
      if bool_decide (uid !! i = array !! i) then sameBytes count' (S i) uid array
      else false
  end.

Definition isSameUID (uid : list Byte.byte) (s : Sketch) : bool :=
  if negb (List.length uid =? lastUIDSize s)%nat then false
  else sameBytes (List.length uid) 0 uid (lastUID s).

(** The part of [loop] that reads the server's line (lines 360-383). *)
Definition readResponse (s : Sketch) : Sketch :=
  match serialIn s with
  | EmptyString => s
  | _ =>
      let (line, rest) := readStringUntil LF (serialIn s) in
      let s := if hasChar LF (serialIn s) then s else delay readTimeout s in
      let s := setSerialIn rest s in
      let response := arduinoTrim line in
      if String.eqb response "Resident Found" then
        let s := userFound s in
        let s := setWaitingForResponse false s in
        setTimeoutExceeded false s
      else if String.eqb response "Resident Not Found" then
        let s := userNotFound s in
        let s := setWaitingForResponse false s in
        setTimeoutExceeded false s
      else if String.eqb response "New Resident Created" then
        let s := newUserCreated s in
        let s := setWaitingForResponse false s in
        setTimeoutExceeded false s
      else if String.eqb response "UID Not Assigned" then
        let s := uidNotAssigned s in
        let s := setWaitingForResponse false s in
        setTimeoutExceeded false s
      else
        println "Unrecognized response from server." s
  end.

(** [loop()]; [card] is the UID read when
    [mfrc522.PICC_IsNewCardPresent() && mfrc522.PICC_ReadCardSerial()]. *)
Definition loop (card : option (list Byte.byte)) (s : Sketch) : Sketch :=
  let currentTime := millis s in
  let s :=
    if (ledDelay <? usub currentTime (lastActionTime s))%Z
       && negb (bool_decide (currentLedState s = STANDBY))
    then standbyState s else s in
  let s :=
    if waitingForResponse s && (responseDelay <? usub currentTime (responseTimeout s))%Z then
      let s := println "Response timeout exceeded!" s in
      let s := userNotFound s in
      let s := setWaitingForResponse false s in
      setTimeoutExceeded true s
    else s in
  let s :=
    match card with
    | Some uid =>
        if negb (waitingForResponse s)
           && (scanCooldown <? usub currentTime (lastScanTime s))%Z
        then
          if negb (isSameUID uid s) then
            let s := setSerialOut (sendUIDToServer (serialOut s) uid) s in
            let s := setWaitingForResponse true s in
            let s := setResponseTimeout (millis s) s in
            let s := saveLastUID uid s in
            let s := setCardPresent true s in
            setLastScanTime (millis s) s
          else s
        else s
    | None =>
        if cardPresent s then
          let s := setCardPresent false s in
          let s := clearLastUID s in
          println "Card removed." s
        else s
    end in
  readResponse s.

End Assign.

(** What [Serial.println] of each of [lines] in turn adds to the output. *)
Definition printedLines (lines : list string) : string :=
  fold_right (fun line rest => line ++ CRLF ++ rest)%string EmptyString lines.

(** A line a sketch prints while [card] is at its reader, as the server
    sees it: it has no line feed of its own, and it is either refused by
    the validator or the UID of that card. *)
Definition wireLine (card : option (list Byte.byte)) (line : string) : Prop :=
  hasChar LF line = false
  /\ (uidRegex_test (trim (line ++ String CR EmptyString)) = false
      \/ exists uid, card = Some uid /\ line = printUID uid).

(** [out'] is [out] followed by lines of that kind. *)
Definition printsOnly (card : option (list Byte.byte)) (out out' : string) : Prop :=
  exists lines, out' = (out ++ printedLines lines)%string /\ Forall (wireLine card) lines.

(** A line the server's handlers drop: the validator refuses it, an access
    handler queues nothing, writes to no port and reads nothing, and the
    enrollment handler writes to no port and leaves the store alone. *)
Definition droppedByServer (data : string) : Prop :=
  uidRegex_test (trim data) = false
  /\ (forall v mode ch port o io,
        let r := handleReaderDataOf v data mode ch port o io in
        result r = Ok (ch, None) /\ writeAttempts (effects r) = []
        /\ storeReads (effects r) = [])
  /\ (forall v o io,
        let r := onAssignDataOf v data o io in
        writeAttempts (effects r) = [] /\ storeReads (effects r) = []
        /\ store (world r) = store io).

(** What one turn of a sketch adds to its output, as the server's line
    parser delivers it: whole lines, each of them the UID of the card at
    the reader or a line the server drops. *)
Definition addsForServer (card : option (list Byte.byte)) (out out' : string) : Prop :=
  exists added lines,
    out' = (out ++ added)%string
    /\ parserLines added = (lines, EmptyString)
    /\ Forall (fun data => (exists uid, card = Some uid /\ trim data = printUID uid)
                           \/ droppedByServer data) lines.

(** Between two turns of [loop] the millisecond counter moves on and bytes
    arrive in the serial buffer. *)
Definition walkOutTick (dt : Z) (incoming : string) (s : WalkOut.Sketch) : WalkOut.Sketch :=
  WalkOut.setSerialIn (WalkOut.serialIn s ++ incoming) (WalkOut.delay dt s).

(** The sketch running while every turn reads the same card. *)
Fixpoint holdCard (uid : list Byte.byte) (turns : list (Z * string)) (s : WalkOut.Sketch)
    : WalkOut.Sketch :=
  match turns with
  | [] => s
  | (dt, incoming) :: turns' =>
      holdCard uid turns' (WalkOut.loop (Some uid) (walkOutTick dt incoming s))
  end.

(** The number of lines of a stream that pass the server's validator. *)
Definition lookups (stream : string) : nat :=
  List.length (List.filter (fun data => uidRegex_test (trim data)) (parserLines stream).1).

(** [out'] is [out] followed by whole lines, at most [n] of which pass the
    validator. *)
Definition printsAtMost (n : nat) (out out' : string) : Prop :=
  exists lines,
    out' = (out ++ printedLines lines)%string
    /\ Forall (fun line => hasChar LF line = false) lines
    /\ (lookups (printedLines lines) <= n)%nat.

(** The blocks of [WalkOut.loop] before it reads the server's line: the
    return to standby, the response timeout, and the scan. *)
Definition walkOutStandby (currentTime : Z) (s : WalkOut.Sketch) : WalkOut.Sketch :=
  if (WalkOut.ledDelay <? usub currentTime (WalkOut.lastActionTime s))%Z
     && negb (bool_decide (WalkOut.currentLedState s = WalkOut.STANDBY))
  then WalkOut.standbyState s else s.

Definition walkOutTimeout (currentTime : Z) (s : WalkOut.Sketch) : WalkOut.Sketch :=
  if WalkOut.waitingForResponse s
     && (WalkOut.responseDelay <? usub currentTime (WalkOut.responseTimeout s))%Z
  then
    let s := WalkOut.println "Response timeout exceeded!" s in
    let s := WalkOut.userNotFound s in
    let s := WalkOut.setWaitingForResponse false s in
    WalkOut.setTimeoutExceeded true s
  else s.

Definition walkOutScan (card : option (list Byte.byte)) (currentTime : Z) (s : WalkOut.Sketch)
    : WalkOut.Sketch :=
  match card with
  | Some uid =>
      if negb (WalkOut.waitingForResponse s)
         && (WalkOut.scanCooldown <? usub currentTime (WalkOut.lastScanTime s))%Z
      then
        if negb (WalkOut.isSameUID uid s) then
          let s := WalkOut.setSerialOut (sendUIDToServer (WalkOut.serialOut s) uid) s in
          let s := WalkOut.setWaitingForResponse true s in
          let s := WalkOut.setResponseTimeout (WalkOut.millis s) s in
          let s := WalkOut.saveLastUID uid s in
          let s := WalkOut.setCardPresent true s in
          WalkOut.setLastScanTime (WalkOut.millis s) s
        else s
      else s
  | None =>
      if WalkOut.cardPresent s then
        let s := WalkOut.setCardPresent false s in
        let s := WalkOut.clearLastUID s in
        WalkOut.println "Card removed." s
      else s
  end.

(** What is left of the one lookup a card gets: none once the sketch
    remembers the card as the last one it sent. *)
Definition lookupsLeft (uid : list Byte.byte) (s : WalkOut.Sketch) : nat :=
  if WalkOut.isSameUID uid s then 0 else 1.

(** From [s] to [s'] the sketch keeps its UID array's size and prints
    whole lines, of which no more pass the validator than the lookups that
    [s] has left and [s'] has not. *)
Definition spends (uid : list Byte.byte) (s s' : WalkOut.Sketch) : Prop :=
  List.length (WalkOut.lastUID s') = List.length (WalkOut.lastUID s)
  /\ exists n, printsAtMost n (WalkOut.serialOut s) (WalkOut.serialOut s')
               /\ (n + lookupsLeft uid s' <= lookupsLeft uid s)%nat.

(** The steps of [readResponse] leave the remembered UID alone. *)
Definition keepsLastUID (f : WalkOut.Sketch -> WalkOut.Sketch) : Prop :=
  forall s, WalkOut.lastUID (f s) = WalkOut.lastUID s
            /\ WalkOut.lastUIDSize (f s) = WalkOut.lastUIDSize s.

(** * Theorems *)

Example trim_ex : trim (" ping " ++ String (ascii_of_nat 10) "") = "ping".
Proof. reflexivity. Qed.

Example uidRegex_test_ex : uidRegex_test "1A2b3C4d" = true /\ uidRegex_test "1A2B3C4" = false
                        /\ uidRegex_test "1A2B3C4G" = false /\ uidRegex_test "ping" = false.
Proof. repeat split. Qed.

(** ** Facts about the effect monad *)

Lemma linesWritten_app port t1 t2 :
  linesWritten port (t1 ++ t2) = (linesWritten port t1 ++ linesWritten port t2)%list.
Proof. apply omap_app. Qed.

Lemma storeWrites_app t1 t2 :
  storeWrites (t1 ++ t2) = (storeWrites t1 ++ storeWrites t2)%list.
Proof. apply omap_app. Qed.

Lemma storeWriteAttempts_app t1 t2 :
  storeWriteAttempts (t1 ++ t2) = (storeWriteAttempts t1 ++ storeWriteAttempts t2)%list.
Proof. apply omap_app. Qed.

Lemma writeAttempts_app t1 t2 :
  writeAttempts (t1 ++ t2) = (writeAttempts t1 ++ writeAttempts t2)%list.
Proof. apply omap_app. Qed.

Lemma storeReads_app t1 t2 :
  storeReads (t1 ++ t2) = (storeReads t1 ++ storeReads t2)%list.
Proof. apply omap_app. Qed.

Create Rewrite HintDb trace_db.
#[global] Hint Rewrite linesWritten_app storeWrites_app storeWriteAttempts_app
  writeAttempts_app storeReads_app : trace_db.

Lemma linesWritten_none port t : writeAttempts t = [] -> linesWritten port t = [].
Proof.
  induction t as [|e t IH]; [reflexivity|].
  destruct e; cbn; try exact IH. discriminate.
Qed.

Lemma storeWrites_none t : storeWriteAttempts t = [] -> storeWrites t = [].
Proof.
  induction t as [|e t IH]; [reflexivity|].
  destruct e; cbn; try exact IH. discriminate.
Qed.

Lemma bind_run {A B} (m : Js A) (k : A -> Js B) o io a :
  result (m o io) = Ok a ->
  bind m k o io
  = mkRun (result (k a o (world (m o io)))) (world (k a o (world (m o io))))
          (effects (m o io) ++ effects (k a o (world (m o io)))).
Proof.
  intros H. unfold bind. destruct (m o io) as [r w t]. cbn in H. subst r. cbn.
  destruct (k a o w); reflexivity.
Qed.

Lemma bind_thrown {A B} (m : Js A) (k : A -> Js B) o io e :
  result (m o io) = Thrown e ->
  bind m k o io = mkRun (Thrown e) (world (m o io)) (effects (m o io)).
Proof.
  intros H. unfold bind. destruct (m o io) as [r w t]. cbn in H. subst r. reflexivity.
Qed.

Lemma tryCatch_ok {A} (m : Js A) h o io a :
  result (m o io) = Ok a -> tryCatch m h o io = m o io.
Proof.
  intros H. unfold tryCatch. destruct (m o io) as [r w t]. cbn in H. subst r. reflexivity.
Qed.

Lemma tryCatch_thrown {A} (m : Js A) h o io e :
  result (m o io) = Thrown e ->
  tryCatch m h o io
  = mkRun (result (h e o (world (m o io)))) (world (h e o (world (m o io))))
          (effects (m o io) ++ effects (h e o (world (m o io)))).
Proof.
  intros H. unfold tryCatch. destruct (m o io) as [r w t]. cbn in H. subst r. cbn.
  destruct (h e o w); reflexivity.
Qed.

(** ** Facts about part_000 *)

Section Part000Facts.

Import Part000.
#[local] Arguments Nat.ltb : simpl never.

Lemma p000_write_healthy o io port message retries :
  healthyPort o ->
  writeToSerialPort port message retries o io
  = mkRun (Ok tt) (mkIO (store io) (clock io) (dbOps io) (S (portOps io)))
      [EWrite port message true;
       ELog "SUCCESS" ("Message sent to Arduino: " ++ trim message)].
Proof.
  intros H. unfold writeToSerialPort.
  destruct retries; cbn; unfold bind, portWrite; cbn; rewrite H; reflexivity.
Qed.

(** One attempt of [tryFetching], by the oracle's verdict on it. *)
Lemma tryFetching_eq uid retries attempt gas o io :
  tryFetching uid retries attempt gas o io
  = match dbFault o (dbOps io) with
    | None => mkRun (Ok (store io !! ("residents", uid))) (dbTick o io)
                    [EGet "residents" uid true]
    | Some e =>
        let r' :=
          (if (attempt <? retries)%nat then
             match gas with
             | S gas' => tryFetching uid retries (S attempt) gas'
             | O => throw e
             end
           else throw ("Failed to fetch data for UID " ++ uid ++ ": " ++ e))
            o (dbTick o io) in
        mkRun (result r') (world r') (EGet "residents" uid false :: effects r')
    end.
Proof.
  destruct gas; cbn; unfold tryCatch, docGet;
    destruct (dbFault o (dbOps io)); try reflexivity; cbn zeta;
    match goal with
    | |- context [match ?x with mkRun _ _ _ => _ end] => destruct x; reflexivity
    end.
Qed.

(** The resolver only reads: whatever the oracle does, it writes neither
    to a port nor to the store, and a value it returns is the record the
    store holds (or its absence). *)
Lemma tryFetching_quiet uid retries gas : forall attempt o io,
  let r := tryFetching uid retries attempt gas o io in
  writeAttempts (effects r) = [] /\ storeWriteAttempts (effects r) = []
  /\ store (world r) = store io /\ portOps (world r) = portOps io
  /\ forall d, result r = Ok d -> d = store io !! ("residents", uid).
Proof.
  induction gas as [|gas IH]; intros attempt o io; rewrite tryFetching_eq;
    destruct (dbFault o (dbOps io)) as [e|]; cbn.
  - destruct (attempt <? retries)%nat; cbn; repeat split; discriminate.
  - repeat split. congruence.
  - destruct (attempt <? retries)%nat; cbn.
    + apply (IH (S attempt) o (dbTick o io)).
    + repeat split; discriminate.
  - repeat split. congruence.
Qed.

(** [retries + 1] failures in a row: the resolver gives up on the last
    one, having asked the store exactly [retries + 1] times. *)
Lemma tryFetching_exhausted uid retries gas : forall attempt o io,
  gas = (retries - attempt)%nat ->
  (forall j, (j <= retries - attempt)%nat -> dbFault o (dbOps io + j) <> None) ->
  let r := tryFetching uid retries attempt gas o io in
  exists e,
    dbFault o (dbOps io + (retries - attempt)) = Some e
    /\ result r = Thrown ("Failed to fetch data for UID " ++ uid ++ ": " ++ e)
    /\ effects r = replicate (S (retries - attempt)) (EGet "residents" uid false)
    /\ dbOps (world r) = (dbOps io + S (retries - attempt))%nat.
Proof.
  induction gas as [|gas IH]; intros attempt o io Hgas Hfail; cbn zeta;
    rewrite tryFetching_eq;
    pose proof (Hfail 0%nat ltac:(lia)) as H0; rewrite Nat.add_0_r in H0;
    destruct (dbFault o (dbOps io)) as [e|] eqn:E; try congruence; clear H0.
  - assert ((attempt <? retries)%nat = false) as -> by (apply Nat.ltb_ge; lia).
    replace (retries - attempt)%nat with 0%nat by lia.
    rewrite Nat.add_0_r. exists e. cbn. repeat split; [assumption | lia].
  - assert ((attempt <? retries)%nat = true) as -> by (apply Nat.ltb_lt; lia).
    destruct (IH (S attempt) o (dbTick o io)) as (e' & He' & Hr & Ht & Hn).
    + lia.
    + intros j Hj. cbn. replace (S (dbOps io + j)) with (dbOps io + S j)%nat by lia.
      apply Hfail. lia.
    + cbn in He', Hn. exists e'. cbn.
      replace (retries - attempt)%nat with (S (retries - S attempt)) by lia.
      repeat split.
      * rewrite <- He'. f_equal. lia.
      * exact Hr.
      * rewrite Ht. reflexivity.
      * rewrite Hn. lia.
Qed.

(** A success on attempt [k + 1] within the budget ends the resolver at
    once with what the store holds. *)
Lemma tryFetching_recovers uid retries gas : forall attempt k o io,
  gas = (retries - attempt)%nat ->
  (k <= retries - attempt)%nat ->
  (forall j, (j < k)%nat -> dbFault o (dbOps io + j) <> None) ->
  dbFault o (dbOps io + k) = None ->
  let r := tryFetching uid retries attempt gas o io in
  result r = Ok (store io !! ("residents", uid))
  /\ effects r = (replicate k (EGet "residents" uid false)
                  ++ [EGet "residents" uid true])%list
  /\ dbOps (world r) = (dbOps io + S k)%nat.
Proof.
  induction gas as [|gas IH]; intros attempt k o io Hgas Hk Hfail Hok; cbn zeta;
    rewrite tryFetching_eq.
  - assert (k = 0)%nat as -> by lia. rewrite Nat.add_0_r in Hok. rewrite Hok.
    cbn. repeat split. lia.
  - destruct k as [|k].
    + rewrite Nat.add_0_r in Hok. rewrite Hok. cbn. repeat split. lia.
    + pose proof (Hfail 0%nat ltac:(lia)) as H0. rewrite Nat.add_0_r in H0.
      destruct (dbFault o (dbOps io)) as [e|] eqn:E; try congruence.
      assert ((attempt <? retries)%nat = true) as -> by (apply Nat.ltb_lt; lia).
      destruct (IH (S attempt) k o (dbTick o io)) as (Hr & Ht & Hn).
      * lia.
      * lia.
      * intros j Hj. cbn. replace (S (dbOps io + j)) with (dbOps io + S j)%nat by lia.
        apply Hfail. lia.
      * cbn. replace (S (dbOps io + k)) with (dbOps io + S k)%nat by lia. exact Hok.
      * cbn in Hn. cbn. repeat split.
        -- rewrite Hr. reflexivity.
        -- rewrite Ht. reflexivity.
        -- rewrite Hn. lia.
Qed.

(** [writeToSerialPort] never throws, touches no store, writes only
    [message] to [port], and at most one copy gets through. *)
Lemma tryWriting_total port message retries gas : forall attempt o io,
  let r := tryWriting port message retries attempt gas o io in
  result r = Ok tt
  /\ storeWriteAttempts (effects r) = [] /\ storeReads (effects r) = []
  /\ store (world r) = store io /\ clock (world r) = clock io
  /\ dbOps (world r) = dbOps io
  /\ Forall (eq (port, message)) (writeAttempts (effects r))
  /\ (List.length (linesWritten port (effects r)) <= 1)%nat.
Proof.
  induction gas as [|gas IH]; intros attempt o io; cbn zeta;
    (unfold tryWriting; fold tryWriting); unfold bind at 1, portWrite; cbn;
    destruct (portFault o (portOps io)) as [e|]; cbn.
  - destruct (attempt <? retries)%nat; cbn; repeat split;
      try (repeat constructor); try lia.
  - rewrite decide_True by reflexivity. cbn. repeat split; try (repeat constructor).
  - destruct (attempt <? retries)%nat; cbn.
    + specialize (IH (S attempt) o
                     (mkIO (store io) (clock io) (dbOps io) (S (portOps io)))).
      cbn zeta in IH. unfold bind, logLine, emit. cbn.
      destruct (tryWriting port message retries (S attempt) gas o _) as [r w t].
      cbn in *. destruct IH as (H1 & H2 & H3 & H4 & H5 & H6 & H7 & H8).
      repeat split; try assumption. constructor; [reflexivity | assumption].
    + repeat split; try (repeat constructor); try lia.
  - rewrite decide_True by reflexivity. cbn. repeat split; try (repeat constructor).
Qed.

Lemma writeToSerialPort_total port message retries o io :
  let r := writeToSerialPort port message retries o io in
  result r = Ok tt
  /\ storeWriteAttempts (effects r) = [] /\ storeReads (effects r) = []
  /\ store (world r) = store io /\ clock (world r) = clock io
  /\ dbOps (world r) = dbOps io
  /\ Forall (eq (port, message)) (writeAttempts (effects r))
  /\ (List.length (linesWritten port (effects r)) <= 1)%nat.
Proof. apply tryWriting_total. Qed.

(** The audit logger never throws and never writes to a port, whatever the
    store does. *)
Lemma logToFirebase_total uid status mode message o io :
  let r := logToFirebase uid status mode message o io in
  result r = Ok tt /\ writeAttempts (effects r) = [] /\ storeReads (effects r) = []
  /\ forall port, linesWritten port (effects r) = [].
Proof.
  unfold logToFirebase, bind, tryCatch, detached, tryCatch, docSet, newDate,
    dateNow, logLine, emit, ret.
  cbn.
  destruct (dbFault o (dbOps io)); cbn; [repeat split|].
  destruct (String.eqb status "accepted"); cbn.
  - destruct (dbFault o (S (dbOps io))); cbn; repeat split.
  - destruct (String.eqb status "denied"); cbn; [|repeat split].
    destruct (dbFault o (S (dbOps io))); cbn; repeat split.
Qed.

(** The audit writes of [logToFirebase] when the store accepts them. *)
Lemma logToFirebase_writes uid status mode message o io :
  healthyStoreFrom o (dbOps io) ->
  storeWrites (effects (logToFirebase uid status mode message o io))
  = ("all_rfid_logs", stampedKey uid (clock io))
    :: (if String.eqb status "accepted" then [(logCollectionOf mode, uid)]
        else if String.eqb status "denied"
             then [("denied_uid", stampedKey uid (clock io + dbDelay o (dbOps io)))]
             else []).
Proof.
  intros H.
  pose proof (H (dbOps io) ltac:(lia)) as H0.
  pose proof (H (S (dbOps io)) ltac:(lia)) as H1.
  unfold logToFirebase, bind, tryCatch, detached, tryCatch, docSet, newDate,
    dateNow, logLine, emit, ret.
  cbn. rewrite H0. cbn.
  destruct (String.eqb status "accepted"); cbn.
  - rewrite H1. reflexivity.
  - destruct (String.eqb status "denied"); cbn; [|reflexivity].
    rewrite H1. reflexivity.
Qed.

Lemma responseOf_table residentData dec :
  tableDecision (Ok residentData) = Some dec ->
  responseOf residentData = responseText dec.
Proof.
  unfold tableDecision, responseOf, getField.
  destruct residentData as [data|]; [|intros [= <-]; reflexivity].
  destruct (data !! "assigned") as [[| |[|]| | |]|]; cbn; intros [= <-]; reflexivity.
Qed.

Lemma onResidentData_total uid mode port residentData o io :
  result (onResidentData uid mode port residentData o io) = Ok tt.
Proof.
  unfold onResidentData.
  destruct residentData as [data|];
    [destruct (strictEqBool _ true); [|destruct (strictEqBool _ false)]|];
    repeat (erewrite bind_run;
            [|first [reflexivity | apply writeToSerialPort_total]]; cbn [result]);
    apply logToFirebase_total.
Qed.

(** With a working port the callback delivers exactly one line, the one
    [responseOf] names, and hands the audit logger [statusOf]. *)
Lemma onResidentData_healthy uid mode port residentData o io :
  healthyPort o ->
  let r := onResidentData uid mode port residentData o io in
  linesWritten port (effects r) = [responseOf residentData ++ nl]
  /\ writeAttempts (effects r) = [(port, responseOf residentData ++ nl)]
  /\ storeReads (effects r) = []
  /\ exists message,
      storeWrites (effects r)
      = storeWrites (effects (logToFirebase uid (statusOf residentData) mode message o
                                (mkIO (store io) (clock io) (dbOps io) (S (portOps io))))).
Proof.
  intros H. unfold onResidentData, responseOf, statusOf.
  destruct residentData as [data|];
    [destruct (strictEqBool _ true); [|destruct (strictEqBool _ false)]|];
    cbn zeta; unfold bind, logLine, emit; js_cbn;
    rewrite !p000_write_healthy by assumption; js_cbn;
    match goal with
    | |- context [logToFirebase ?u ?s ?m ?msg ?o ?w] =>
        destruct (logToFirebase_total u s m msg o w) as (_ & Hw & Hr & Hl);
        destruct (logToFirebase u s m msg o w) as [r1 w1 t1] eqn:El;
        cbn [result world effects] in *;
        autorewrite with trace_db; rewrite Hw, Hr, Hl;
        (split; [cbn; rewrite decide_True by reflexivity; reflexivity|]);
        (split; [reflexivity|]); (split; [reflexivity|]);
        exists msg; rewrite El; reflexivity
    end.
Qed.

Lemma fetch_quiet uid retries o io :
  let r := fetchResidentDataWithRetry uid retries o io in
  writeAttempts (effects r) = [] /\ storeWriteAttempts (effects r) = []
  /\ store (world r) = store io /\ portOps (world r) = portOps io
  /\ forall d, result r = Ok d -> d = store io !! ("residents", uid).
Proof. apply tryFetching_quiet. Qed.

(** What one resolution leaves behind on a working port, by the
    resolver's outcome [fr]. *)
Lemma resolution_run uid mode port o io :
  healthyPort o ->
  let fr := fetchResidentDataWithRetry uid defaultRetries o io in
  let r := resolution uid mode port o io in
  result r = Ok tt
  /\ match result fr with
     | Ok residentData =>
         linesWritten port (effects r) = [responseOf residentData ++ nl]
         /\ writeAttempts (effects r) = [(port, responseOf residentData ++ nl)]
         /\ exists message,
             storeWrites (effects r)
             = storeWrites
                 (effects (logToFirebase uid (statusOf residentData) mode message o
                             (mkIO (store (world fr)) (clock (world fr)) (dbOps (world fr))
                                   (S (portOps (world fr))))))
     | Thrown e =>
         linesWritten port (effects r) = ["Error" ++ nl]
         /\ writeAttempts (effects r) = [(port, "Error" ++ nl)]
         /\ storeWriteAttempts (effects r) = []
     end.
Proof.
  intros H. cbn zeta. unfold resolution.
  destruct (fetch_quiet uid defaultRetries o io) as (Hw & Hs & _).
  destruct (result (fetchResidentDataWithRetry uid defaultRetries o io))
    as [residentData|e] eqn:E.
  - pose proof (onResidentData_total uid mode port residentData o
                  (world (fetchResidentDataWithRetry uid defaultRetries o io))) as Ht.
    destruct (onResidentData_healthy uid mode port residentData o
                (world (fetchResidentDataWithRetry uid defaultRetries o io)) H)
      as (Hl & Ha & _ & message & Hm).
    pose proof (bind_run (fetchResidentDataWithRetry uid defaultRetries)
                  (fun x => onResidentData uid mode port x) o io residentData E) as Hb.
    rewrite tryCatch_ok with (a := tt) by (rewrite Hb; exact Ht).
    rewrite Hb. cbn [result effects].
    autorewrite with trace_db. rewrite (linesWritten_none _ _ Hw), Hw, Hl, Ha.
    split; [assumption|]. repeat split. exists message.
    rewrite <- Hm. clear -Hs. unfold storeWrites. unfold storeWriteAttempts in Hs.
    induction (effects (fetchResidentDataWithRetry uid defaultRetries o io))
      as [|x t IH]; [reflexivity|].
    destruct x; cbn in *; try (apply IH; assumption). discriminate.
  - pose proof (bind_thrown (fetchResidentDataWithRetry uid defaultRetries)
                  (fun x => onResidentData uid mode port x) o io e E) as Hb.
    rewrite tryCatch_thrown with (e := e) by (rewrite Hb; reflexivity).
    rewrite Hb. unfold bind, logLine, emit. js_cbn.
    rewrite !p000_write_healthy by assumption. js_cbn.
    autorewrite with trace_db. rewrite (linesWritten_none _ _ Hw), Hw, Hs. cbn.
    rewrite decide_True by reflexivity. repeat split.
Qed.
End Part000Facts.

(** ** Facts about part_001 *)

Section Part001Facts.

Import Part001.
#[local] Arguments Nat.ltb : simpl never.
#[local] Arguments Nat.eqb : simpl never.

Lemma p001_write_healthy o io port message retries :
  healthyPort o -> (0 < retries)%nat ->
  writeToSerialPort port message retries o io
  = mkRun (Ok tt) (mkIO (store io) (clock io) (dbOps io) (S (portOps io)))
      [EWrite port message true].
Proof.
  intros H Hr. unfold writeToSerialPort.
  destruct retries; [lia|]. cbn [writeLoop].
  change (0 <? S retries)%nat with true. unfold bind, portWrite. cbn.
  rewrite H. reflexivity.
Qed.

(** One turn of the [while] loop of [fetchResidentDataWithRetry]. *)
Lemma fetchLoop_eq uid retries attempt gas o io :
  fetchLoop uid retries attempt gas o io
  = if (attempt <? retries)%nat then
      match dbFault o (dbOps io) with
      | None => mkRun (Ok (store io !! ("residents", uid))) (dbTick o io)
                      [EGet "residents" uid true]
      | Some e =>
          let r' :=
            (if (S attempt =? retries)%nat then throw e
             else match gas with
                  | S gas' => fetchLoop uid retries (S attempt) gas'
                  | O => ret None
                  end) o (dbTick o io) in
          mkRun (result r') (world r') (EGet "residents" uid false :: effects r')
      end
    else mkRun (Ok None) io [].
Proof.
  destruct gas; cbn; destruct (attempt <? retries)%nat; try reflexivity;
    unfold tryCatch, docGet; destruct (dbFault o (dbOps io)); try reflexivity;
    cbn zeta;
    match goal with
    | |- context [match ?x with mkRun _ _ _ => _ end] => destruct x; reflexivity
    end.
Qed.

Lemma fetchLoop_quiet uid retries gas : forall attempt o io,
  let r := fetchLoop uid retries attempt gas o io in
  writeAttempts (effects r) = [] /\ storeWriteAttempts (effects r) = [].
Proof.
  induction gas as [|gas IH]; intros attempt o io; cbn zeta; rewrite fetchLoop_eq;
    destruct (attempt <? retries)%nat; try (split; reflexivity);
    destruct (dbFault o (dbOps io)) as [e|]; try (split; reflexivity);
    cbn zeta; destruct (S attempt =? retries)%nat; try (split; reflexivity).
  cbn. apply (IH (S attempt) o (dbTick o io)).
Qed.

(** [retries] failures in a row: this variant gives up on the last of
    them, having asked the store exactly [retries] times. *)
Lemma fetchLoop_exhausted uid retries gas : forall attempt o io,
  gas = (retries - attempt)%nat ->
  (attempt < retries)%nat ->
  (forall j, (j < retries - attempt)%nat -> dbFault o (dbOps io + j) <> None) ->
  let r := fetchLoop uid retries attempt gas o io in
  exists e,
    dbFault o (dbOps io + (retries - attempt - 1)) = Some e
    /\ result r = Thrown e
    /\ effects r = replicate (retries - attempt) (EGet "residents" uid false).
Proof.
  induction gas as [|gas IH]; intros attempt o io Hgas Hlt Hfail; [lia|].
  cbn zeta. rewrite fetchLoop_eq.
  assert ((attempt <? retries)%nat = true) as -> by (apply Nat.ltb_lt; lia).
  pose proof (Hfail 0%nat ltac:(lia)) as H0. rewrite Nat.add_0_r in H0.
  destruct (dbFault o (dbOps io)) as [e|] eqn:E; [clear H0|congruence].
  cbn zeta. destruct (S attempt =? retries)%nat eqn:Elast.
  - apply Nat.eqb_eq in Elast. exists e.
    replace (retries - attempt)%nat with 1%nat by lia. cbn.
    rewrite Nat.add_0_r. repeat split. assumption.
  - apply Nat.eqb_neq in Elast.
    destruct (IH (S attempt) o (dbTick o io)) as (e' & He' & Hr & Ht).
    + lia.
    + lia.
    + intros j Hj. cbn. replace (S (dbOps io + j)) with (dbOps io + S j)%nat by lia.
      apply Hfail. lia.
    + cbn in He'. exists e'. cbn.
      replace (retries - attempt)%nat with (S (retries - S attempt)) by lia.
      repeat split.
      * rewrite <- He'. f_equal. lia.
      * exact Hr.
      * rewrite Ht. reflexivity.
Qed.

(** A success on attempt [k + 1], with [k + 1 <= retries], ends the loop at
    once with what the store holds. *)
Lemma fetchLoop_recovers uid retries gas : forall attempt k o io,
  gas = (retries - attempt)%nat ->
  (k < retries - attempt)%nat ->
  (forall j, (j < k)%nat -> dbFault o (dbOps io + j) <> None) ->
  dbFault o (dbOps io + k) = None ->
  let r := fetchLoop uid retries attempt gas o io in
  result r = Ok (store io !! ("residents", uid))
  /\ effects r = (replicate k (EGet "residents" uid false)
                  ++ [EGet "residents" uid true])%list.
Proof.
  induction gas as [|gas IH]; intros attempt k o io Hgas Hk Hfail Hok; [lia|].
  cbn zeta. rewrite fetchLoop_eq.
  assert ((attempt <? retries)%nat = true) as -> by (apply Nat.ltb_lt; lia).
  destruct k as [|k].
  - rewrite Nat.add_0_r in Hok. rewrite Hok. split; reflexivity.
  - pose proof (Hfail 0%nat ltac:(lia)) as H0. rewrite Nat.add_0_r in H0.
    destruct (dbFault o (dbOps io)) as [e|] eqn:E; [clear H0|congruence].
    cbn zeta.
    assert ((S attempt =? retries)%nat = false) as -> by (apply Nat.eqb_neq; lia).
    destruct (IH (S attempt) k o (dbTick o io)) as (Hr & Ht).
    + lia.
    + lia.
    + intros j Hj. cbn. replace (S (dbOps io + j)) with (dbOps io + S j)%nat by lia.
      apply Hfail. lia.
    + cbn. replace (S (dbOps io + k)) with (dbOps io + S k)%nat by lia. exact Hok.
    + cbn. split; [exact Hr | rewrite Ht; reflexivity].
Qed.

Lemma fetch001_quiet uid retries o io :
  let r := fetchResidentDataWithRetry uid retries o io in
  writeAttempts (effects r) = [] /\ storeWriteAttempts (effects r) = [].
Proof. apply fetchLoop_quiet. Qed.

(** With a working port and a store that accepts the audit writes. *)
Lemma afterFetch_healthy uid mode port residentData o io :
  healthyPort o -> healthyStoreFrom o (dbOps io) ->
  let r := afterFetch uid mode port residentData o io in
  result r = Ok tt
  /\ linesWritten port (effects r) = [responseOf001 residentData ++ nl]
  /\ storeWrites (effects r)
     = ("all_rfid_logs", stampedKey uid (clock io))
       :: (if String.eqb (statusOf residentData) "accepted"
           then [(logCollectionOf mode, uid)]
           else [("Denied Uid's", stampedKey uid (clock io + dbDelay o (dbOps io)))]).
Proof.
  intros H Hs.
  pose proof (Hs (dbOps io) ltac:(lia)) as H0.
  pose proof (Hs (S (dbOps io)) ltac:(lia)) as H1.
  unfold afterFetch, responseOf001, statusOf.
  destruct residentData as [data|]; [destruct (strictEqBool _ true)|];
    cbn zeta; unfold bind, logToFirebase, logDeniedUID, bind, docSet, newDate,
      dateNow, logLine, emit, ret;
    rewrite !p001_write_healthy by (assumption || (unfold defaultRetries; lia));
    cbn; rewrite H0; cbn; rewrite H1; cbn;
    rewrite decide_True by reflexivity; repeat split.
Qed.
(** What one resolution of part_001 leaves behind on a working port, by
    the resolver's outcome; in the first case the store is assumed to
    accept the audit writes. *)
Lemma resolution001_run uid mode port o io :
  healthyPort o ->
  let fr := fetchResidentDataWithRetry uid defaultRetries o io in
  let r := resolution uid mode port o io in
  match result fr with
  | Ok residentData =>
      healthyStoreFrom o (dbOps (world fr)) ->
      linesWritten port (effects r) = [responseOf001 residentData ++ nl]
      /\ storeWrites (effects r)
         = ("all_rfid_logs", stampedKey uid (clock (world fr)))
           :: (if String.eqb (statusOf residentData) "accepted"
               then [(logCollectionOf mode, uid)]
               else [("Denied Uid's",
                      stampedKey uid (clock (world fr) + dbDelay o (dbOps (world fr))))])
  | Thrown e =>
      linesWritten port (effects r) = ["Error" ++ nl]
      /\ storeWriteAttempts (effects r) = []
  end.
Proof.
  intros H. cbn zeta. unfold resolution.
  destruct (fetch001_quiet uid defaultRetries o io) as (Hw & Hs).
  destruct (result (fetchResidentDataWithRetry uid defaultRetries o io))
    as [residentData|e] eqn:E.
  - intros Hst.
    destruct (afterFetch_healthy uid mode port residentData o
                (world (fetchResidentDataWithRetry uid defaultRetries o io)) H Hst)
      as (Ht & Hl & Hm).
    pose proof (bind_run (fetchResidentDataWithRetry uid defaultRetries)
                  (fun x => afterFetch uid mode port x) o io residentData E) as Hb.
    rewrite tryCatch_ok with (a := tt) by (rewrite Hb; exact Ht).
    rewrite Hb. cbn [result effects].
    autorewrite with trace_db. rewrite (linesWritten_none _ _ Hw), Hl, Hm.
    split; [reflexivity|]. cbn [app]. clear -Hs.
    replace (storeWrites (effects (fetchResidentDataWithRetry uid defaultRetries o io)))
      with (@nil (string * string)); [reflexivity|].
    unfold storeWrites. unfold storeWriteAttempts in Hs.
    induction (effects (fetchResidentDataWithRetry uid defaultRetries o io))
      as [|x t IH]; [reflexivity|].
    destruct x; cbn in *; try (apply IH; assumption). discriminate.
  - pose proof (bind_thrown (fetchResidentDataWithRetry uid defaultRetries)
                  (fun x => afterFetch uid mode port x) o io e E) as Hb.
    rewrite tryCatch_thrown with (e := e) by (rewrite Hb; reflexivity).
    rewrite Hb. unfold bind, logLine, emit. js_cbn.
    rewrite !p001_write_healthy by (assumption || (unfold defaultRetries; lia)). js_cbn.
    autorewrite with trace_db. rewrite (linesWritten_none _ _ Hw), Hs. cbn.
    rewrite decide_True by reflexivity. repeat split.
Qed.

End Part001Facts.

(** ** The validator *)

Lemma hexRun_length n : forall s, hexRun n s = true -> String.length s = n.
Proof.
  induction n as [|n IH]; intros [|c s]; cbn; try discriminate; [reflexivity|].
  intros H. apply andb_prop in H as [_ H]. f_equal. apply IH, H.
Qed.

Lemma mapString_length f s : String.length (mapString f s) = String.length s.
Proof. induction s as [|c s IH]; cbn; [reflexivity | f_equal; exact IH]. Qed.

(** A valid UID is never the liveness echo. *)
Lemma valid_not_ping data : uidRegex_test (trim data) = true -> isPingResponse data = false.
Proof.
  intros H. apply hexRun_length in H. unfold isPingResponse.
  destruct (String.eqb _ "ping") eqn:E; [|reflexivity].
  apply String.eqb_eq in E.
  pose proof (mapString_length lowerChar (trim data)) as Hl.
  unfold toLowerCase in E. rewrite E, H in Hl. discriminate.
Qed.

(** ** The cooldown gate *)

Lemma admits_iff window ch uid now :
  (forall t, cooldownCache ch !! uid = Some t -> t <> 0) ->
  admits window ch uid now = true
  <-> (uid ∉ queue ch)
      /\ (cooldownCache ch !! uid = None
          \/ exists t, cooldownCache ch !! uid = Some t /\ now - t >= window).
Proof.
  intros Hnz. unfold admits. rewrite andb_true_iff, negb_true_iff, bool_decide_eq_false.
  destruct (cooldownCache ch !! uid) as [t|] eqn:E.
  - specialize (Hnz t (eq_refl _)).
    rewrite orb_true_iff, Z.eqb_eq, Z.leb_le. split.
    + intros [Hq [H|H]]; [contradiction|]. split; [assumption|]. right. exists t. split; [reflexivity | lia].
    + intros [Hq [H|(t' & [= <-] & H)]]; [discriminate|]. split; [assumption|]. right. lia.
  - split; intros [Hq _]; (split; [assumption|]); [left|]; reflexivity.
Qed.

Lemma admits_queued window ch uid now : uid ∈ queue ch -> admits window ch uid now = false.
Proof.
  intros H. unfold admits. rewrite bool_decide_eq_true_2 by assumption. reflexivity.
Qed.

Lemma admits_cooling window ch uid d now :
  cooldownCache ch !! uid = Some d -> d <> 0 -> now - d < window ->
  admits window ch uid now = false.
Proof.
  intros E Hd Hlt. unfold admits. rewrite E.
  apply andb_false_iff. right. apply orb_false_iff. split.
  - apply Z.eqb_neq. assumption.
  - apply Z.leb_gt. assumption.
Qed.

Lemma admits_elapsed window ch uid d now :
  cooldownCache ch !! uid = Some d -> uid ∉ queue ch -> now - d >= window ->
  admits window ch uid now = true.
Proof.
  intros E Hq Hge. unfold admits. rewrite E, bool_decide_eq_false_2 by assumption.
  cbn. apply orb_true_iff. right. apply Z.leb_le. lia.
Qed.

Lemma p000_gateBehaviour :
  gateBehaviour Part000.handleReaderData Part000.resolution Part000.cooldownTime.
Proof.
  intros data mode ch port o io Hq. cbn zeta. unfold Part000.handleReaderData.
  destruct (isPingResponse data) eqn:Ep.
  { cbn. repeat split; [left; reflexivity|].
    intros Hv. apply valid_not_ping in Hv. congruence. }
  unfold bind, Part000.isValidUID, bind, logLine, emit, dateNow, ret. js_cbn.
  destruct (uidRegex_test (trim data)); js_cbn.
  2: { repeat split; [left; reflexivity | discriminate]. }
  destruct (admits Part000.cooldownTime ch (trim data) (clock io)) eqn:E; js_cbn.
  2: { repeat split; [left; reflexivity | discriminate]. }
  unfold Part000.processQueue. rewrite Hq. cbn. repeat split.
  right. repeat split.
Qed.

Lemma p001_gateBehaviour :
  gateBehaviour Part001.handleReaderData Part001.resolution Part001.cooldownTime.
Proof.
  intros data mode ch port o io Hq. cbn zeta. unfold Part001.handleReaderData.
  unfold Part001.isValidUID.
  destruct (uidRegex_test (trim data)); js_cbn.
  2: { repeat split; [left; reflexivity | discriminate]. }
  unfold bind, dateNow. js_cbn.
  destruct (admits Part001.cooldownTime ch (trim data) (clock io)) eqn:E; js_cbn.
  2: { repeat split; [left; reflexivity | discriminate]. }
  unfold Part001.processQueue. rewrite Hq. cbn. repeat split.
  right. repeat split.
Qed.

(** A valid line in part_000 and part_001: the guard decides between
    enqueueing (and going on to [processQueue]) and doing nothing. *)
Lemma p000_handle_valid data mode ch port o io :
  uidRegex_test (trim data) = true ->
  (admits Part000.cooldownTime ch (trim data) (clock io) = true ->
   result (Part000.handleReaderData data mode ch port o io)
   = result (Part000.processQueue mode
               (mkChannel (queue ch ++ [trim data]) (cooldownCache ch)) port o io))
  /\ (admits Part000.cooldownTime ch (trim data) (clock io) = false ->
      result (Part000.handleReaderData data mode ch port o io) = Ok (ch, None)
      /\ writeAttempts (effects (Part000.handleReaderData data mode ch port o io)) = []).
Proof.
  intros Hv. pose proof (valid_not_ping data Hv) as Hp.
  unfold Part000.handleReaderData. rewrite Hp.
  unfold bind, Part000.isValidUID, bind, logLine, emit, dateNow, ret. js_cbn.
  rewrite Hv. js_cbn.
  split; intros ->; js_cbn; [|split; reflexivity].
  destruct (Part000.processQueue _ _ _ _ _) as [[[? ?]|?] ? ?]; reflexivity.
Qed.

Lemma p001_handle_valid data mode ch port o io :
  uidRegex_test (trim data) = true ->
  (admits Part001.cooldownTime ch (trim data) (clock io) = true ->
   result (Part001.handleReaderData data mode ch port o io)
   = result (Part001.processQueue mode
               (mkChannel (queue ch ++ [trim data]) (cooldownCache ch)) port o io))
  /\ (admits Part001.cooldownTime ch (trim data) (clock io) = false ->
      result (Part001.handleReaderData data mode ch port o io) = Ok (ch, None)
      /\ writeAttempts (effects (Part001.handleReaderData data mode ch port o io)) = []).
Proof.
  intros Hv. unfold Part001.handleReaderData, Part001.isValidUID. rewrite Hv.
  unfold bind, dateNow. js_cbn.
  split; intros ->; js_cbn; [|split; reflexivity].
  destruct (Part001.processQueue _ _ _ _ _) as [[[? ?]|?] ? ?]; reflexivity.
Qed.

Section GateRun.

Variable handle : string -> string -> Channel -> Port -> Js Started.
Variable chainOf : string -> string -> Port -> Js unit.
Variable window : Z.
Hypothesis gate : gateBehaviour handle chainOf window.
Variable mode : string.
Variable port : Port.
Variable o : Oracle.

(** Between events the queue is empty: whatever is enqueued is dequeued
    by the same callback. *)
Lemma step_queue_empty s ev :
  queue (channel s) = [] -> queue (channel (step handle mode port o s ev)) = [].
Proof.
  intros Hq. destruct ev as [data|dt|i]; cbn.
  - destruct (gate data mode (channel s) port o (rworld s) Hq)
      as (_ & _ & _ & _ & [Hr|(Hr & _)] & _); rewrite Hr; cbn; assumption || reflexivity.
  - assumption.
  - destruct (pending s !! i) as [[u c]|]; assumption.
Qed.

(** A stamp is never removed, and it is replaced only when its UID is
    admitted again. *)
Lemma step_cooling T d s ev :
  queue (channel s) = [] ->
  cooldownCache (channel s) !! T = Some d -> d <> 0 ->
  match ev with
  | Scan data => trim data = T -> clock (rworld s) - d < window
  | _ => True
  end ->
  let s' := step handle mode port o s ev in
  cooldownCache (channel s') !! T = Some d
  /\ exists l, dequeued s' = (dequeued s ++ l)%list /\ T ∉ l.
Proof.
  intros Hq Hc Hd Hev. destruct ev as [data|dt|i]; cbn.
  - destruct (gate data mode (channel s) port o (rworld s) Hq)
      as (_ & _ & _ & _ & [Hr|(Hr & _ & Ha)] & _); rewrite Hr; cbn.
    + split; [assumption|]. exists []. split; [reflexivity | apply not_elem_of_nil].
    + destruct (decide (trim data = T)) as [Heq|Hne].
      * rewrite Heq in Ha.
        rewrite (admits_cooling _ _ _ _ _ Hc Hd (Hev Heq)) in Ha. discriminate.
      * rewrite lookup_insert_ne by assumption. split; [assumption|].
        exists [trim data]. split; [reflexivity|].
        intros Hin. apply list_elem_of_singleton in Hin. congruence.
  - split; [assumption|]. exists []. split; [symmetry; apply app_nil_r | apply not_elem_of_nil].
  - destruct (pending s !! i) as [[u c]|]; cbn; (split; [assumption|]); exists [];
      (split; [symmetry; apply app_nil_r | apply not_elem_of_nil]).
Qed.

Lemma run_cooling T d : forall evs s,
  queue (channel s) = [] ->
  cooldownCache (channel s) !! T = Some d -> d <> 0 ->
  earlyScans handle window mode port o T d s evs ->
  let s' := run handle mode port o s evs in
  cooldownCache (channel s') !! T = Some d
  /\ exists l, dequeued s' = (dequeued s ++ l)%list /\ T ∉ l.
Proof.
  induction evs as [|ev evs IH]; intros s Hq Hc Hd He; cbn.
  - split; [assumption|]. exists []. split; [symmetry; apply app_nil_r | apply not_elem_of_nil].
  - destruct He as [Hev He].
    destruct (step_cooling T d s ev Hq Hc Hd Hev) as (Hc' & l1 & Hl1 & Hn1).
    destruct (IH _ (step_queue_empty s ev Hq) Hc' Hd He) as (Hc'' & l2 & Hl2 & Hn2).
    split; [assumption|]. exists (l1 ++ l2)%list. split.
    + unfold run in Hl2. rewrite Hl2, Hl1. symmetry. apply app_assoc.
    + intros Hin. apply elem_of_app in Hin as [Hin|Hin]; contradiction.
Qed.

End GateRun.

(** ** Lemmas shared by the claims *)

Lemma gateBehaviourOf v :
  gateBehaviour (handleReaderDataOf v) (resolutionOf v) (cooldownTimeOf v).
Proof. destruct v; [apply p000_gateBehaviour | apply p001_gateBehaviour]. Qed.

(** A resolution whose every store request fails answers "Error". *)
Lemma resolution_store_down v uid mode port o io :
  healthyPort o ->
  (forall j, (j <= defaultRetries)%nat -> dbFault o (dbOps io + j) <> None) ->
  linesWritten port (effects (resolutionOf v uid mode port o io)) = ["Error" ++ nl]
  /\ storeWriteAttempts (effects (resolutionOf v uid mode port o io)) = [].
Proof.
  intros Hp Hdown. destruct v; cbn [resolutionOf].
  - destruct (resolution_run uid mode port o io Hp) as [_ Hrun].
    destruct (tryFetching_exhausted uid defaultRetries defaultRetries 0 o io eq_refl)
      as (e & _ & Hr & _).
    { intros j Hj. apply Hdown. lia. }
    unfold Part000.fetchResidentDataWithRetry in Hrun. rewrite Hr in Hrun.
    destruct Hrun as (Hl & _ & Hs). split; assumption.
  - pose proof (resolution001_run uid mode port o io Hp) as Hrun.
    destruct (fetchLoop_exhausted uid defaultRetries defaultRetries 0 o io eq_refl)
      as (e & _ & Hr & _).
    { unfold defaultRetries. lia. }
    { intros j Hj. apply Hdown. lia. }
    unfold Part001.fetchResidentDataWithRetry in Hrun. cbn zeta in Hrun.
    rewrite Hr in Hrun. exact Hrun.
Qed.

Lemma statusOf_table residentData dec :
  tableDecision (Ok residentData) = Some dec ->
  dec <> DecisionError
  /\ statusOf residentData = match dec with Accepted => "accepted" | _ => "denied" end.
Proof.
  unfold tableDecision, statusOf, getField.
  destruct residentData as [data|]; [|intros [= <-]; split; [discriminate | reflexivity]].
  destruct (data !! "assigned") as [[| |[|]| | |]|]; cbn; intros [= <-];
    (split; [discriminate | reflexivity]).
Qed.

(** ** The claims *)

(** C1 (decision table), at the input where part_001 leaves the table: a
    record without an [assigned] field is DeniedNoAssignedField with
    response "Resident Not Found" in the table and in part_000, while
    part_001 answers "Resident Not Found - Assign Needed". *)
Theorem C1_part001_missing_field_response :
  tableDecision (result (Part001.fetchResidentDataWithRetry "1A2B3C4D" defaultRetries
                           okOracle worldNoField))
  = Some DeniedNoAssignedField
  /\ responseText DeniedNoAssignedField = "Resident Not Found"
  /\ linesWritten portVehicleEntry
       (effects (Part001.resolution "1A2B3C4D" "Vehicle Entry" portVehicleEntry
                   okOracle worldNoField))
     = ["Resident Not Found - Assign Needed" ++ nl]
  /\ linesWritten portVehicleEntry
       (effects (Part000.resolution "1A2B3C4D" "Vehicle Entry" portVehicleEntry
                   okOracle worldNoField))
     = ["Resident Not Found" ++ nl].
Proof. vm_compute. repeat split. Qed.

(** C2 (exactly one response), at the input where part_001 answers twice:
    the resident is found and assigned, and the store rejects the first
    audit write (its second request).  part_001 writes "Resident Found" and
    then "Error" to the reader; part_000 writes "Resident Found" only and
    logs the failure.  When the store rejects the second audit write
    instead, part_000 still answers once, but the rejection reaches no
    handler and is not logged. *)
Theorem C2_part001_audit_failure_second_response :
  linesWritten portVehicleEntry
    (effects (Part001.resolution "1A2B3C4D" "Vehicle Entry" portVehicleEntry
                (glitchOracle 1) worldAssigned))
  = ["Resident Found" ++ nl; "Error" ++ nl]
  /\ linesWritten portVehicleEntry
       (effects (Part000.resolution "1A2B3C4D" "Vehicle Entry" portVehicleEntry
                   (glitchOracle 1) worldAssigned))
     = ["Resident Found" ++ nl]
  /\ ELog "ERROR" "Error logging to Firebase: UNAVAILABLE"
     ∈ effects (Part000.resolution "1A2B3C4D" "Vehicle Entry" portVehicleEntry
                  (glitchOracle 1) worldAssigned)
  /\ last (effects (Part000.resolution "1A2B3C4D" "Vehicle Entry" portVehicleEntry
                      (glitchOracle 2) worldAssigned))
     = Some (EUnhandled "UNAVAILABLE").
Proof.
  split; [vm_compute; reflexivity|]. split; [vm_compute; reflexivity|]. split.
  - apply list_elem_of_In. vm_compute. tauto.
  - vm_compute. reflexivity.
Qed.

(** C3 (cooldown gate).  For a valid line, in either variant: the guard
    [admits] holds exactly when the UID is not in the channel's queue and
    either has no stamp in the channel's cache or its stamp is at least the
    cooldown window old (180000 ms in part_000); when it holds the handler
    appends the UID to the queue and goes on to [processQueue]; when it does
    not, the channel is left as it was, no chain is started and nothing is
    written to any port.  Stamps are [Date.now()] readings, assumed nonzero
    (JavaScript reads a stored 0 as a missing entry). *)
Theorem C3_cooldown_gate (data mode : string) (ch : Channel) (port : Port)
    (o : Oracle) (io : IO) :
  let uid := trim data in
  let now := clock io in
  uidRegex_test uid = true ->
  (forall t, cooldownCache ch !! uid = Some t -> t <> 0) ->
  Part000.cooldownTime = 180000
  /\ (forall window,
        admits window ch uid now = true
        <-> (uid ∉ queue ch)
            /\ (cooldownCache ch !! uid = None
                \/ exists t, cooldownCache ch !! uid = Some t /\ now - t >= window))
  /\ (admits Part000.cooldownTime ch uid now = true ->
      result (Part000.handleReaderData data mode ch port o io)
      = result (Part000.processQueue mode
                  (mkChannel (queue ch ++ [uid]) (cooldownCache ch)) port o io))
  /\ (admits Part000.cooldownTime ch uid now = false ->
      result (Part000.handleReaderData data mode ch port o io) = Ok (ch, None)
      /\ writeAttempts (effects (Part000.handleReaderData data mode ch port o io)) = [])
  /\ (admits Part001.cooldownTime ch uid now = true ->
      result (Part001.handleReaderData data mode ch port o io)
      = result (Part001.processQueue mode
                  (mkChannel (queue ch ++ [uid]) (cooldownCache ch)) port o io))
  /\ (admits Part001.cooldownTime ch uid now = false ->
      result (Part001.handleReaderData data mode ch port o io) = Ok (ch, None)
      /\ writeAttempts (effects (Part001.handleReaderData data mode ch port o io)) = []).
Proof.
  intros uid now Hv Hnz. subst uid now.
  split; [reflexivity|].
  split; [intros window; apply admits_iff; assumption|].
  destruct (p000_handle_valid data mode ch port o io Hv) as [H0 H0'].
  destruct (p001_handle_valid data mode ch port o io Hv) as [H1 H1'].
  repeat split; first [apply H0 | apply H0' | apply H1 | apply H1']; assumption.
Qed.

Lemma C3_cooldown_gate_witness :
  uidRegex_test (trim " 1A2B3C4D ") = true
  /\ (forall t, cooldownCache coolingChannel !! trim " 1A2B3C4D " = Some t -> t <> 0)
  /\ (result (Part000.handleReaderData " 1A2B3C4D " "Vehicle Entry" coolingChannel
                portVehicleEntry okOracle world0) = Ok (coolingChannel, None)
      /\ writeAttempts (effects (Part000.handleReaderData " 1A2B3C4D " "Vehicle Entry"
                                   coolingChannel portVehicleEntry okOracle world0)) = []).
Proof.
  assert (Hv : uidRegex_test (trim " 1A2B3C4D ") = true) by reflexivity.
  assert (Hnz : forall t, cooldownCache coolingChannel !! trim " 1A2B3C4D " = Some t -> t <> 0).
  { intros t. vm_compute. intros [= <-]. discriminate. }
  split; [exact Hv|]. split; [exact Hnz|].
  destruct (C3_cooldown_gate " 1A2B3C4D " "Vehicle Entry" coolingChannel portVehicleEntry
              okOracle world0 Hv Hnz) as (_ & _ & _ & Hrej & _).
  apply Hrej. vm_compute. reflexivity.
Defined.

(** C4 (cooldown clock starts at dequeue).  When [processQueue] dequeues
    [T] at time [d], it stamps [T] with [d] in the channel's cache, in both
    variants; enqueueing does not touch the cache.  From then on, on any
    state of that channel that still carries the stamp, the guard refuses
    [T] at every time [t] with [t - d < window] and, [T] not being queued,
    admits it at every [t] with [t - d >= window]; and a UID that is in the
    queue is refused at any time.  [d] is a [Date.now()] reading, assumed
    nonzero. *)
Theorem C4_cooldown_from_dequeue (mode : string) (ch : Channel) (port : Port)
    (o : Oracle) (io : IO) (T : string) (rest : list string) :
  queue ch = T :: rest ->
  clock io <> 0 ->
  let d := clock io in
  result (Part000.processQueue mode ch port o io)
  = Ok (mkChannel rest (<[T := d]> (cooldownCache ch)),
        Some (T, Part000.resolution T mode port))
  /\ result (Part001.processQueue mode ch port o io)
     = Ok (mkChannel rest (<[T := d]> (cooldownCache ch)),
           Some (T, Part001.resolution T mode port))
  /\ (forall data chq X others,
        uidRegex_test (trim data) = true ->
        queue chq = X :: others -> X <> trim data ->
        admits Part000.cooldownTime chq (trim data) d = true ->
        exists ch',
          result (Part000.handleReaderData data mode chq port o io)
          = Ok (ch', Some (X, Part000.resolution X mode port))
          /\ trim data ∈ queue ch'
          /\ cooldownCache ch' !! trim data = cooldownCache chq !! trim data)
  /\ (forall data chq X others,
        uidRegex_test (trim data) = true ->
        queue chq = X :: others -> X <> trim data ->
        admits Part001.cooldownTime chq (trim data) d = true ->
        exists ch',
          result (Part001.handleReaderData data mode chq port o io)
          = Ok (ch', Some (X, Part001.resolution X mode port))
          /\ trim data ∈ queue ch'
          /\ cooldownCache ch' !! trim data = cooldownCache chq !! trim data)
  /\ (forall window ch' t,
        cooldownCache ch' !! T = Some d ->
        (t - d < window -> admits window ch' T t = false)
        /\ (t - d >= window -> T ∉ queue ch' -> admits window ch' T t = true))
  /\ (forall window ch' t, T ∈ queue ch' -> admits window ch' T t = false).
Proof.
  intros Hq Hd d. subst d.
  split; [unfold Part000.processQueue; rewrite Hq; reflexivity|].
  split; [unfold Part001.processQueue; rewrite Hq; reflexivity|].
  split; [|split; [|split]].
  - intros data chq X others Hv Hqq Hne Ha.
    destruct (p000_handle_valid data mode chq port o io Hv) as [H0 _]. rewrite (H0 Ha).
    unfold Part000.processQueue. cbn [queue]. rewrite Hqq. cbn.
    eexists. split; [reflexivity|]. cbn. split.
    + apply elem_of_app. right. apply list_elem_of_singleton. reflexivity.
    + apply lookup_insert_ne. assumption.
  - intros data chq X others Hv Hqq Hne Ha.
    destruct (p001_handle_valid data mode chq port o io Hv) as [H0 _]. rewrite (H0 Ha).
    unfold Part001.processQueue. cbn [queue]. rewrite Hqq. cbn.
    eexists. split; [reflexivity|]. cbn. split.
    + apply elem_of_app. right. apply list_elem_of_singleton. reflexivity.
    + apply lookup_insert_ne. assumption.
  - intros window ch' t Hc. split.
    + intros Hlt. eapply admits_cooling; eassumption.
    + intros Hge Hnq. eapply admits_elapsed; eassumption.
  - intros window ch' t Hin. apply admits_queued. assumption.
Qed.

Lemma C4_cooldown_from_dequeue_witness :
  queue (mkChannel ["1A2B3C4D"] ∅) = "1A2B3C4D" :: []
  /\ clock world0 <> 0
  /\ admits Part000.cooldownTime
       (mkChannel [] (<["1A2B3C4D" := clock world0]> ∅)) "1A2B3C4D"
       (clock world0 + 179999) = false
  /\ admits Part000.cooldownTime
       (mkChannel [] (<["1A2B3C4D" := clock world0]> ∅)) "1A2B3C4D"
       (clock world0 + 180000) = true.
Proof.
  assert (Hq : queue (mkChannel ["1A2B3C4D"] ∅) = "1A2B3C4D" :: []) by reflexivity.
  assert (Hd : clock world0 <> 0) by discriminate.
  split; [exact Hq|]. split; [exact Hd|].
  destruct (C4_cooldown_from_dequeue "Vehicle Entry" (mkChannel ["1A2B3C4D"] ∅)
              portVehicleEntry okOracle world0 "1A2B3C4D" [] Hq Hd)
    as (_ & _ & _ & _ & Hgate & _).
  destruct (Hgate Part000.cooldownTime
              (mkChannel [] (<["1A2B3C4D" := clock world0]> ∅))
              (clock world0 + 179999)) as [Hrefuse _].
  { vm_compute. reflexivity. }
  destruct (Hgate Part000.cooldownTime
              (mkChannel [] (<["1A2B3C4D" := clock world0]> ∅))
              (clock world0 + 180000)) as [_ Hadmit].
  { vm_compute. reflexivity. }
  split.
  - apply Hrefuse. vm_compute. reflexivity.
  - apply Hadmit.
    + vm_compute. discriminate.
    + vm_compute. intros Hin. inversion Hin.
Defined.

(** C5, as stated, fails for Error: with the store down the resolver gives
    up, the reader is told "Error", and neither variant attempts any audit
    write, where the specification prescribes the all-events append. *)
Lemma C5_error_leaves_no_audit_record :
  tableDecision (result (Part000.fetchResidentDataWithRetry "1A2B3C4D" defaultRetries
                           downOracle world0))
  = Some DecisionError
  /\ linesWritten portVehicleEntry
       (effects (Part000.resolution "1A2B3C4D" "Vehicle Entry" portVehicleEntry
                   downOracle world0))
     = ["Error" ++ nl]
  /\ storeWriteAttempts (effects (Part000.resolution "1A2B3C4D" "Vehicle Entry"
                                    portVehicleEntry downOracle world0)) = []
  /\ ~ auditPlanOf DecisionError "1A2B3C4D"
         (storeWrites (effects (Part000.resolution "1A2B3C4D" "Vehicle Entry"
                                  portVehicleEntry downOracle world0)))
  /\ storeWriteAttempts (effects (Part001.resolution "1A2B3C4D" "Vehicle Entry"
                                    portVehicleEntry downOracle world0)) = []
  /\ ~ auditPlanOf DecisionError "1A2B3C4D"
         (storeWrites (effects (Part001.resolution "1A2B3C4D" "Vehicle Entry"
                                  portVehicleEntry downOracle world0))).
Proof.
  assert (Hw0 : storeWrites (effects (Part000.resolution "1A2B3C4D" "Vehicle Entry"
                                        portVehicleEntry downOracle world0)) = [])
    by (vm_compute; reflexivity).
  assert (Hw1 : storeWrites (effects (Part001.resolution "1A2B3C4D" "Vehicle Entry"
                                        portVehicleEntry downOracle world0)) = [])
    by (vm_compute; reflexivity).
  repeat split; try (vm_compute; reflexivity).
  - rewrite Hw0. intros (w1 & Heq & _). discriminate Heq.
  - rewrite Hw1. intros (w1 & Heq & _). discriminate Heq.
Qed.

(** The walk-in reader is an entry reader whose mode name does not contain
    "Entry": its accepted scans go to the exit log. *)
Remark walk_in_logged_as_exit :
  logCollectionOf (Part000.modeOf portWalkIn) = "latest_exit_log"
  /\ logCollectionOf (Part001.modeOf portWalkIn) = "latest_exit_log".
Proof. split; reflexivity. Qed.

(** C6 (retry budget), at the input where part_001 gives up early: the
    store fails three requests and would serve the fourth.  part_000, with
    its three retries, makes four requests and returns the record; part_001
    throws on the third failure and never makes the fourth request. *)
Theorem C6_part001_gives_up_on_third_failure :
  result (Part001.fetchResidentDataWithRetry "1A2B3C4D" defaultRetries
            (flakyOracle 3) worldAssigned)
  = Thrown "UNAVAILABLE"
  /\ List.length (storeReads (effects (Part001.fetchResidentDataWithRetry "1A2B3C4D"
                                         defaultRetries (flakyOracle 3) worldAssigned)))
     = 3%nat
  /\ result (Part000.fetchResidentDataWithRetry "1A2B3C4D" defaultRetries
               (flakyOracle 3) worldAssigned)
     = Ok (Some {[ "assigned" := JBool true ]})
  /\ List.length (storeReads (effects (Part000.fetchResidentDataWithRetry "1A2B3C4D"
                                         defaultRetries (flakyOracle 3) worldAssigned)))
     = 4%nat.
Proof. vm_compute. repeat split. Qed.

(** C7, as stated, fails on normalization: a lower-case tag is a valid UID
    and is used as it was read.  The line "deadbeef" is enqueued, dequeued
    and looked up as "deadbeef", not as "DEADBEEF", so the assigned
    resident DEADBEEF is not found. *)
Lemma C7_tag_case_is_kept :
  uidRegex_test (trim "deadbeef") = true
  /\ normalizedTag "deadbeef" = "DEADBEEF"
  /\ dequeued (run Part000.handleReaderData "Walk-out" portWalkOut okOracle
                 (bootReader worldUpper) [Scan "deadbeef"; Settle 0])
     = ["deadbeef"]
  /\ storeReads (history (run Part000.handleReaderData "Walk-out" portWalkOut okOracle
                            (bootReader worldUpper) [Scan "deadbeef"; Settle 0]))
     = [("residents", "deadbeef")]
  /\ linesWritten portWalkOut
       (history (run Part000.handleReaderData "Walk-out" portWalkOut okOracle
                   (bootReader worldUpper) [Scan "deadbeef"; Settle 0]))
     = ["Resident Not Found" ++ nl]
  /\ dequeued (run Part001.handleReaderData "Walk Out" portWalkOut okOracle
                 (bootReader worldUpper) [Scan "deadbeef"; Settle 0])
     = ["deadbeef"].
Proof. vm_compute. repeat split. Qed.

(** C7, as the code has it (validator).  For every line read from an access
    reader, [uid] being the line with surrounding white space removed:
    - in part_000, a [uid] that is "ping" in any letter case is dropped with
      one INFO log line: the channel is unchanged, nothing is started,
      nothing is written to a port and nothing is reported as invalid;
    - in either variant, a [uid] of eight hexadecimal digits in any letter
      case is accepted as it is, letter case included: when the cooldown
      gate admits it, [uid] itself is appended to the queue, and no
      error-level line is logged;
    - in either variant, any other [uid] that is not "ping" in some letter
      case is reported in an error-level log line and dropped: the channel
      is unchanged, nothing is started and nothing is written to a port. *)
Theorem C7_validator (data mode : string) (ch : Channel) (port : Port)
    (o : Oracle) (io : IO) :
  let uid := trim data in
  (toLowerCase uid = "ping" ->
   result (Part000.handleReaderData data mode ch port o io) = Ok (ch, None)
   /\ effects (Part000.handleReaderData data mode ch port o io)
      = [ELog "INFO" ("Ping response received on " ++ mode ++ ". Ignoring...")])
  /\ (uidRegex_test uid = true ->
      forall v,
        (admits (cooldownTimeOf v) ch uid (clock io) = true ->
         result (handleReaderDataOf v data mode ch port o io)
         = result (processQueueOf v mode
                     (mkChannel (queue ch ++ [uid]) (cooldownCache ch)) port o io))
        /\ (forall message,
              ELog (errorLevelOf v) message
              ∉ effects (handleReaderDataOf v data mode ch port o io))
        /\ writeAttempts (effects (handleReaderDataOf v data mode ch port o io)) = [])
  /\ (toLowerCase uid <> "ping" -> uidRegex_test uid = false ->
      forall v,
        result (handleReaderDataOf v data mode ch port o io) = Ok (ch, None)
        /\ writeAttempts (effects (handleReaderDataOf v data mode ch port o io)) = []
        /\ ELog (errorLevelOf v) ("Invalid UID received on " ++ mode ++ ": " ++ uid)
           ∈ effects (handleReaderDataOf v data mode ch port o io)).
Proof.
  intros uid. subst uid. split; [|split].
  - intros Hping. unfold Part000.handleReaderData, isPingResponse.
    rewrite Hping. cbn. split; reflexivity.
  - intros Hv v. pose proof (valid_not_ping data Hv) as Hp.
    destruct v; cbn [handleReaderDataOf processQueueOf cooldownTimeOf errorLevelOf].
    + split; [apply p000_handle_valid; assumption|].
      unfold Part000.handleReaderData. rewrite Hp.
      unfold bind, Part000.isValidUID, bind, logLine, emit, dateNow, ret. js_cbn.
      rewrite Hv. js_cbn.
      destruct (admits Part000.cooldownTime ch (trim data) (clock io)); js_cbn;
        [unfold Part000.processQueue; cbn [queue];
         destruct (queue ch ++ [trim data])%list; js_cbn|];
        (split; [|reflexivity]); intros message Hin;
        repeat (apply elem_of_cons in Hin as [Hin|Hin]; [discriminate Hin|]);
        inversion Hin.
    + split; [apply p001_handle_valid; assumption|].
      unfold Part001.handleReaderData, Part001.isValidUID. rewrite Hv.
      unfold bind, dateNow. js_cbn.
      destruct (admits Part001.cooldownTime ch (trim data) (clock io)); js_cbn;
        [unfold Part001.processQueue; cbn [queue];
         destruct (queue ch ++ [trim data])%list; js_cbn|];
        (split; [|reflexivity]); intros message Hin; inversion Hin.
  - intros Hnp Hinv v.
    assert (Hp : isPingResponse data = false).
    { unfold isPingResponse. apply String.eqb_neq. exact Hnp. }
    destruct v; cbn [handleReaderDataOf errorLevelOf].
    + unfold Part000.handleReaderData. rewrite Hp.
      unfold bind, Part000.isValidUID, bind, logLine, emit, dateNow, ret. js_cbn.
      rewrite Hinv. js_cbn. repeat split.
      apply list_elem_of_In. cbn. tauto.
    + unfold Part001.handleReaderData, Part001.isValidUID. rewrite Hinv.
      unfold bind, logLine, emit, ret. js_cbn. repeat split.
      apply list_elem_of_In. cbn. tauto.
Qed.

Lemma C7_validator_witness :
  toLowerCase (trim " PiNg ") = "ping"
  /\ result (Part000.handleReaderData " PiNg " "Walk-in" emptyChannel portWalkIn
               okOracle world0) = Ok (emptyChannel, None)
  /\ effects (Part000.handleReaderData " PiNg " "Walk-in" emptyChannel portWalkIn
                okOracle world0)
     = [ELog "INFO" "Ping response received on Walk-in. Ignoring..."].
Proof.
  assert (Hping : toLowerCase (trim " PiNg ") = "ping") by reflexivity.
  split; [exact Hping|].
  destruct (C7_validator " PiNg " "Walk-in" emptyChannel portWalkIn okOracle world0)
    as (Hecho & _).
  exact (Hecho Hping).
Defined.

(** C8 (enrollment reader).  In either variant, for a valid line and a
    working port: when the lookup succeeds and finds no record, a record
    [{assigned: false}] is created and the reader receives "New Resident
    Created"; when it finds a record whose [assigned] is [false] the reader
    receives "UID Not Assigned"; when it finds a record with any other
    [assigned] (so [true] or any other truthy value) the reader receives
    "Resident Found"; when the lookup or the creation fails the reader
    receives "Error".  Every valid line is answered exactly once, whatever
    the time and however often it is repeated (there is no cooldown), and
    the only document ever written is the resident's own (no audit
    write). *)
Theorem C8_enrollment (v : Variant) (data : string) (o : Oracle) (io : IO) :
  let uid := trim data in
  let r := onAssignDataOf v data o io in
  uidRegex_test uid = true ->
  healthyPort o ->
  (dbFault o (dbOps io) = None ->
   match store io !! ("residents", uid) with
   | None =>
       (dbFault o (S (dbOps io)) = None ->
        linesWritten portAssign (effects r) = ["New Resident Created" ++ nl]
        /\ storeWrites (effects r) = [("residents", uid)]
        /\ store (world r) !! ("residents", uid) = Some (object [("assigned", JBool false)]))
       /\ (dbFault o (S (dbOps io)) <> None ->
           linesWritten portAssign (effects r) = ["Error" ++ nl]
           /\ storeWrites (effects r) = []
           /\ store (world r) = store io)
   | Some residentData =>
       (getField residentData "assigned" = JBool false ->
        linesWritten portAssign (effects r) = ["UID Not Assigned" ++ nl])
       /\ (getField residentData "assigned" <> JBool false ->
           linesWritten portAssign (effects r) = ["Resident Found" ++ nl])
       /\ storeWriteAttempts (effects r) = []
   end)
  /\ (dbFault o (dbOps io) <> None ->
      linesWritten portAssign (effects r) = ["Error" ++ nl]
      /\ storeWriteAttempts (effects r) = [])
  /\ List.length (writeAttempts (effects r)) = 1%nat
  /\ Forall (eq ("residents", uid)) (storeWriteAttempts (effects r))
  /\ storeReads (effects r) = [("residents", uid)].
Proof.
  intros uid r Hv Hp. subst uid r.
  assert (Hfalse : forall x, strictEqBool x false = true <-> x = JBool false).
  { intros [| |[|]| | |]; cbn; split; congruence. }
  destruct v; cbn [onAssignDataOf];
    unfold Part000.onAssignData, Part001.onAssignData, Part001.isValidUID,
      Part000.isValidUID, detached, tryCatch, bind, docGet, docSet, logLine, emit, ret;
    js_cbn; rewrite Hv; js_cbn;
    (destruct (dbFault o (dbOps io)) as [e|] eqn:E; js_cbn;
     [|destruct (store io !! ("residents", trim data)) as [residentData|] eqn:Es; js_cbn;
       [destruct (strictEqBool (getField residentData "assigned") false) eqn:Ea
       |destruct (dbFault o (S (dbOps io))) as [e'|] eqn:E'; js_cbn]]);
    rewrite ?p000_write_healthy by assumption;
    rewrite ?p001_write_healthy by (assumption || (unfold defaultRetries; lia));
    js_cbn; autorewrite with trace_db; cbn;
    repeat match goal with
           | |- _ /\ _ => split
           | |- _ -> _ => intros ?
           | |- Forall _ [] => constructor
           | |- Forall _ (_ :: _) => constructor
           | H : ?x <> ?x |- _ => contradiction H; reflexivity
           | H : Some _ = None |- _ => discriminate H
           | H : None <> None |- _ => contradiction H; reflexivity
           | H : getField _ _ = JBool false |- _ => apply Hfalse in H; congruence
           | H : getField _ _ <> JBool false |- _ =>
               exfalso; apply H; apply Hfalse; assumption
           | |- <[_ := _]> _ !! _ = Some _ => apply lookup_insert_eq
           | |- _ = _ => reflexivity
           end.
Qed.

Lemma C8_enrollment_witness :
  uidRegex_test (trim "00000000") = true
  /\ healthyPort okOracle
  /\ linesWritten portAssign (effects (onAssignDataOf part_000 "00000000" okOracle world0))
     = ["New Resident Created" ++ nl]
  /\ store (world (onAssignDataOf part_000 "00000000" okOracle world0))
     !! ("residents", trim "00000000") = Some (object [("assigned", JBool false)]).
Proof.
  assert (Hv : uidRegex_test (trim "00000000") = true) by reflexivity.
  assert (Hp : healthyPort okOracle) by (intros k; reflexivity).
  split; [exact Hv|]. split; [exact Hp|].
  destruct (C8_enrollment part_000 "00000000" okOracle world0 Hv Hp) as (Hfound & _).
  specialize (Hfound eq_refl).
  change (store world0 !! ("residents", trim "00000000"))
    with (@None (gmap string JsVal)) in Hfound.
  destruct Hfound as [Hnew _].
  destruct (Hnew eq_refl) as (Hline & _ & Hstore).
  split; [exact Hline | exact Hstore].
Defined.

(** C9 (one resolution at a time), at the input where two resolutions
    overlap: two different valid UIDs arrive on one reader before the store
    has answered the first.  In both variants each is dequeued by its own
    callback, so both chains are pending at once; when the store answers the
    second first, the responses leave in the opposite order of the
    dequeues. *)
Theorem C9_resolutions_overlap (v : Variant) :
  let handle := handleReaderDataOf v in
  let s := run handle "Vehicle Entry" portVehicleEntry okOracle (bootReader worldAssigned)
             [Scan "1A2B3C4D"; Scan "0BADF00D"] in
  let s' := run handle "Vehicle Entry" portVehicleEntry okOracle s [Settle 1; Settle 0] in
  dequeued s = ["1A2B3C4D"; "0BADF00D"]
  /\ inFlight s = ["1A2B3C4D"; "0BADF00D"]
  /\ queue (channel s) = []
  /\ linesWritten portVehicleEntry (history s) = []
  /\ linesWritten portVehicleEntry (history s')
     = ["Resident Not Found" ++ nl; "Resident Found" ++ nl].
Proof. destruct v; vm_compute; repeat split. Qed.



(** ** Further properties of the code *)

(** On a working port, part_000 answers every outcome the table covers with
    the table's text. *)
Lemma part000_follows_decision_table uid mode port o io dec :
  healthyPort o ->
  tableDecision (result (Part000.fetchResidentDataWithRetry uid defaultRetries o io))
  = Some dec ->
  linesWritten port (effects (Part000.resolution uid mode port o io))
  = [responseText dec ++ nl].
Proof.
  intros Hp Hdec.
  destruct (resolution_run uid mode port o io Hp) as [_ Hrun].
  destruct (result (Part000.fetchResidentDataWithRetry uid defaultRetries o io))
    as [residentData|e].
  - destruct Hrun as (Hl & _). rewrite Hl, (responseOf_table _ _ Hdec). reflexivity.
  - injection Hdec as <-. destruct Hrun as (Hl & _). exact Hl.
Qed.

(** On a working port, part_000 answers every admitted scan exactly once,
    whatever the store does to the resolver and to the audit writes, and
    the chain never rejects. *)
Lemma part000_answers_once uid mode port o io :
  healthyPort o ->
  result (Part000.resolution uid mode port o io) = Ok tt
  /\ exists message,
      linesWritten port (effects (Part000.resolution uid mode port o io)) = [message]
      /\ writeAttempts (effects (Part000.resolution uid mode port o io))
         = [(port, message)].
Proof.
  intros Hp. destruct (resolution_run uid mode port o io Hp) as [Hok Hrun].
  split; [exact Hok|].
  destruct (result (Part000.fetchResidentDataWithRetry uid defaultRetries o io))
    as [residentData|e].
  - destruct Hrun as (Hl & Hw & _). eexists. split; eassumption.
  - destruct Hrun as (Hl & Hw & _). eexists. split; eassumption.
Qed.

(** The retry budget of part_000: with [retries = N], a success on any of
    the first [N + 1] attempts is returned at once, and [N + 1] failures in
    a row surface the error after exactly [N + 1] requests. *)
Lemma part000_retry_budget uid retries o io :
  (forall k, (k <= retries)%nat ->
     (forall j, (j < k)%nat -> dbFault o (dbOps io + j) <> None) ->
     dbFault o (dbOps io + k) = None ->
     let r := Part000.fetchResidentDataWithRetry uid retries o io in
     result r = Ok (store io !! ("residents", uid))
     /\ List.length (storeReads (effects r)) = S k)
  /\ ((forall j, (j <= retries)%nat -> dbFault o (dbOps io + j) <> None) ->
      let r := Part000.fetchResidentDataWithRetry uid retries o io in
      (exists e, result r = Thrown ("Failed to fetch data for UID " ++ uid ++ ": " ++ e))
      /\ List.length (storeReads (effects r)) = S retries).
Proof.
  unfold Part000.fetchResidentDataWithRetry. split.
  - intros k Hk Hfail Hok.
    destruct (tryFetching_recovers uid retries retries 0 k o io) as (Hr & Ht & _);
      try assumption; try lia.
    cbn zeta. split; [exact Hr|]. rewrite Ht.
    clear. induction k as [|k IH]; [reflexivity|]. cbn. f_equal. exact IH.
  - intros Hfail.
    destruct (tryFetching_exhausted uid retries retries 0 o io) as (e & _ & Hr & Ht & _);
      try lia.
    { intros j Hj. apply Hfail. lia. }
    cbn zeta. split; [exists e; exact Hr|]. rewrite Ht, Nat.sub_0_r.
    clear. generalize (S retries). intros n.
    induction n as [|n IH]; [reflexivity|]. cbn. f_equal. exact IH.
Qed.

Lemma length_replicate_reads n uid ok :
  List.length (storeReads (replicate n (EGet "residents" uid ok))) = n.
Proof. induction n as [|n IH]; [reflexivity|]. cbn. f_equal. exact IH. Qed.

(** The retry budget of part_001: with [retries = N >= 1], a success on any
    of the first [N] attempts is returned at once, and [N] failures in a row
    surface the store's error, the one of the [N]th request, after exactly
    [N] requests. *)
Theorem part001_retry_budget (uid : string) (retries : nat) (o : Oracle) (io : IO) :
  (0 < retries)%nat ->
  (forall k, (k < retries)%nat ->
     (forall j, (j < k)%nat -> dbFault o (dbOps io + j) <> None) ->
     dbFault o (dbOps io + k) = None ->
     let r := Part001.fetchResidentDataWithRetry uid retries o io in
     result r = Ok (store io !! ("residents", uid))
     /\ List.length (storeReads (effects r)) = S k)
  /\ ((forall j, (j < retries)%nat -> dbFault o (dbOps io + j) <> None) ->
      let r := Part001.fetchResidentDataWithRetry uid retries o io in
      (exists e, dbFault o (dbOps io + (retries - 1)) = Some e /\ result r = Thrown e)
      /\ List.length (storeReads (effects r)) = retries).
Proof.
  intros Hpos. unfold Part001.fetchResidentDataWithRetry. split.
  - intros k Hk Hfail Hok.
    destruct (fetchLoop_recovers uid retries retries 0 k o io) as (Hr & Ht);
      try assumption; try lia.
    cbn zeta. split; [exact Hr|]. rewrite Ht, storeReads_app, length_app.
    rewrite length_replicate_reads. cbn. lia.
  - intros Hfail.
    destruct (fetchLoop_exhausted uid retries retries 0 o io) as (e & He & Hr & Ht);
      try lia.
    { intros j Hj. apply Hfail. lia. }
    cbn zeta. rewrite Nat.sub_0_r in He. split; [exists e; split; [exact He | exact Hr]|].
    rewrite Ht, Nat.sub_0_r. apply length_replicate_reads.
Qed.

Lemma part001_retry_budget_witness :
  (0 < defaultRetries)%nat
  /\ exists e,
      result (Part001.fetchResidentDataWithRetry "1A2B3C4D" defaultRetries
                downOracle world0) = Thrown e.
Proof.
  assert (Hpos : (0 < defaultRetries)%nat) by (unfold defaultRetries; lia).
  split; [exact Hpos|].
  destruct (part001_retry_budget "1A2B3C4D" defaultRetries downOracle world0 Hpos)
    as [_ Hdown].
  destruct Hdown as [(e & _ & He) _]; [intros j _; discriminate | exists e; exact He].
Defined.

(** Between the callbacks of a reader its queue is empty, in either
    variant: a UID that is enqueued is dequeued by the same callback, so the
    already-in-queue test of the guard never fires. *)
Theorem queue_empty_between_events (v : Variant) (mode : string) (port : Port)
    (o : Oracle) (evs : list Event) (s : Reader) :
  queue (channel s) = [] ->
  queue (channel (run (handleReaderDataOf v) mode port o s evs)) = [].
Proof.
  revert s. induction evs as [|ev evs IH]; intros s Hq; [exact Hq|].
  cbn. apply IH.
  apply (step_queue_empty (handleReaderDataOf v) (resolutionOf v) (cooldownTimeOf v)
           (gateBehaviourOf v)). exact Hq.
Qed.

Lemma queue_empty_between_events_witness :
  queue (channel (bootReader world0)) = []
  /\ queue (channel (run (handleReaderDataOf part_000) "Walk-in" portWalkIn okOracle
                       (bootReader world0)
                       [Scan "1A2B3C4D"; Scan "0BADF00D"; Tick 10; Settle 0]))
     = [].
Proof.
  assert (Hq : queue (channel (bootReader world0)) = []) by reflexivity.
  split; [exact Hq|].
  exact (queue_empty_between_events part_000 "Walk-in" portWalkIn okOracle
           [Scan "1A2B3C4D"; Scan "0BADF00D"; Tick 10; Settle 0] (bootReader world0) Hq).
Defined.

Lemma part000_follows_decision_table_witness :
  healthyPort okOracle
  /\ tableDecision (result (Part000.fetchResidentDataWithRetry "1A2B3C4D" defaultRetries
                              okOracle worldNoField))
     = Some DeniedNoAssignedField
  /\ linesWritten portWalkOut
       (effects (Part000.resolution "1A2B3C4D" "Walk-out" portWalkOut okOracle worldNoField))
     = [responseText DeniedNoAssignedField ++ nl].
Proof.
  assert (Hp : healthyPort okOracle) by (intros k; reflexivity).
  assert (Hd : tableDecision
                 (result (Part000.fetchResidentDataWithRetry "1A2B3C4D" defaultRetries
                            okOracle worldNoField))
               = Some DeniedNoAssignedField) by (vm_compute; reflexivity).
  split; [exact Hp|]. split; [exact Hd|].
  exact (part000_follows_decision_table "1A2B3C4D" "Walk-out" portWalkOut okOracle
           worldNoField DeniedNoAssignedField Hp Hd).
Defined.

Lemma part000_answers_once_witness :
  healthyPort (glitchOracle 1)
  /\ exists message,
      linesWritten portVehicleEntry
        (effects (Part000.resolution "1A2B3C4D" "Vehicle Entry" portVehicleEntry
                    (glitchOracle 1) worldAssigned))
      = [message].
Proof.
  assert (Hp : healthyPort (glitchOracle 1)) by (intros k; reflexivity).
  split; [exact Hp|].
  destruct (part000_answers_once "1A2B3C4D" "Vehicle Entry" portVehicleEntry
              (glitchOracle 1) worldAssigned Hp) as (_ & message & Hl & _).
  exists message. exact Hl.
Defined.

(** ** The retry budget of the port writers *)

Section PortWriters.

#[local] Arguments Nat.ltb : simpl never.

(** One attempt of [tryWriting], by the port's verdict on it. *)
Lemma tryWriting_eq port message retries attempt gas o io :
  Part000.tryWriting port message retries attempt gas o io
  = let io1 := mkIO (store io) (clock io) (dbOps io) (S (portOps io)) in
    match portFault o (portOps io) with
    | None =>
        mkRun (Ok tt) io1
          [EWrite port message true;
           ELog "SUCCESS" ("Message sent to Arduino: " ++ trim message)]
    | Some e =>
        if (attempt <? retries)%nat then
          let r' := match gas with
                    | S gas' => Part000.tryWriting port message retries (S attempt) gas'
                    | O => ret tt
                    end o io1 in
          mkRun (result r') (world r')
            (EWrite port message false
             :: ELog "ERROR" ("Error writing to serial port (attempt "
                              ++ pretty (attempt + 1)%nat ++ "): " ++ e)
             :: effects r')
        else
          mkRun (Ok tt) io1
            [EWrite port message false;
             ELog "ERROR" ("Failed to send message after " ++ pretty retries
                           ++ " attempts: " ++ e)]
    end.
Proof.
  destruct gas; cbn [Part000.tryWriting]; unfold bind at 1, portWrite;
    cbn [result world effects];
    destruct (portFault o (portOps io)) as [e|]; cbn zeta;
    rewrite ?bool_decide_eq_true_2 by reflexivity;
    rewrite ?bool_decide_eq_false_2 by discriminate;
    try reflexivity;
    destruct (attempt <? retries)%nat; try reflexivity;
    unfold bind, logLine, emit, ret; cbn;
    try reflexivity;
    match goal with
    | |- context [match ?x with mkRun _ _ _ => _ end] => destruct x as [[]]; reflexivity
    end.
Qed.

Lemma tryWriting_recovers port message retries gas : forall attempt k o io,
  gas = (retries - attempt)%nat ->
  (k <= retries - attempt)%nat ->
  (forall j, (j < k)%nat -> portFault o (portOps io + j) <> None) ->
  portFault o (portOps io + k) = None ->
  let r := Part000.tryWriting port message retries attempt gas o io in
  result r = Ok tt
  /\ writeAttempts (effects r) = replicate (S k) (port, message)
  /\ linesWritten port (effects r) = [message]
  /\ last (effects r) = Some (ELog "SUCCESS" ("Message sent to Arduino: " ++ trim message))
  /\ portOps (world r) = (portOps io + S k)%nat.
Proof.
  induction gas as [|gas IH]; intros attempt k o io Hgas Hk Hfail Hok; cbn zeta;
    rewrite tryWriting_eq; cbn zeta.
  - assert (k = 0)%nat as -> by lia. rewrite Nat.add_0_r in Hok. rewrite Hok.
    cbn. rewrite decide_True by reflexivity. repeat split. lia.
  - destruct k as [|k].
    + rewrite Nat.add_0_r in Hok. rewrite Hok. cbn.
      rewrite decide_True by reflexivity. repeat split. lia.
    + pose proof (Hfail 0%nat ltac:(lia)) as H0. rewrite Nat.add_0_r in H0.
      destruct (portFault o (portOps io)) as [e|] eqn:E; try congruence.
      assert ((attempt <? retries)%nat = true) as -> by (apply Nat.ltb_lt; lia).
      destruct (IH (S attempt) k o (mkIO (store io) (clock io) (dbOps io) (S (portOps io))))
        as (Hr & Ha & Hl & Hlast & Hn).
      * lia.
      * lia.
      * intros j Hj. cbn. replace (S (portOps io + j)) with (portOps io + S j)%nat by lia.
        apply Hfail. lia.
      * cbn. replace (S (portOps io + k)) with (portOps io + S k)%nat by lia. exact Hok.
      * cbn in Hn. cbn [result world effects].
        unfold writeAttempts, linesWritten in *. repeat split.
        -- exact Hr.
        -- cbn. rewrite Ha. reflexivity.
        -- cbn. exact Hl.
        -- cbn [last]. 
           destruct (effects (Part000.tryWriting port message retries (S attempt) gas o _))
             as [|x t] eqn:Et; [discriminate Hlast|]. 
           rewrite <- Hlast. reflexivity.
        -- rewrite Hn. lia.
Qed.

Lemma tryWriting_exhausted port message retries gas : forall attempt o io,
  gas = (retries - attempt)%nat ->
  (forall j, (j <= retries - attempt)%nat -> portFault o (portOps io + j) <> None) ->
  let r := Part000.tryWriting port message retries attempt gas o io in
  result r = Ok tt
  /\ writeAttempts (effects r) = replicate (S (retries - attempt)) (port, message)
  /\ linesWritten port (effects r) = []
  /\ (exists e, portFault o (portOps io + (retries - attempt)) = Some e
        /\ last (effects r)
           = Some (ELog "ERROR" ("Failed to send message after " ++ pretty retries
                                 ++ " attempts: " ++ e)))
  /\ portOps (world r) = (portOps io + S (retries - attempt))%nat.
Proof.
  induction gas as [|gas IH]; intros attempt o io Hgas Hfail; cbn zeta;
    rewrite tryWriting_eq; cbn zeta;
    pose proof (Hfail 0%nat ltac:(lia)) as H0; rewrite Nat.add_0_r in H0;
    destruct (portFault o (portOps io)) as [e|] eqn:E; try congruence; clear H0.
  - assert ((attempt <? retries)%nat = false) as -> by (apply Nat.ltb_ge; lia).
    replace (retries - attempt)%nat with 0%nat by lia.
    rewrite Nat.add_0_r. cbn. repeat split; [|lia]. exists e. split; [assumption | reflexivity].
  - assert ((attempt <? retries)%nat = true) as -> by (apply Nat.ltb_lt; lia).
    destruct (IH (S attempt) o (mkIO (store io) (clock io) (dbOps io) (S (portOps io))))
      as (Hr & Ha & Hl & (e' & He' & Hlast) & Hn).
    + lia.
    + intros j Hj. cbn. replace (S (portOps io + j)) with (portOps io + S j)%nat by lia.
      apply Hfail. lia.
    + cbn in He', Hn. cbn [result world effects].
      replace (retries - attempt)%nat with (S (retries - S attempt)) by lia.
      unfold writeAttempts, linesWritten in *. repeat split.
      * exact Hr.
      * cbn. rewrite Ha. reflexivity.
      * cbn. exact Hl.
      * exists e'. split.
        -- rewrite <- He'. f_equal. lia.
        -- cbn [last].
           destruct (effects (Part000.tryWriting port message retries (S attempt) gas o _))
             as [|x t] eqn:Et; [discriminate Hlast|].
           rewrite <- Hlast. reflexivity.
      * rewrite Hn. lia.
Qed.

End PortWriters.

Section PortWriters001.

#[local] Arguments Nat.ltb : simpl never.

(** One turn of the [while] loop of part_001's [writeToSerialPort]. *)
Lemma writeLoop_eq port message retries attempt gas o io :
  Part001.writeLoop port message retries attempt gas o io
  = if (attempt <? retries)%nat then
      let io1 := mkIO (store io) (clock io) (dbOps io) (S (portOps io)) in
      match portFault o (portOps io) with
      | None => mkRun (Ok tt) io1 [EWrite port message true]
      | Some _ =>
          let r' := match gas with
                    | S gas' => Part001.writeLoop port message retries (S attempt) gas'
                    | O => ret tt
                    end o io1 in
          mkRun (result r') (world r') (EWrite port message false :: effects r')
      end
    else mkRun (Ok tt) io [].
Proof.
  destruct gas; cbn [Part001.writeLoop]; destruct (attempt <? retries)%nat;
    try reflexivity; unfold bind at 1, portWrite; cbn [result world effects];
    destruct (portFault o (portOps io)) as [e|]; cbn zeta;
    rewrite ?bool_decide_eq_true_2 by reflexivity;
    rewrite ?bool_decide_eq_false_2 by discriminate;
    try reflexivity;
    match goal with
    | |- context [match ?x with mkRun _ _ _ => _ end] => destruct x as [[]]; reflexivity
    end.
Qed.

(** Whatever the port does, part_001's writer returns normally, touches
    neither the store nor the clock, tries nothing but [message] on [port]
    and logs nothing; at most one copy gets through. *)
Lemma writeLoop_total port message retries gas : forall attempt o io,
  let r := Part001.writeLoop port message retries attempt gas o io in
  result r = Ok tt
  /\ store (world r) = store io /\ clock (world r) = clock io
  /\ dbOps (world r) = dbOps io
  /\ (exists oks, effects r = EWrite port message <$> oks)
  /\ (List.length (linesWritten port (effects r)) <= 1)%nat.
Proof.
  induction gas as [|gas IH]; intros attempt o io; cbn zeta; rewrite writeLoop_eq;
    (destruct (attempt <? retries)%nat;
     [|repeat apply conj; try reflexivity; [exists []; reflexivity | cbn; lia]]);
    cbn zeta; (destruct (portFault o (portOps io)) as [e|]; cbn [result world effects];
    [|cbn; rewrite decide_True by reflexivity;
      repeat apply conj; try reflexivity; exists [true]; reflexivity]).
  - cbn. repeat apply conj; try reflexivity; [exists [false]; reflexivity | lia].
  - destruct (IH (S attempt) o (mkIO (store io) (clock io) (dbOps io) (S (portOps io))))
      as (Hr & Hs & Hc & Hd & (oks & Ho) & Hl).
    cbn in Hs, Hc, Hd. repeat apply conj; try assumption.
    exists (false :: oks). rewrite Ho. reflexivity.
Qed.

Lemma writeLoop_recovers port message retries gas : forall attempt k o io,
  gas = (retries - attempt)%nat ->
  (k < retries - attempt)%nat ->
  (forall j, (j < k)%nat -> portFault o (portOps io + j) <> None) ->
  portFault o (portOps io + k) = None ->
  let r := Part001.writeLoop port message retries attempt gas o io in
  effects r = (replicate k (EWrite port message false) ++ [EWrite port message true])%list.
Proof.
  induction gas as [|gas IH]; intros attempt k o io Hgas Hk Hfail Hok; [lia|].
  cbn zeta. rewrite writeLoop_eq.
  assert ((attempt <? retries)%nat = true) as -> by (apply Nat.ltb_lt; lia).
  cbn zeta. destruct k as [|k].
  - rewrite Nat.add_0_r in Hok. rewrite Hok. reflexivity.
  - pose proof (Hfail 0%nat ltac:(lia)) as H0. rewrite Nat.add_0_r in H0.
    destruct (portFault o (portOps io)) as [e|] eqn:E; [clear H0|congruence].
    cbn [effects]. rewrite (IH (S attempt) k); [reflexivity | lia | lia | |].
    + intros j Hj. cbn. replace (S (portOps io + j)) with (portOps io + S j)%nat by lia.
      apply Hfail. lia.
    + cbn. replace (S (portOps io + k)) with (portOps io + S k)%nat by lia. exact Hok.
Qed.

Lemma writeLoop_exhausted port message retries gas : forall attempt o io,
  gas = (retries - attempt)%nat ->
  (forall j, (j < retries - attempt)%nat -> portFault o (portOps io + j) <> None) ->
  let r := Part001.writeLoop port message retries attempt gas o io in
  effects r = replicate (retries - attempt) (EWrite port message false).
Proof.
  induction gas as [|gas IH]; intros attempt o io Hgas Hfail; cbn zeta;
    rewrite writeLoop_eq.
  - assert ((attempt <? retries)%nat = false) as -> by (apply Nat.ltb_ge; lia).
    rewrite <- Hgas. reflexivity.
  - assert ((attempt <? retries)%nat = true) as -> by (apply Nat.ltb_lt; lia).
    cbn zeta. pose proof (Hfail 0%nat ltac:(lia)) as H0. rewrite Nat.add_0_r in H0.
    destruct (portFault o (portOps io)) as [e|] eqn:E; [clear H0|congruence].
    cbn [effects]. rewrite IH; [| lia |].
    + replace (retries - attempt)%nat with (S (retries - S attempt)) by lia. reflexivity.
    + intros j Hj. cbn. replace (S (portOps io + j)) with (portOps io + S j)%nat by lia.
      apply Hfail. lia.
Qed.

Lemma writeAttempts_replicate n port message ok :
  writeAttempts (replicate n (EWrite port message ok)) = replicate n (port, message).
Proof. induction n as [|n IH]; [reflexivity|]. cbn. f_equal. exact IH. Qed.

Lemma linesWritten_replicate_failed n port message :
  linesWritten port (replicate n (EWrite port message false)) = [].
Proof. induction n as [|n IH]; [reflexivity|]. exact IH. Qed.

End PortWriters001.

(** The retry budget of [writeToSerialPort] in part_000.  The writer never
    throws.  With [retries = N] it tries the port up to [N + 1] times and
    stops at the first write that gets through: after [k <= N] failures and
    a success it has tried [k + 1] times and delivered the message once.
    After [N + 1] failures in a row it gives up with nothing delivered, and
    its last log line reports the failure "after N attempts". *)
Theorem part000_write_budget (port : Port) (message : string) (retries : nat)
    (o : Oracle) (io : IO) :
  let r := Part000.writeToSerialPort port message retries o io in
  result r = Ok tt
  /\ (forall k, (k <= retries)%nat ->
        (forall j, (j < k)%nat -> portFault o (portOps io + j) <> None) ->
        portFault o (portOps io + k) = None ->
        writeAttempts (effects r) = replicate (S k) (port, message)
        /\ linesWritten port (effects r) = [message])
  /\ ((forall j, (j <= retries)%nat -> portFault o (portOps io + j) <> None) ->
      writeAttempts (effects r) = replicate (S retries) (port, message)
      /\ linesWritten port (effects r) = []
      /\ exists e,
          last (effects r)
          = Some (ELog "ERROR" ("Failed to send message after " ++ pretty retries
                                ++ " attempts: " ++ e))).
Proof.
  cbn zeta. unfold Part000.writeToSerialPort. split; [apply tryWriting_total|]. split.
  - intros k Hk Hfail Hok.
    destruct (tryWriting_recovers port message retries retries 0 k o io)
      as (_ & Ha & Hl & _); try assumption; try lia.
    split; assumption.
  - intros Hfail.
    destruct (tryWriting_exhausted port message retries retries 0 o io)
      as (_ & Ha & Hl & (e & _ & Hlast) & _); try lia.
    { intros j Hj. apply Hfail. lia. }
    rewrite Nat.sub_0_r in Ha. repeat split; try assumption. exists e. exact Hlast.
Qed.

(** The retry budget of [writeToSerialPort] in part_001.  The writer never
    throws and logs nothing.  With [retries = N] it tries the port at most
    [N] times: after [k < N] failures and a success it has tried [k + 1]
    times and delivered the message once; after [N] failures in a row it
    returns normally with nothing delivered and no trace of the failure. *)
Theorem part001_write_budget (port : Port) (message : string) (retries : nat)
    (o : Oracle) (io : IO) :
  let r := Part001.writeToSerialPort port message retries o io in
  result r = Ok tt
  /\ (forall k, (k < retries)%nat ->
        (forall j, (j < k)%nat -> portFault o (portOps io + j) <> None) ->
        portFault o (portOps io + k) = None ->
        effects r = (replicate k (EWrite port message false)
                     ++ [EWrite port message true])%list
        /\ linesWritten port (effects r) = [message])
  /\ ((forall j, (j < retries)%nat -> portFault o (portOps io + j) <> None) ->
      effects r = replicate retries (EWrite port message false)
      /\ linesWritten port (effects r) = []).
Proof.
  cbn zeta. unfold Part001.writeToSerialPort. split; [apply writeLoop_total|]. split.
  - intros k Hk Hfail Hok.
    rewrite (writeLoop_recovers port message retries retries 0 k o io)
      by (assumption || lia).
    split; [reflexivity|].
    rewrite linesWritten_app, linesWritten_replicate_failed. cbn.
    rewrite decide_True by reflexivity. reflexivity.
  - intros Hfail.
    rewrite (writeLoop_exhausted port message retries retries 0 o io); try lia.
    + rewrite Nat.sub_0_r. split; [reflexivity | apply linesWritten_replicate_failed].
    + intros j Hj. apply Hfail. lia.
Qed.

(** ** Footprints of the handlers *)

Lemma neverThrows_ret {A} (a : A) : neverThrows (ret a).
Proof. intros o io. exists a. reflexivity. Qed.

Lemma neverThrows_bind {A B} (m : Js A) (k : A -> Js B) :
  neverThrows m -> (forall a, neverThrows (k a)) -> neverThrows (bind m k).
Proof.
  intros Hm Hk o io. destruct (Hm o io) as [a Ha].
  rewrite (bind_run m k o io a Ha). cbn [result]. apply Hk.
Qed.

Lemma neverThrows_tryCatch {A} (m : Js A) h :
  (forall e, neverThrows (h e)) -> neverThrows (tryCatch m h).
Proof.
  intros Hh o io. destruct (result (m o io)) as [a|e] eqn:E.
  - rewrite (tryCatch_ok m h o io a E). exists a. exact E.
  - rewrite (tryCatch_thrown m h o io e E). cbn [result]. apply Hh.
Qed.

Lemma neverThrows_logLine level message : neverThrows (logLine level message).
Proof. intros o io. exists tt. reflexivity. Qed.

Lemma neverThrows_write000 port message retries :
  neverThrows (Part000.writeToSerialPort port message retries).
Proof. intros o io. exists tt. apply writeToSerialPort_total. Qed.

Lemma neverThrows_write001 port message retries :
  neverThrows (Part001.writeToSerialPort port message retries).
Proof. intros o io. exists tt. apply writeLoop_total. Qed.

Lemma detached_ok (m : Js unit) o io :
  (exists a, result (m o io) = Ok a) -> detached m o io = m o io.
Proof. intros [a Ha]. unfold detached. apply (tryCatch_ok _ _ _ _ a Ha). Qed.

Ltac in_list := apply list_elem_of_In; cbn; tauto.

Lemma Variant_cases (v : Variant) : v = part_000 \/ v = part_001.
Proof. destruct v; [left | right]; reflexivity. Qed.

Section Keeps.

Variable I : Oracle -> IO -> IO -> list Effect -> Prop.
Hypothesis I_refl : forall o io, I o io io [].
Hypothesis I_trans : forall o io io' io'' t t',
  I o io io' t -> I o io' io'' t' -> I o io io'' (t ++ t').

(** What the primitives are allowed to do. *)
Variable okWrite : Port -> string -> Prop.
Variable okGet : string -> string -> Prop.
Variable okSet : string -> string -> Doc -> Prop.
Variable okUnhandled : Prop.
Hypothesis I_log : forall level message, keeps I (logLine level message).
Hypothesis I_unhandled : okUnhandled -> forall e, keeps I (emit (EUnhandled e)).
Hypothesis I_write : forall p m, okWrite p m -> keeps I (portWrite p m).
Hypothesis I_get : forall c k, okGet c k -> keeps I (docGet c k).
Hypothesis I_set : forall c k d, okSet c k d -> keeps I (docSet c k d).

Lemma keeps_ret {A} (a : A) : keeps I (ret a).
Proof. intros o io. apply I_refl. Qed.

Lemma keeps_throw {A} e : keeps I (@throw A e).
Proof. intros o io. apply I_refl. Qed.

Lemma keeps_dateNow : keeps I dateNow.
Proof. intros o io. apply I_refl. Qed.

Lemma keeps_newDate : keeps I newDate.
Proof. intros o io. apply I_refl. Qed.

Lemma keeps_bind {A B} (m : Js A) (k : A -> Js B) :
  keeps I m -> (forall a, keeps I (k a)) -> keeps I (bind m k).
Proof.
  intros Hm Hk o io. specialize (Hm o io).
  destruct (result (m o io)) as [a|e] eqn:E.
  - rewrite (bind_run m k o io a E). cbn [world effects].
    eapply I_trans; [exact Hm | apply Hk].
  - rewrite (bind_thrown m k o io e E). exact Hm.
Qed.

Lemma keeps_tryCatch {A} (m : Js A) h :
  keeps I m -> (forall e, keeps I (h e)) -> keeps I (tryCatch m h).
Proof.
  intros Hm Hh o io. specialize (Hm o io).
  destruct (result (m o io)) as [a|e] eqn:E.
  - rewrite (tryCatch_ok m h o io a E). exact Hm.
  - rewrite (tryCatch_thrown m h o io e E). cbn [world effects].
    eapply I_trans; [exact Hm | apply Hh].
Qed.

Lemma keeps_detached (m : Js unit) :
  okUnhandled \/ neverThrows m -> keeps I m -> keeps I (detached m).
Proof.
  intros [Hu|Ht] Hm.
  - apply keeps_tryCatch; [exact Hm | intros e; apply I_unhandled; exact Hu].
  - intros o io. rewrite (detached_ok m o io (Ht o io)). apply Hm.
Qed.

Ltac keeps_tac :=
  repeat match goal with
    | |- keeps _ (ret _) => apply keeps_ret
    | |- keeps _ (throw _) => apply keeps_throw
    | |- keeps _ dateNow => apply keeps_dateNow
    | |- keeps _ newDate => apply keeps_newDate
    | |- keeps _ (logLine _ _) => apply I_log
    | |- keeps _ (bind _ _) => apply keeps_bind; [|intros ?]
    | |- keeps _ (tryCatch _ _) => apply keeps_tryCatch; [|intros ?]
    | |- keeps _ (if ?b then _ else _) => destruct b
    | |- keeps _ (match ?x with Some _ => _ | None => _ end) => destruct x
    | |- keeps _ ((fun _ => _) _) => cbn beta
    end.

Lemma keeps_tryWriting port message retries gas :
  okWrite port message ->
  forall attempt, keeps I (Part000.tryWriting port message retries attempt gas).
Proof.
  intros Hw. induction gas as [|gas IH]; intros attempt; cbn [Part000.tryWriting];
    (apply keeps_bind; [apply I_write; exact Hw|]); intros [e|]; keeps_tac.
  apply IH.
Qed.

Lemma keeps_write000 port message retries :
  okWrite port message -> keeps I (Part000.writeToSerialPort port message retries).
Proof. intros Hw. apply keeps_tryWriting. exact Hw. Qed.

Lemma keeps_writeLoop port message retries gas :
  okWrite port message ->
  forall attempt, keeps I (Part001.writeLoop port message retries attempt gas).
Proof.
  intros Hw. induction gas as [|gas IH]; intros attempt; cbn [Part001.writeLoop];
    (destruct (attempt <? retries)%nat; [|apply keeps_ret]);
    (apply keeps_bind; [apply I_write; exact Hw|]); intros [e|]; keeps_tac.
  apply IH.
Qed.

Lemma keeps_write001 port message retries :
  okWrite port message -> keeps I (Part001.writeToSerialPort port message retries).
Proof. intros Hw. apply keeps_writeLoop. exact Hw. Qed.

Lemma keeps_tryFetching uid retries gas :
  okGet "residents" uid ->
  forall attempt, keeps I (Part000.tryFetching uid retries attempt gas).
Proof.
  intros Hg. induction gas as [|gas IH]; intros attempt; cbn [Part000.tryFetching];
    (apply keeps_tryCatch; [apply I_get; exact Hg|]); intros e; keeps_tac.
  apply IH.
Qed.

Lemma keeps_fetchLoop uid retries gas :
  okGet "residents" uid ->
  forall attempt, keeps I (Part001.fetchLoop uid retries attempt gas).
Proof.
  intros Hg. induction gas as [|gas IH]; intros attempt; cbn [Part001.fetchLoop];
    (destruct (attempt <? retries)%nat; [|apply keeps_ret]);
    (apply keeps_tryCatch; [apply I_get; exact Hg|]); intros e; keeps_tac.
  apply IH.
Qed.

Section Access.

Variable v : Variant.
Variables (uid mode : string) (port : Port).
Hypothesis unhandled_ok : v = part_000 -> okUnhandled.
Hypothesis write_ok : forall message, message ∈ accessResponses -> okWrite port message.
Hypothesis get_ok : okGet "residents" uid.
Hypothesis set_ok : forall coll key data, coll ∈ auditCollections v -> okSet coll key data.

Lemma logCollectionOf_audit : logCollectionOf mode ∈ auditCollections v.
Proof.
  unfold logCollectionOf, auditCollections.
  destruct (includesStr mode "Entry"); in_list.
Qed.

Lemma keeps_logToFirebase000 status message :
  v = part_000 -> keeps I (Part000.logToFirebase uid status mode message).
Proof.
  intros Hv. pose proof logCollectionOf_audit as Hc. unfold Part000.logToFirebase.
  keeps_tac; try (apply I_set, set_ok; rewrite Hv; in_list);
    (apply keeps_detached; [left; auto|]); apply I_set, set_ok;
    first [exact Hc | rewrite Hv; in_list].
Qed.

Lemma keeps_resolution : keeps I (resolutionOf v uid mode port).
Proof.
  assert (Hw000 : forall m, m ∈ accessResponses ->
                            keeps I (Part000.writeToSerialPort port m defaultRetries))
    by (intros m Hm; apply keeps_write000, write_ok, Hm).
  assert (Hw001 : forall m, m ∈ accessResponses ->
                            keeps I (Part001.writeToSerialPort port m defaultRetries))
    by (intros m Hm; apply keeps_write001, write_ok, Hm).
  pose proof logCollectionOf_audit as Hc.
  destruct (Variant_cases v) as [Hv|Hv]; rewrite Hv; cbn [resolutionOf].
  - unfold Part000.resolution, Part000.onResidentData.
    apply keeps_tryCatch; [|intros e; keeps_tac; apply Hw000; in_list].
    apply keeps_bind; [apply keeps_tryFetching, get_ok|]. intros residentData.
    keeps_tac; first [apply Hw000; in_list | apply keeps_logToFirebase000; exact Hv].
  - unfold Part001.resolution, Part001.afterFetch, Part001.logToFirebase,
      Part001.logDeniedUID.
    apply keeps_tryCatch; [|intros e; keeps_tac; apply Hw001; in_list].
    apply keeps_bind; [apply keeps_fetchLoop, get_ok|]. intros residentData.
    keeps_tac;
      first [apply Hw001; in_list
            | apply I_set, set_ok; first [exact Hc | rewrite Hv; in_list]].
Qed.

End Access.

Section Enrollment.

Variable v : Variant.
Variable data : string.
Hypothesis write_ok : forall message, message ∈ assignResponses -> okWrite portAssign message.
Hypothesis get_ok : okGet "residents" (trim data).
Hypothesis set_ok : okSet "residents" (trim data) (object [("assigned", JBool false)]).

Lemma keeps_onAssignData : keeps I (onAssignDataOf v data).
Proof.
  assert (Hw000 : forall m, m ∈ assignResponses ->
                            keeps I (Part000.writeToSerialPort portAssign m defaultRetries))
    by (intros m Hm; apply keeps_write000, write_ok, Hm).
  assert (Hw001 : forall m, m ∈ assignResponses ->
                            keeps I (Part001.writeToSerialPort portAssign m defaultRetries))
    by (intros m Hm; apply keeps_write001, write_ok, Hm).
  destruct v; cbn [onAssignDataOf].
  - unfold Part000.onAssignData, Part000.isValidUID.
    keeps_tac; try (apply Hw000; in_list); try (apply I_get, get_ok).
    apply keeps_detached.
    + right. apply neverThrows_tryCatch. intros e.
      apply neverThrows_bind; [apply neverThrows_logLine|].
      intros _. apply neverThrows_write000.
    + keeps_tac; first [apply Hw000; in_list | apply I_set, set_ok].
  - unfold Part001.onAssignData, Part001.isValidUID.
    keeps_tac; first [apply Hw001; in_list | apply I_get, get_ok | apply I_set, set_ok].
Qed.

End Enrollment.

End Keeps.

(** *** The three footprints *)

Section TraceInv.

Variable P : Effect -> Prop.

Lemma traceInv_refl o io : traceInv P o io io [].
Proof. constructor. Qed.

Lemma traceInv_trans o io io' io'' t t' :
  traceInv P o io io' t -> traceInv P o io' io'' t' -> traceInv P o io io'' (t ++ t').
Proof. unfold traceInv. intros H1 H2. apply Forall_app. split; assumption. Qed.

Lemma traceInv_emit e : P e -> keeps (traceInv P) (emit e).
Proof. intros He o io. repeat constructor. exact He. Qed.

Lemma traceInv_write p m : (forall ok, P (EWrite p m ok)) -> keeps (traceInv P) (portWrite p m).
Proof. intros H o io. repeat constructor. apply H. Qed.

Lemma traceInv_get c k : (forall ok, P (EGet c k ok)) -> keeps (traceInv P) (docGet c k).
Proof.
  intros H o io. unfold docGet. destruct (dbFault o (dbOps io)); repeat constructor; apply H.
Qed.

Lemma traceInv_set c k d : (forall ok, P (ESet c k d ok)) -> keeps (traceInv P) (docSet c k d).
Proof.
  intros H o io. unfold docSet. destruct (dbFault o (dbOps io)); repeat constructor; apply H.
Qed.

End TraceInv.

Section FrameInv.

Variable touched : string * string -> Prop.

Lemma frameInv_refl o io : frameInv touched o io io [].
Proof. intros key _. reflexivity. Qed.

Lemma frameInv_trans o io io' io'' t t' :
  frameInv touched o io io' t -> frameInv touched o io' io'' t' ->
  frameInv touched o io io'' (t ++ t').
Proof. intros H1 H2 key Hk. rewrite (H2 key Hk). apply H1, Hk. Qed.

Lemma frameInv_emit e : keeps (frameInv touched) (emit e).
Proof. intros o io key _. reflexivity. Qed.

Lemma frameInv_write p m : keeps (frameInv touched) (portWrite p m).
Proof. intros o io key _. reflexivity. Qed.

Lemma frameInv_get c k : keeps (frameInv touched) (docGet c k).
Proof. intros o io key _. unfold docGet. destruct (dbFault o (dbOps io)); reflexivity. Qed.

Lemma frameInv_set c k d : touched (c, k) -> keeps (frameInv touched) (docSet c k d).
Proof.
  intros Ht o io key Hk. unfold docSet. destruct (dbFault o (dbOps io)); [reflexivity|].
  cbn. apply lookup_insert_ne. intros Heq. apply Hk. rewrite <- Heq. exact Ht.
Qed.

End FrameInv.

Lemma clockInv_refl o io : clockInv o io io [].
Proof. intros _. lia. Qed.

Lemma clockInv_trans o io io' io'' t t' :
  clockInv o io io' t -> clockInv o io' io'' t' -> clockInv o io io'' (t ++ t').
Proof. intros H1 H2 Hd. specialize (H1 Hd). specialize (H2 Hd). lia. Qed.

Lemma clockInv_emit e : keeps clockInv (emit e).
Proof. intros o io _. cbn. lia. Qed.

Lemma clockInv_write p m : keeps clockInv (portWrite p m).
Proof. intros o io _. cbn. lia. Qed.

Lemma clockInv_get c k : keeps clockInv (docGet c k).
Proof.
  intros o io Hd. specialize (Hd (dbOps io)). unfold docGet.
  destruct (dbFault o (dbOps io)); cbn; lia.
Qed.

Lemma clockInv_set c k d : keeps clockInv (docSet c k d).
Proof.
  intros o io Hd. specialize (Hd (dbOps io)). unfold docSet.
  destruct (dbFault o (dbOps io)); cbn; lia.
Qed.

(** Every effect of a resolution is within [accessFootprint]. *)
Lemma resolution_footprint v uid mode port o io :
  Forall (accessFootprint v uid port) (effects (resolutionOf v uid mode port o io)).
Proof.
  apply (keeps_resolution (traceInv (accessFootprint v uid port))
           (traceInv_refl _) (traceInv_trans _)
           (fun p m => p = port /\ m ∈ accessResponses)
           (fun c k => c = "residents" /\ k = uid)
           (fun c _ _ => c ∈ auditCollections v)
           (v = part_000)).
  - intros level message. apply traceInv_emit. exact I.
  - intros Hv e. apply traceInv_emit. exact Hv.
  - intros p m H. apply traceInv_write. intros ok. exact H.
  - intros c k H. apply traceInv_get. intros ok. exact H.
  - intros c k d H. apply traceInv_set. intros ok. exact H.
  - auto.
  - intros m Hm. split; [reflexivity | exact Hm].
  - split; reflexivity.
  - auto.
Qed.

(** A resolution changes no document outside the audit collections. *)
Lemma resolution_frame v uid mode port o io key :
  key.1 ∉ auditCollections v ->
  store (world (resolutionOf v uid mode port o io)) !! key = store io !! key.
Proof.
  intros Hk.
  apply (keeps_resolution (frameInv (fun key => key.1 ∈ auditCollections v))
           (frameInv_refl _) (frameInv_trans _)
           (fun _ _ => True) (fun _ _ => True)
           (fun c _ _ => c ∈ auditCollections v) True); auto.
  - intros level message. apply frameInv_emit.
  - intros _ e. apply frameInv_emit.
  - intros p m _. apply frameInv_write.
  - intros c k _. apply frameInv_get.
  - intros c k d H. apply frameInv_set. exact H.
Qed.

(** Time does not run backwards during a resolution. *)
Lemma resolution_clock v uid mode port o io :
  (forall k, 0 <= dbDelay o k) ->
  clock io <= clock (world (resolutionOf v uid mode port o io)).
Proof.
  apply (keeps_resolution clockInv clockInv_refl clockInv_trans
           (fun _ _ => True) (fun _ _ => True) (fun _ _ _ => True) True); auto.
  - intros level message. apply clockInv_emit.
  - intros _ e. apply clockInv_emit.
  - intros p m _. apply clockInv_write.
  - intros c k _. apply clockInv_get.
  - intros c k d _. apply clockInv_set.
Qed.

Lemma resolution_neverThrows v uid mode port : neverThrows (resolutionOf v uid mode port).
Proof.
  destruct v; cbn [resolutionOf]; unfold Part000.resolution, Part001.resolution;
    apply neverThrows_tryCatch; intros e;
    (apply neverThrows_bind; [apply neverThrows_logLine|]); intros _;
    [apply neverThrows_write000 | apply neverThrows_write001].
Qed.

(** Whatever the store and the port do, the promise chain of an admitted
    scan never rejects, in either variant, and every write it attempts on a
    port goes to the port of the reader that scanned the tag and carries
    one of the four response lines. *)
Theorem resolution_answers_own_reader (v : Variant) (uid mode : string) (port : Port)
    (o : Oracle) (io : IO) :
  let r := resolutionOf v uid mode port o io in
  result r = Ok tt
  /\ Forall (fun w => w.1 = port /\ w.2 ∈ accessResponses) (writeAttempts (effects r))
  /\ forall p, p <> port -> linesWritten p (effects r) = [].
Proof.
  cbn zeta. pose proof (resolution_footprint v uid mode port o io) as Hf.
  split; [|split].
  - destruct (resolution_neverThrows v uid mode port o io) as [[] H]. exact H.
  - induction Hf as [|e t He Ht IH]; [constructor|].
    destruct e; cbn; try exact IH. constructor; [exact He | exact IH].
  - intros p Hp. induction Hf as [|e t He Ht IH]; [reflexivity|].
    destruct e as [p' m [|]| | | |]; cbn; try exact IH.
    destruct He as [-> _]. rewrite decide_False by congruence. exact IH.
Qed.

(** Whatever the store and the port do, the resolution of a scan reads
    nothing but the record of the scanned tag, attempts store writes in the
    audit collections only, and leaves every document outside the audit
    collections as it was: no scan creates, changes or removes a resident
    record. *)
Theorem resolution_leaves_residents_alone (v : Variant) (uid mode : string) (port : Port)
    (o : Oracle) (io : IO) :
  let r := resolutionOf v uid mode port o io in
  Forall (eq ("residents", uid)) (storeReads (effects r))
  /\ Forall (fun w => w.1 ∈ auditCollections v) (storeWriteAttempts (effects r))
  /\ (forall coll key, coll ∉ auditCollections v ->
        store (world r) !! (coll, key) = store io !! (coll, key))
  /\ forall key, store (world r) !! ("residents", key) = store io !! ("residents", key).
Proof.
  cbn zeta. pose proof (resolution_footprint v uid mode port o io) as Hf.
  split; [|split; [|split]].
  - induction Hf as [|e t He Ht IH]; [constructor|].
    destruct e; cbn; try exact IH. destruct He as [-> ->]. constructor; [reflexivity | exact IH].
  - induction Hf as [|e t He Ht IH]; [constructor|].
    destruct e; cbn; try exact IH. constructor; [exact He | exact IH].
  - intros coll key Hc. apply resolution_frame. exact Hc.
  - intros key. apply resolution_frame. cbn. destruct v; intros Hin;
      repeat (apply elem_of_cons in Hin as [Hin|Hin]; [discriminate Hin|]); inversion Hin.
Qed.

(** Every effect of the enrollment handler is within [enrollFootprint]. *)
Lemma onAssignData_footprint v data o io :
  Forall (enrollFootprint (trim data)) (effects (onAssignDataOf v data o io)).
Proof.
  apply (keeps_onAssignData (traceInv (enrollFootprint (trim data)))
           (traceInv_refl _) (traceInv_trans _)
           (fun p m => p = portAssign /\ m ∈ assignResponses)
           (fun c k => c = "residents" /\ k = trim data)
           (fun c k d => c = "residents" /\ k = trim data
                         /\ d = object [("assigned", JBool false)])
           False).
  - intros level message. apply traceInv_emit. exact I.
  - intros [].
  - intros p m H. apply traceInv_write. intros ok. exact H.
  - intros c k H. apply traceInv_get. intros ok. exact H.
  - intros c k d H. apply traceInv_set. intros ok. exact H.
  - intros m Hm. split; [reflexivity | exact Hm].
  - split; reflexivity.
  - repeat split.
Qed.

(** The writers leave the store alone and return normally. *)
Ltac run_writers :=
  repeat match goal with
    | |- context [Part000.writeToSerialPort ?p ?m ?n ?o ?w] =>
        let H := fresh "H" in
        pose proof (writeToSerialPort_total p m n o w) as H; cbn zeta in H;
        let rw := fresh "rw" in let ww := fresh "ww" in let tw := fresh "tw" in
        destruct (Part000.writeToSerialPort p m n o w) as [rw ww tw];
        cbn [result world effects] in H;
        destruct H as (-> & _ & _ & H & _); cbn [store] in H
    | |- context [Part001.writeToSerialPort ?p ?m ?n ?o ?w] =>
        let H := fresh "H" in
        pose proof (writeLoop_total p m n n 0%nat o w) as H; cbn zeta in H;
        change (Part001.writeLoop p m n 0 n) with (Part001.writeToSerialPort p m n) in H;
        let rw := fresh "rw" in let ww := fresh "ww" in let tw := fresh "tw" in
        destruct (Part001.writeToSerialPort p m n o w) as [rw ww tw];
        cbn [result world effects] in H;
        destruct H as (-> & H & _); cbn [store] in H
    end.

(** Whatever line arrives at the enrollment reader and whatever the store
    and the port do, the handler returns normally, its effects stay within
    [enrollFootprint], and the store is either left as it was or gains the
    record [{assigned: false}] for a valid UID that had no record: an
    existing document is never changed. *)
Theorem enrollment_only_adds (v : Variant) (data : string) (o : Oracle) (io : IO) :
  let uid := trim data in
  let r := onAssignDataOf v data o io in
  result r = Ok tt
  /\ Forall (enrollFootprint uid) (effects r)
  /\ (store (world r) = store io
      \/ uidRegex_test uid = true
         /\ store io !! ("residents", uid) = None
         /\ store (world r)
            = <[("residents", uid) := object [("assigned", JBool false)]]> (store io)).
Proof.
  cbn zeta. split; [|split; [apply onAssignData_footprint|]];
    destruct v; cbn [onAssignDataOf];
    unfold Part000.onAssignData, Part001.onAssignData, Part001.isValidUID,
      Part000.isValidUID, detached, tryCatch, bind, docGet, docSet, logLine, emit, ret;
    js_cbn;
    (destruct (uidRegex_test (trim data)) eqn:Hv; js_cbn; [|auto]);
    (destruct (dbFault o (dbOps io)) as [e|] eqn:E; js_cbn;
     [|destruct (store io !! ("residents", trim data)) as [residentData|] eqn:Es; js_cbn;
       [destruct (strictEqBool (getField residentData "assigned") false) eqn:Ea
       |destruct (dbFault o (S (dbOps io))) as [e'|] eqn:E'; js_cbn]]);
    run_writers; js_cbn; auto.
Qed.

(** ** The audit trail under store failures *)

Ltac run_writers_quiet :=
  repeat match goal with
    | |- context [Part000.writeToSerialPort ?p ?m ?n ?o ?w] =>
        let H := fresh "H" in
        let Ha := fresh "Ha" in
        let Hr := fresh "Hr" in
        let Hs := fresh "Hs" in
        let Hc := fresh "Hc" in
        let Hd := fresh "Hd" in
        pose proof (writeToSerialPort_total p m n o w) as H; cbn zeta in H;
        let rw := fresh "rw" in let ww := fresh "ww" in let tw := fresh "tw" in
        destruct (Part000.writeToSerialPort p m n o w) as [rw ww tw];
        cbn [result world effects] in H;
        destruct H as (-> & Ha & Hr & Hs & Hc & Hd & _);
        cbn [store clock dbOps] in Hs, Hc, Hd
    | |- context [Part001.writeToSerialPort ?p ?m ?n ?o ?w] =>
        let H := fresh "H" in
        let Hs := fresh "Hs" in
        let Hc := fresh "Hc" in
        let Hd := fresh "Hd" in
        let Ht := fresh "Ht" in
        let oks := fresh "oks" in
        pose proof (writeLoop_total p m n n 0%nat o w) as H; cbn zeta in H;
        change (Part001.writeLoop p m n 0 n) with (Part001.writeToSerialPort p m n) in H;
        let rw := fresh "rw" in let ww := fresh "ww" in let tw := fresh "tw" in
        destruct (Part001.writeToSerialPort p m n o w) as [rw ww tw];
        cbn [result world effects] in H;
        destruct H as (-> & Hs & Hc & Hd & (oks & Ht) & _);
        cbn [store clock dbOps] in Hs, Hc, Hd
    end.

Lemma storeWriteAttempts_writes port message oks :
  storeWriteAttempts (EWrite port message <$> oks) = [].
Proof. induction oks as [|ok oks IH]; [reflexivity | exact IH]. Qed.

Lemma storeWrites_writes port message oks :
  storeWrites (EWrite port message <$> oks) = [].
Proof. induction oks as [|ok oks IH]; [reflexivity | exact IH]. Qed.

(** The store projections of a trace, one effect at a time. *)
Lemma storeWriteAttempts_nil : storeWriteAttempts [] = [].
Proof. reflexivity. Qed.
Lemma storeWriteAttempts_log l m t : storeWriteAttempts (ELog l m :: t) = storeWriteAttempts t.
Proof. reflexivity. Qed.
Lemma storeWriteAttempts_write p m ok t :
  storeWriteAttempts (EWrite p m ok :: t) = storeWriteAttempts t.
Proof. reflexivity. Qed.
Lemma storeWriteAttempts_get c k ok t :
  storeWriteAttempts (EGet c k ok :: t) = storeWriteAttempts t.
Proof. reflexivity. Qed.
Lemma storeWriteAttempts_unhandled e t :
  storeWriteAttempts (EUnhandled e :: t) = storeWriteAttempts t.
Proof. reflexivity. Qed.
Lemma storeWriteAttempts_set c k d ok t :
  storeWriteAttempts (ESet c k d ok :: t) = (c, k) :: storeWriteAttempts t.
Proof. reflexivity. Qed.
Lemma storeWrites_nil : storeWrites [] = [].
Proof. reflexivity. Qed.
Lemma storeWrites_log l m t : storeWrites (ELog l m :: t) = storeWrites t.
Proof. reflexivity. Qed.
Lemma storeWrites_write p m ok t : storeWrites (EWrite p m ok :: t) = storeWrites t.
Proof. reflexivity. Qed.
Lemma storeWrites_get c k ok t : storeWrites (EGet c k ok :: t) = storeWrites t.
Proof. reflexivity. Qed.
Lemma storeWrites_unhandled e t : storeWrites (EUnhandled e :: t) = storeWrites t.
Proof. reflexivity. Qed.
Lemma storeWrites_set_ok c k d t :
  storeWrites (ESet c k d true :: t) = (c, k) :: storeWrites t.
Proof. reflexivity. Qed.
Lemma storeWrites_set_failed c k d t : storeWrites (ESet c k d false :: t) = storeWrites t.
Proof. reflexivity. Qed.

Create Rewrite HintDb store_db.
#[global] Hint Rewrite storeWriteAttempts_app storeWrites_app
  storeWriteAttempts_nil storeWriteAttempts_log storeWriteAttempts_write
  storeWriteAttempts_get storeWriteAttempts_unhandled storeWriteAttempts_set
  storeWrites_nil storeWrites_log storeWrites_write storeWrites_get
  storeWrites_unhandled storeWrites_set_ok storeWrites_set_failed
  storeWriteAttempts_writes storeWrites_writes : store_db.

(** Reduces the store projections of a trace made of known effects and of
    the traces of the resolver and the writers. *)
Ltac store_trace :=
  repeat match goal with
         | H : ?t = EWrite _ _ <$> _ |- _ => subst t
         end;
  cbn [result world effects];
  autorewrite with store_db;
  repeat match goal with
         | H : storeWriteAttempts ?t = [] |- _ =>
             rewrite ?H, ?(storeWrites_none _ H); clear H
         end;
  cbn [app].

(** Whatever the store and the port do, the audit trail of one resolution
    has one of four shapes: nothing was attempted (the resolver failed);
    the all-events append was attempted and rejected, and nothing else was
    attempted; the all-events append succeeded and the second write was
    rejected; both succeeded.  The second write is never attempted before
    the all-events append has succeeded. *)
Theorem audit_trail_shape (v : Variant) (uid mode : string) (port : Port)
    (o : Oracle) (io : IO) :
  let r := resolutionOf v uid mode port o io in
  AuditShape v uid mode (storeWriteAttempts (effects r)) (storeWrites (effects r)).
Proof.
  cbn zeta. destruct v; cbn [resolutionOf].
  - unfold Part000.resolution, Part000.onResidentData, tryCatch, bind.
    destruct (fetch_quiet uid defaultRetries o io) as (_ & Hfs & _). cbn zeta in Hfs.
    destruct (Part000.fetchResidentDataWithRetry uid defaultRetries o io)
      as [[residentData|e] wf tf]; cbn [result world effects] in *.
    + destruct residentData as [data|];
        [destruct (strictEqBool _ true); [|destruct (strictEqBool _ false)]|];
        unfold logLine, emit; js_cbn; run_writers_quiet;
        unfold Part000.logToFirebase, tryCatch, bind, detached, tryCatch, docSet,
          newDate, dateNow, logLine, emit, ret; js_cbn;
        (destruct (dbFault o (dbOps _)) as [e1|]; js_cbn;
         [|destruct (dbFault o (S (dbOps _))) as [e2|]; js_cbn]);
        store_trace; constructor;
        first [eexists; reflexivity | left; reflexivity | right; eexists; reflexivity].
    + unfold logLine, emit; js_cbn; run_writers_quiet. store_trace. constructor.
  - unfold Part001.resolution, Part001.afterFetch, tryCatch, bind.
    destruct (fetch001_quiet uid defaultRetries o io) as (_ & Hfs). cbn zeta in Hfs.
    destruct (Part001.fetchResidentDataWithRetry uid defaultRetries o io)
      as [[residentData|e] wf tf]; cbn [result world effects] in *.
    + destruct residentData as [data|]; [destruct (strictEqBool _ true)|];
        js_cbn; run_writers_quiet;
        unfold Part001.logToFirebase, Part001.logDeniedUID, bind, docSet,
          newDate, dateNow, logLine, emit, ret; js_cbn;
        (destruct (dbFault o (dbOps _)) as [e1|]; js_cbn;
         [|destruct (dbFault o (S (dbOps _))) as [e2|]; js_cbn]);
        run_writers_quiet; store_trace; constructor;
        first [eexists; reflexivity | left; reflexivity | right; eexists; reflexivity].
    + unfold logLine, emit; js_cbn; run_writers_quiet. store_trace. constructor.
Qed.


(** C5, as the code has it (audit trail).  In either variant and whatever
    the port does: a resolution whose resolver returns, with or without a
    record, first writes one document to [all_rfid_logs] under the key
    UID-time; then, when the record has [assigned] equal to [true]
    (Accepted), one document keyed by the UID alone into
    [latest_accepted_entry_log] when the mode name contains "Entry" and
    into [latest_exit_log] for the modes "Vehicle Exit", "Walk-out" and
    "Walk Out"; in every other case (the Denied decisions, and a record
    whose [assigned] is not a boolean), one document under a key UID-time
    into the variant's denied collection; the store is assumed to accept
    these writes.  A resolution whose resolver fails (Error) attempts no
    audit write at all. *)
Theorem C5_audit_trail (v : Variant) (uid mode : string) (port : Port)
    (o : Oracle) (io : IO) :
  let fr := fetchResidentDataWithRetryOf v uid defaultRetries o io in
  let r := resolutionOf v uid mode port o io in
  let allEvents := ("all_rfid_logs", stampedKey uid (clock (world fr))) in
  let latest := (logCollectionOf mode, uid) in
  let denied := (deniedCollectionOf v,
                 stampedKey uid (clock (world fr) + dbDelay o (dbOps (world fr)))) in
  match result fr with
  | Thrown _ => storeWriteAttempts (effects r) = []
  | Ok residentData =>
      healthyStoreFrom o (dbOps (world fr)) ->
      storeWrites (effects r)
      = if String.eqb (statusOf residentData) "accepted" then [allEvents; latest]
        else [allEvents; denied]
  end
  /\ (forall dec, tableDecision (result fr) = Some dec ->
      match dec with
      | DecisionError => storeWriteAttempts (effects r) = []
      | Accepted =>
          healthyStoreFrom o (dbOps (world fr)) ->
          storeWrites (effects r) = [allEvents; latest]
      | _ =>
          healthyStoreFrom o (dbOps (world fr)) ->
          storeWrites (effects r) = [allEvents; denied]
      end)
  /\ (includesStr mode "Entry" = true -> logCollectionOf mode = "latest_accepted_entry_log")
  /\ (mode ∈ ["Vehicle Exit"; "Walk-out"; "Walk Out"] ->
      logCollectionOf mode = "latest_exit_log").
Proof.
  cbn zeta.
  assert (Hcode :
    match result (fetchResidentDataWithRetryOf v uid defaultRetries o io) with
    | Thrown _ => storeWriteAttempts (effects (resolutionOf v uid mode port o io)) = []
    | Ok residentData =>
        healthyStoreFrom o
          (dbOps (world (fetchResidentDataWithRetryOf v uid defaultRetries o io))) ->
        storeWrites (effects (resolutionOf v uid mode port o io))
        = if String.eqb (statusOf residentData) "accepted"
          then [("all_rfid_logs",
                 stampedKey uid
                   (clock (world (fetchResidentDataWithRetryOf v uid defaultRetries o io))));
                (logCollectionOf mode, uid)]
          else [("all_rfid_logs",
                 stampedKey uid
                   (clock (world (fetchResidentDataWithRetryOf v uid defaultRetries o io))));
                (deniedCollectionOf v,
                 stampedKey uid
                   (clock (world (fetchResidentDataWithRetryOf v uid defaultRetries o io))
                    + dbDelay o
                        (dbOps (world (fetchResidentDataWithRetryOf v uid defaultRetries
                                         o io)))))]
    end).
  { destruct v; cbn [resolutionOf fetchResidentDataWithRetryOf deniedCollectionOf].
    - unfold Part000.resolution, Part000.onResidentData, tryCatch, bind.
      destruct (fetch_quiet uid defaultRetries o io) as (_ & Hfs & _). cbn zeta in Hfs.
      destruct (Part000.fetchResidentDataWithRetry uid defaultRetries o io)
        as [[residentData|e] wf tf]; cbn [result world effects] in *.
      + intros Hst.
        pose proof (Hst (dbOps wf) ltac:(lia)) as H0.
        pose proof (Hst (S (dbOps wf)) ltac:(lia)) as H1.
        unfold statusOf.
        destruct residentData as [data|];
          [destruct (strictEqBool _ true); [|destruct (strictEqBool _ false)]|];
          unfold logLine, emit; js_cbn; run_writers_quiet;
          unfold Part000.logToFirebase, tryCatch, bind, detached, tryCatch, docSet,
            newDate, dateNow, logLine, emit, ret; js_cbn;
          rewrite ?Hd, ?Hc, ?H0; js_cbn; rewrite ?Hd, ?Hc, ?H1; js_cbn;
          store_trace; rewrite ?Hc; reflexivity.
      + unfold logLine, emit; js_cbn; run_writers_quiet. store_trace. reflexivity.
    - unfold Part001.resolution, Part001.afterFetch, tryCatch, bind.
      destruct (fetch001_quiet uid defaultRetries o io) as (_ & Hfs). cbn zeta in Hfs.
      destruct (Part001.fetchResidentDataWithRetry uid defaultRetries o io)
        as [[residentData|e] wf tf]; cbn [result world effects] in *.
      + intros Hst.
        pose proof (Hst (dbOps wf) ltac:(lia)) as H0.
        pose proof (Hst (S (dbOps wf)) ltac:(lia)) as H1.
        unfold statusOf.
        destruct residentData as [data|]; [destruct (strictEqBool _ true)|];
          js_cbn; run_writers_quiet;
          unfold Part001.logToFirebase, Part001.logDeniedUID, bind, docSet,
            newDate, dateNow, logLine, emit, ret; js_cbn;
          rewrite ?Hd, ?Hc, ?H0; js_cbn; rewrite ?Hd, ?Hc, ?H1; js_cbn;
          run_writers_quiet; store_trace; rewrite ?Hc; reflexivity.
      + unfold logLine, emit; js_cbn; run_writers_quiet. store_trace. reflexivity. }
  split; [exact Hcode|]. split; [|split].
  - intros dec Hdec.
    destruct (result (fetchResidentDataWithRetryOf v uid defaultRetries o io))
      as [residentData|e].
    + destruct (statusOf_table _ _ Hdec) as [Hne Hst]. rewrite Hst in Hcode.
      destruct dec; try contradiction; exact Hcode.
    + injection Hdec as <-. exact Hcode.
  - intros He. unfold logCollectionOf. rewrite He. reflexivity.
  - intros Hin. repeat (apply elem_of_cons in Hin as [->|Hin]; [reflexivity|]).
    inversion Hin.
Qed.

Lemma C5_audit_trail_witness :
  tableDecision
    (result (fetchResidentDataWithRetryOf part_001 "1A2B3C4D" defaultRetries
               deadPortOracle worldAssigned))
  = Some Accepted
  /\ healthyStoreFrom deadPortOracle 1
  /\ linesWritten portVehicleEntry
       (effects (resolutionOf part_001 "1A2B3C4D" "Vehicle Entry" portVehicleEntry
                   deadPortOracle worldAssigned)) = []
  /\ storeWrites (effects (resolutionOf part_001 "1A2B3C4D" "Vehicle Entry"
                             portVehicleEntry deadPortOracle worldAssigned))
     = [("all_rfid_logs", "1A2B3C4D-1700000000005");
        ("latest_accepted_entry_log", "1A2B3C4D")].
Proof.
  assert (Hd : tableDecision
                 (result (fetchResidentDataWithRetryOf part_001 "1A2B3C4D" defaultRetries
                            deadPortOracle worldAssigned))
               = Some Accepted) by (vm_compute; reflexivity).
  assert (Hs : healthyStoreFrom deadPortOracle 1) by (intros k _; reflexivity).
  split; [exact Hd|]. split; [exact Hs|]. split; [vm_compute; reflexivity|].
  destruct (C5_audit_trail part_001 "1A2B3C4D" "Vehicle Entry" portVehicleEntry
              deadPortOracle worldAssigned) as (_ & Hdec & _).
  exact (Hdec Accepted Hd Hs).
Defined.

(** On a working port, one resolution of part_001 sends the response to
    what the resolver found, or "Error" when it failed, and at most one
    more line. *)
Lemma resolution001_line_bound uid mode port o io :
  healthyPort o ->
  exists rest,
    linesWritten port (effects (Part001.resolution uid mode port o io))
    = (match result (Part001.fetchResidentDataWithRetry uid defaultRetries o io) with
       | Ok residentData => responseOf001 residentData
       | Thrown _ => "Error"
       end ++ nl) :: rest
    /\ (List.length rest <= 1)%nat.
Proof.
  intros Hp.
  unfold Part001.resolution, Part001.afterFetch, responseOf001, tryCatch, bind.
  destruct (fetch001_quiet uid defaultRetries o io) as (Hfw & _). cbn zeta in Hfw.
  pose proof (linesWritten_none port _ Hfw) as Hfl.
  destruct (Part001.fetchResidentDataWithRetry uid defaultRetries o io)
    as [[residentData|e] wf tf]; cbn [result world effects] in *.
  - destruct residentData as [data|]; [destruct (strictEqBool _ true)|];
      rewrite !p001_write_healthy by (assumption || (unfold defaultRetries; lia));
      unfold Part001.logToFirebase, Part001.logDeniedUID, bind, docSet,
        newDate, dateNow, logLine, emit, ret; js_cbn;
      (destruct (dbFault o (dbOps wf)) as [e1|]; js_cbn;
       [|destruct (dbFault o (S (dbOps wf))) as [e2|]; js_cbn]);
      rewrite ?p001_write_healthy by (assumption || (unfold defaultRetries; lia)); js_cbn;
      autorewrite with trace_db; rewrite Hfl; cbn;
      rewrite !decide_True by reflexivity; eexists; (split; [reflexivity | cbn; lia]).
  - unfold logLine, emit. js_cbn.
    rewrite !p001_write_healthy by (assumption || (unfold defaultRetries; lia)). js_cbn.
    autorewrite with trace_db. rewrite Hfl. cbn.
    rewrite !decide_True by reflexivity. eexists. split; [reflexivity | cbn; lia].
Qed.

(** On a working port, part_001 answers an admitted scan once or twice.
    The first line is the response to what the resolver found.  A second
    line follows exactly when one of the two audit writes is rejected, and
    it is always "Error"; when the resolver itself fails, "Error" is the
    only line.  The chain never rejects. *)
Theorem part001_answers_once_or_twice (uid mode : string) (port : Port)
    (o : Oracle) (io : IO) :
  healthyPort o ->
  let fr := Part001.fetchResidentDataWithRetry uid defaultRetries o io in
  let r := Part001.resolution uid mode port o io in
  result r = Ok tt
  /\ match result fr with
     | Ok residentData =>
         linesWritten port (effects r)
         = (responseOf001 residentData ++ nl)
           :: match dbFault o (dbOps (world fr)), dbFault o (S (dbOps (world fr))) with
              | None, None => []
              | _, _ => ["Error" ++ nl]
              end
     | Thrown _ => linesWritten port (effects r) = ["Error" ++ nl]
     end.
Proof.
  intros Hp. cbn zeta. split.
  { destruct (resolution_neverThrows part_001 uid mode port o io) as [[] H]. exact H. }
  assert (Hpos : (0 < defaultRetries)%nat) by (unfold defaultRetries; lia).
  unfold Part001.resolution, Part001.afterFetch, responseOf001, tryCatch, bind.
  destruct (fetch001_quiet uid defaultRetries o io) as (Hfw & _). cbn zeta in Hfw.
  pose proof (linesWritten_none port _ Hfw) as Hfl.
  destruct (Part001.fetchResidentDataWithRetry uid defaultRetries o io)
    as [[residentData|e] wf tf]; cbn [result world effects] in *.
  - destruct residentData as [data|]; [destruct (strictEqBool _ true)|];
      rewrite !p001_write_healthy by assumption;
      unfold Part001.logToFirebase, Part001.logDeniedUID, bind, docSet,
        newDate, dateNow, logLine, emit, ret; js_cbn;
      (destruct (dbFault o (dbOps wf)) as [e1|]; js_cbn;
       [|destruct (dbFault o (S (dbOps wf))) as [e2|]; js_cbn]);
      rewrite ?p001_write_healthy by assumption; js_cbn;
      autorewrite with trace_db; rewrite Hfl; cbn;
      rewrite !decide_True by reflexivity; reflexivity.
  - unfold logLine, emit. js_cbn. rewrite !p001_write_healthy by assumption. js_cbn.
    autorewrite with trace_db. rewrite Hfl. cbn.
    rewrite !decide_True by reflexivity. reflexivity.
Qed.

Lemma part001_answers_once_or_twice_witness :
  healthyPort (glitchOracle 2)
  /\ linesWritten portWalkOut
       (effects (Part001.resolution "1A2B3C4D" "Walk Out" portWalkOut (glitchOracle 2)
                   worldAssigned))
     = ["Resident Found" ++ nl; "Error" ++ nl].
Proof.
  assert (Hp : healthyPort (glitchOracle 2)) by (intros k; reflexivity).
  split; [exact Hp|].
  destruct (part001_answers_once_or_twice "1A2B3C4D" "Walk Out" portWalkOut
              (glitchOracle 2) worldAssigned Hp) as [_ H].
  vm_compute in H. vm_compute. exact H.
Defined.

(** ** Enrollment and access together *)

(** With a working port and a store that answers, a resolution sends the
    one line that corresponds to the record the store holds. *)
Lemma resolution_healthy v uid mode port o io :
  healthyPort o -> healthyStoreFrom o (dbOps io) ->
  linesWritten port (effects (resolutionOf v uid mode port o io))
  = [responseOfVariant v (store io !! ("residents", uid)) ++ nl].
Proof.
  intros Hp Hs. pose proof (Hs (dbOps io) ltac:(lia)) as H0.
  destruct v; cbn [resolutionOf responseOfVariant].
  - destruct (resolution_run uid mode port o io Hp) as [_ Hrun].
    destruct (tryFetching_recovers uid defaultRetries defaultRetries 0 0 o io)
      as (Hr & _); try reflexivity; try lia.
    { rewrite Nat.add_0_r. exact H0. }
    unfold Part000.fetchResidentDataWithRetry in Hrun. rewrite Hr in Hrun.
    apply Hrun.
  - pose proof (resolution001_run uid mode port o io Hp) as Hrun. cbn zeta in Hrun.
    destruct (fetchLoop_recovers uid defaultRetries defaultRetries 0 0 o io)
      as (Hr & Ht); try reflexivity; try (unfold defaultRetries; lia).
    { rewrite Nat.add_0_r. exact H0. }
    unfold Part001.fetchResidentDataWithRetry in Hrun. rewrite Hr in Hrun.
    apply Hrun. intros k Hk. apply Hs.
    assert (Hn : (dbOps io <= dbOps (world (Part001.fetchLoop uid defaultRetries 0
                                             defaultRetries o io)))%nat).
    { rewrite fetchLoop_eq. change (0 <? defaultRetries)%nat with true. rewrite H0.
      cbn. lia. }
    lia.
Qed.

(** With a working port and a store that answers, the enrollment of an
    unknown valid UID creates its record and reports it. *)
Lemma onAssignData_creates v data o io :
  uidRegex_test (trim data) = true ->
  healthyPort o -> healthyStoreFrom o (dbOps io) ->
  store io !! ("residents", trim data) = None ->
  let r := onAssignDataOf v data o io in
  linesWritten portAssign (effects r) = ["New Resident Created" ++ nl]
  /\ store (world r)
     = <[("residents", trim data) := object [("assigned", JBool false)]]> (store io)
  /\ dbOps (world r) = S (S (dbOps io)).
Proof.
  intros Hv Hp Hs Hnone. cbn zeta.
  pose proof (Hs (dbOps io) ltac:(lia)) as H0.
  pose proof (Hs (S (dbOps io)) ltac:(lia)) as H1.
  destruct v; cbn [onAssignDataOf];
    unfold Part000.onAssignData, Part001.onAssignData, Part001.isValidUID,
      Part000.isValidUID, detached, tryCatch, bind, docGet, docSet, logLine, emit, ret;
    js_cbn; rewrite Hv; js_cbn; rewrite H0; js_cbn; rewrite Hnone; js_cbn;
    rewrite H1; js_cbn;
    rewrite ?p000_write_healthy by assumption;
    rewrite ?p001_write_healthy by (assumption || (unfold defaultRetries; lia));
    js_cbn; cbn; rewrite decide_True by reflexivity; repeat split.
Qed.

(** With a working port and a store that answers, the enrollment reader's
    answer for a UID that has a record. *)
Lemma onAssignData_existing v data o io residentData :
  uidRegex_test (trim data) = true ->
  healthyPort o -> dbFault o (dbOps io) = None ->
  store io !! ("residents", trim data) = Some residentData ->
  linesWritten portAssign (effects (onAssignDataOf v data o io))
  = [(if strictEqBool (getField residentData "assigned") false
      then "UID Not Assigned" else "Resident Found") ++ nl].
Proof.
  intros Hv Hp H0 Hsome.
  destruct v; cbn [onAssignDataOf];
    unfold Part000.onAssignData, Part001.onAssignData, Part001.isValidUID,
      Part000.isValidUID, detached, tryCatch, bind, docGet, docSet, logLine, emit, ret;
    js_cbn; rewrite Hv; js_cbn; rewrite H0; js_cbn; rewrite Hsome; js_cbn;
    destruct (strictEqBool (getField residentData "assigned") false);
    rewrite ?p000_write_healthy by assumption;
    rewrite ?p001_write_healthy by (assumption || (unfold defaultRetries; lia));
    js_cbn; cbn; rewrite decide_True by reflexivity; reflexivity.
Qed.



(** ** The cooldown as a rate limit *)

Lemma stampsOf_singleton ch T d :
  cooldownCache ch !! T = Some d -> stampsOf ch [T] = [(T, d)].
Proof. intros H. unfold stampsOf. cbn. rewrite H. reflexivity. Qed.

Section RateLimit.

Variable v : Variant.
Variable mode : string.
Variable port : Port.
Variable o : Oracle.
Hypothesis delays : forall k, 0 <= dbDelay o k.

Lemma readerInv_boot io : 0 < clock io -> readerInv o (bootReader io).
Proof.
  intros H. split; [reflexivity|]. split; [|split; [exact H | constructor]].
  intros T d Hl. cbn in Hl. rewrite lookup_empty in Hl. discriminate.
Qed.

(** One event: the invariant is kept, and the event dequeues nothing, or
    it dequeues one UID, stamps it with the current time, and that UID's
    previous stamp, if any, is at least the cooldown time old. *)
Lemma step_dequeue s ev :
  readerInv o s ->
  match ev with Tick dt => 0 <= dt | _ => True end ->
  let s' := step (handleReaderDataOf v) mode port o s ev in
  readerInv o s'
  /\ ((dequeued s' = dequeued s /\ channel s' = channel s)
      \/ exists T,
           dequeued s' = (dequeued s ++ [T])%list
           /\ cooldownCache (channel s')
              = <[T := clock (rworld s)]> (cooldownCache (channel s))
           /\ forall d, cooldownCache (channel s) !! T = Some d ->
                        cooldownTimeOf v <= clock (rworld s) - d).
Proof.
  intros (Hq & Hc & Hpos & Hp) Hev. destruct ev as [data|dt|i]; cbn [step].
  - destruct (gateBehaviourOf v data mode (channel s) port o (rworld s) Hq)
      as (Hw & _ & _ & _ & [Hr|(Hr & _ & Ha)] & _); rewrite Hr, Hw;
      cbn [fst option_list fmap option_fmap option_map].
    + split.
      * split; [exact Hq|]. split; [exact Hc|]. split; [exact Hpos|].
        cbn [pending]. rewrite app_nil_r. exact Hp.
      * left. split; [apply app_nil_r | reflexivity].
    + split.
      * split; [reflexivity|]. split; [|split; [exact Hpos|]].
        -- intros T d H. cbn in H |- *. destruct (decide (T = trim data)) as [->|Hne].
           ++ rewrite lookup_insert_eq in H. injection H as <-. lia.
           ++ rewrite lookup_insert_ne in H by congruence. apply (Hc T d H).
        -- cbn [pending]. apply Forall_app. split; [exact Hp|]. constructor; [|constructor].
           intros io. cbn. apply resolution_clock. exact delays.
      * right. exists (trim data). split; [reflexivity|]. split; [reflexivity|].
        intros d Hd. unfold admits in Ha. rewrite Hd in Ha.
        apply andb_prop in Ha as [_ Ha]. apply orb_prop in Ha as [Ha|Ha].
        -- apply Z.eqb_eq in Ha. specialize (Hc _ _ Hd). lia.
        -- apply Z.leb_le in Ha. exact Ha.
  - split; [|left; split; reflexivity].
    split; [exact Hq|]. split; [|split; [cbn; lia | exact Hp]].
    intros T d H. specialize (Hc T d H). cbn. lia.
  - destruct (pending s !! i) as [[u c]|] eqn:Ei; cbn.
    + assert (Hmono : clock (rworld s) <= clock (world (c o (rworld s)))).
      { rewrite Forall_forall in Hp. apply (Hp (u, c)). eapply list_elem_of_lookup_2, Ei. }
      split; [|left; split; reflexivity].
      split; [exact Hq|]. split; [|split; [cbn; lia|]].
      * intros T d H. specialize (Hc T d H). cbn. lia.
      * cbn [pending]. rewrite Forall_forall in Hp |- *. intros p Hin. apply Hp.
        apply list_elem_of_lookup in Hin as [j Hj].
        destruct (decide (j < i)%nat).
        -- rewrite list_lookup_delete_lt in Hj by assumption. eapply list_elem_of_lookup_2, Hj.
        -- rewrite list_lookup_delete_ge in Hj by lia. eapply list_elem_of_lookup_2, Hj.
    + split; [|left; split; reflexivity].
      split; [exact Hq|]. split; [exact Hc|]. split; [exact Hpos | exact Hp].
Qed.

Lemma dequeueTimes_spaced : forall evs s,
  readerInv o s -> forwardTicks evs ->
  let log := dequeueTimes (handleReaderDataOf v) mode port o s evs in
  spaced (cooldownTimeOf v) log
  /\ (forall T d t, cooldownCache (channel s) !! T = Some d -> (T, t) ∈ log ->
                    cooldownTimeOf v <= t - d)
  /\ dequeued (run (handleReaderDataOf v) mode port o s evs) = (dequeued s ++ log.*1)%list.
Proof.
  induction evs as [|ev evs IH]; intros s Hinv Hfw; cbn zeta.
  - cbn. split; [exact I|]. split.
    + intros T d t _ Hin. inversion Hin.
    + symmetry. apply app_nil_r.
  - apply Forall_cons in Hfw as [Hev Hfw].
    destruct (step_dequeue s ev Hinv Hev) as (Hinv' & Hstep). cbn zeta in Hinv', Hstep.
    destruct (IH _ Hinv' Hfw) as (IHs & IHc & IHd). cbn zeta in IHs, IHc, IHd.
    change (run (handleReaderDataOf v) mode port o s (ev :: evs))
      with (run (handleReaderDataOf v) mode port o
              (step (handleReaderDataOf v) mode port o s ev) evs).
    cbn [dequeueTimes].
    destruct Hinv as (_ & Hc & _).
    destruct Hstep as [[Hd Hch]|(T & Hd & Hcache & Hold)].
    + rewrite Hd, drop_all. change (stampsOf _ []) with (@nil (string * Z)). cbn [app].
      rewrite Hch in IHc. rewrite Hd in IHd. split; [exact IHs|]. split; [exact IHc | exact IHd].
    + assert (Hnow : cooldownCache (channel (step (handleReaderDataOf v) mode port o s ev))
                     !! T = Some (clock (rworld s))).
      { rewrite Hcache. apply lookup_insert_eq. }
      rewrite Hd, drop_app_length, (stampsOf_singleton _ _ _ Hnow). cbn [app].
      split; [|split].
      * split; [|exact IHs]. intros d' Hin. eapply IHc; eassumption.
      * intros T' d t HT' Hin. apply elem_of_cons in Hin as [Heq|Hin].
        -- injection Heq as -> ->. apply Hold. exact HT'.
        -- destruct (decide (T' = T)) as [->|Hne].
           ++ specialize (IHc T _ t Hnow Hin). specialize (Hc T d HT'). lia.
           ++ eapply IHc; [|exact Hin]. rewrite Hcache, lookup_insert_ne by congruence.
              exact HT'.
      * rewrite IHd, Hd, <- app_assoc. reflexivity.
Qed.

End RateLimit.

(** The cooldown as a rate limit.  In either variant, take a reader started
    with an empty queue and an empty cooldown cache at a positive time, and
    any sequence of scans, ticks and settling chains in which time does not
    run backwards.  The log of [dequeueTimes] lists every UID the run
    dequeues, and two dequeues of the same UID are always at least
    [cooldownTime] apart: no tag is resolved twice within the window,
    whatever it is scanned with and however its resolutions end. *)
Theorem cooldown_rate_limit (v : Variant) (mode : string) (port : Port)
    (o : Oracle) (io : IO) (evs : list Event) :
  0 < clock io ->
  (forall k, 0 <= dbDelay o k) ->
  forwardTicks evs ->
  let log := dequeueTimes (handleReaderDataOf v) mode port o (bootReader io) evs in
  log.*1 = dequeued (run (handleReaderDataOf v) mode port o (bootReader io) evs)
  /\ spaced (cooldownTimeOf v) log.
Proof.
  intros Hpos Hdelay Hfw. cbn zeta.
  destruct (dequeueTimes_spaced v mode port o Hdelay evs (bootReader io)
              (readerInv_boot o io Hpos) Hfw) as (Hs & _ & Hd).
  split; [rewrite Hd; reflexivity | exact Hs].
Qed.

Lemma cooldown_rate_limit_witness :
  let evs := [Scan "1A2B3C4D"; Settle 0; Tick 179000; Scan "1A2B3C4D";
              Tick 1000; Scan "1A2B3C4D"] in
  0 < clock world0
  /\ (forall k, 0 <= dbDelay okOracle k)
  /\ forwardTicks evs
  /\ dequeueTimes (handleReaderDataOf part_000) "Vehicle Entry" portVehicleEntry okOracle
       (bootReader world0) evs
     = [("1A2B3C4D", 1700000000000); ("1A2B3C4D", 1700000180015)]
  /\ spaced (cooldownTimeOf part_000)
       (dequeueTimes (handleReaderDataOf part_000) "Vehicle Entry" portVehicleEntry okOracle
          (bootReader world0) evs).
Proof.
  intros evs.
  assert (H1 : 0 < clock world0) by reflexivity.
  assert (H2 : forall k, 0 <= dbDelay okOracle k) by (intros k; cbn; lia).
  assert (H3 : forwardTicks evs) by (repeat constructor; discriminate).
  split; [exact H1|]. split; [exact H2|]. split; [exact H3|].
  split; [vm_compute; reflexivity|].
  exact (proj2 (cooldown_rate_limit part_000 "Vehicle Entry" portVehicleEntry okOracle
                  world0 evs H1 H2 H3)).
Defined.

(** ** Scans and answers along a run *)

Section Answers.

Variable v : Variant.
Variable mode : string.
Variable port : Port.
Variable o : Oracle.
Hypothesis port_ok : healthyPort o.

(** The number of lines one settled chain sends: one in part_000, one or
    two in part_001. *)
Lemma resolution_line_count uid io :
  let n := List.length (linesWritten port (effects (resolutionOf v uid mode port o io))) in
  (1 <= n)%nat /\ (n <= match v with part_000 => 1 | part_001 => 2 end)%nat.
Proof.
  cbn zeta. destruct v; cbn [resolutionOf].
  - destruct (resolution_run uid mode port o io port_ok) as [_ Hrun].
    destruct (result (Part000.fetchResidentDataWithRetry uid defaultRetries o io));
      destruct Hrun as (-> & _); cbn; lia.
  - destruct (resolution001_line_bound uid mode port o io port_ok) as (rest & -> & Hb).
    cbn [List.length]. lia.
Qed.

Lemma answersInv_step s ev :
  queue (channel s) = [] -> answersInv v mode port s ->
  answersInv v mode port (step (handleReaderDataOf v) mode port o s ev).
Proof.
  intros Hq (Hp & Hle & Hlo & Hhi). cbn zeta in Hlo, Hhi.
  destruct ev as [data|dt|i]; cbn [step].
  - destruct (gateBehaviourOf v data mode (channel s) port o (rworld s) Hq)
      as (_ & Hw & _ & _ & [Hr|(Hr & _)] & _); rewrite Hr;
      cbn [fst option_list fmap option_fmap option_map];
      (split; [|split; [|cbn zeta; split]]); cbn [pending dequeued history];
      rewrite ?app_nil_r, ?length_app, ?linesWritten_app, ?(linesWritten_none _ _ Hw),
        ?app_nil_r; unfold option_list; cbn [List.length option_rect]; try assumption;
      try lia;
      try (destruct (Variant_cases v) as [Hv|Hv]; rewrite Hv in Hhi |- *; lia).
    apply Forall_app. split; [exact Hp|]. constructor; [reflexivity | constructor].
  - split; [exact Hp|]. split; [exact Hle|]. split; assumption.
  - destruct (pending s !! i) as [[u c]|] eqn:Ei; [|repeat split; assumption].
    assert (Hc : c = resolutionOf v u mode port).
    { rewrite Forall_forall in Hp. apply (Hp (u, c)). eapply list_elem_of_lookup_2, Ei. }
    subst c. pose proof (lookup_lt_Some _ _ _ Ei) as Hi.
    destruct (resolution_line_count u (rworld s)) as [H1 H2]. cbn zeta in H1, H2.
    assert (Hdel : List.length (delete i (pending s)) = (List.length (pending s) - 1)%nat).
    { apply length_delete. exists (u, resolutionOf v u mode port). exact Ei. }
    split; [|split; [|cbn zeta; split]]; cbn [pending dequeued history];
      rewrite ?Hdel, ?linesWritten_app, ?length_app.
    + rewrite Forall_forall in Hp |- *. intros p Hin. apply Hp.
      apply list_elem_of_lookup in Hin as [j Hj].
      destruct (decide (j < i)%nat).
      * rewrite list_lookup_delete_lt in Hj by assumption. eapply list_elem_of_lookup_2, Hj.
      * rewrite list_lookup_delete_ge in Hj by lia. eapply list_elem_of_lookup_2, Hj.
    + unfold Js in *. lia.
    + unfold Js in *. lia.
    + unfold Js in *.
      destruct (Variant_cases v) as [Hv|Hv]; rewrite Hv in H2, Hhi |- *; lia.
Qed.

Lemma answersInv_run : forall evs s,
  queue (channel s) = [] -> answersInv v mode port s ->
  answersInv v mode port (run (handleReaderDataOf v) mode port o s evs).
Proof.
  induction evs as [|ev evs IH]; intros s Hq Hinv; [exact Hinv|].
  cbn. apply IH.
  - apply (step_queue_empty (handleReaderDataOf v) (resolutionOf v) (cooldownTimeOf v)
             (gateBehaviourOf v)). exact Hq.
  - apply answersInv_step; assumption.
Qed.

End Answers.

(** Scans and answers along a run.  On a working port, for a reader started
    from boot and any sequence of events: the lines sent are never fewer
    than the chains that have settled, so every dequeued scan whose chain
    has settled has been answered, and no line is sent for a scan that was
    not dequeued.  In part_000 the lines sent are exactly the settled
    chains.  In part_001 a chain answers before its awaited audit writes
    and may add a second line, so a chain that has not settled may have
    answered already: the lines sent are at most twice the dequeued scans.
    At no point of its run has a chain sent more than one line in part_000
    and two in part_001. *)
Theorem answers_match_dequeues (v : Variant) (mode : string) (port : Port)
    (o : Oracle) (io : IO) (evs : list Event) :
  healthyPort o ->
  let s := run (handleReaderDataOf v) mode port o (bootReader io) evs in
  let settled := (List.length (dequeued s) - List.length (pending s))%nat in
  let lines := List.length (linesWritten port (history s)) in
  (List.length (pending s) <= List.length (dequeued s))%nat
  /\ (settled <= lines)%nat
  /\ (lines <= match v with
               | part_000 => settled
               | part_001 => 2 * List.length (dequeued s)
               end)%nat
  /\ forall uid io' t,
       t `prefix_of` effects (resolutionOf v uid mode port o io') ->
       (List.length (linesWritten port t)
        <= match v with part_000 => 1 | part_001 => 2 end)%nat.
Proof.
  intros Hp. cbn zeta.
  destruct (answersInv_run v mode port o Hp evs (bootReader io)) as (_ & Hle & Hlo & Hhi).
  - reflexivity.
  - split; [constructor|]. cbn. destruct v; lia.
  - cbn zeta in Hlo, Hhi. split; [exact Hle|]. split; [exact Hlo|]. split.
    + destruct v; lia.
    + intros uid io' t (rest & Hrest).
      destruct (resolution_line_count v mode port o Hp uid io') as [_ Hn].
      cbn zeta in Hn. rewrite Hrest, linesWritten_app, length_app in Hn. lia.
Qed.

Lemma answers_match_dequeues_witness :
  let evs := [Scan "1A2B3C4D"; Scan "0BADF00D"; Scan "ping"; Settle 1; Scan "1A2B3C4D"] in
  let s := run (handleReaderDataOf part_000) "Walk-out" portWalkOut okOracle
             (bootReader worldAssigned) evs in
  healthyPort okOracle
  /\ List.length (dequeued s) = 2%nat
  /\ List.length (pending s) = 1%nat
  /\ (List.length (linesWritten portWalkOut (history s)) <= 1)%nat.
Proof.
  intros evs s.
  assert (Hp : healthyPort okOracle) by (intros k; reflexivity).
  split; [exact Hp|]. split; [vm_compute; reflexivity|]. split; [vm_compute; reflexivity|].
  destruct (answers_match_dequeues part_000 "Walk-out" portWalkOut okOracle worldAssigned
              evs Hp) as (_ & _ & Hhi & _).
  cbn zeta in Hhi. fold s in Hhi.
  replace (List.length (dequeued s) - List.length (pending s))%nat with 1%nat in Hhi
    by (vm_compute; reflexivity).
  exact Hhi.
Defined.

(** ** The cache cleaner *)

Lemma cleanLoop_run currentTime : forall cache o io,
  cleanLoop currentTime cache o io
  = mkRun (Ok (filter (fun p => currentTime - timestamp p.2 <= cacheExpiryTime) cache)) io
      ((fun p => ELog "INFO" ("Expired cache entry removed for UID: " ++ p.1))
         <$> filter (fun p => cacheExpiryTime < currentTime - timestamp p.2) cache).
Proof.
  induction cache as [|[uid entry] rest IH]; intros o io; [reflexivity|].
  cbn [cleanLoop]. rewrite !filter_cons. cbn [snd fst].
  destruct (cacheExpiryTime <? currentTime - timestamp entry)%Z eqn:E.
  - apply Z.ltb_lt in E.
    rewrite decide_False by lia. rewrite decide_True by lia.
    unfold bind, logLine, emit. cbn. rewrite IH. reflexivity.
  - apply Z.ltb_ge in E.
    rewrite decide_True by lia. rewrite decide_False by lia.
    unfold bind, ret. rewrite IH. cbn. rewrite app_nil_r. reflexivity.
Qed.

(** A cache without expired entries is left as it is, silently. *)
Lemma cleanLoop_fresh currentTime : forall cache o io,
  Forall (fun p => currentTime - timestamp p.2 <= cacheExpiryTime) cache ->
  cleanLoop currentTime cache o io = mkRun (Ok cache) io [].
Proof.
  induction cache as [|[uid entry] rest IH]; intros o io H; [reflexivity|].
  apply Forall_cons in H as [H1 H2]. cbn [snd] in H1. cbn [cleanLoop].
  assert ((cacheExpiryTime <? currentTime - timestamp entry)%Z = false) as ->
    by (apply Z.ltb_ge; lia).
  unfold bind, ret. rewrite (IH o io H2). reflexivity.
Qed.

(** [cleanExpiredCache] never throws and touches neither the store, nor the
    clock, nor a port.  An entry survives exactly when it is at most
    [cacheExpiryTime] = 300000 ms old (an entry that is exactly 300000 ms
    old stays); the survivors keep their order and their contents; each
    removed entry is reported in one INFO line, in the order of the
    enumeration; and cleaning again at the same time removes nothing and
    logs nothing. *)
Theorem cleanExpiredCache_keeps_fresh_entries (residentCache : ResidentCache)
    (o : Oracle) (io : IO) :
  let r := cleanExpiredCache residentCache o io in
  exists kept,
    result r = Ok kept
    /\ world r = io
    /\ kept = filter (fun p => clock io - timestamp p.2 <= cacheExpiryTime) residentCache
    /\ (forall uid entry,
          (uid, entry) ∈ kept
          <-> (uid, entry) ∈ residentCache /\ clock io - timestamp entry <= 300000)
    /\ effects r
       = (fun p => ELog "INFO" ("Expired cache entry removed for UID: " ++ p.1))
           <$> filter (fun p => 300000 < clock io - timestamp p.2) residentCache
    /\ (List.length kept + List.length (effects r) = List.length residentCache)%nat
    /\ cleanExpiredCache kept o io = mkRun (Ok kept) io [].
Proof.
  cbn zeta. unfold cleanExpiredCache, bind, dateNow. cbn [result world effects].
  rewrite cleanLoop_run. cbn [result world effects app].
  eexists. split; [reflexivity|]. split; [reflexivity|]. split; [reflexivity|].
  split; [|split; [reflexivity|split]].
  - intros uid entry. rewrite list_elem_of_filter. cbn. unfold cacheExpiryTime. tauto.
  - rewrite length_fmap. unfold cacheExpiryTime.
    induction residentCache as [|[uid entry] rest IH]; [reflexivity|].
    rewrite !filter_cons. cbn [snd].
    destruct (decide (clock io - timestamp entry <= 300000)).
    + rewrite decide_False by lia. cbn [List.length]. lia.
    + rewrite decide_True by lia. cbn [List.length]. lia.
  - rewrite cleanLoop_fresh; [reflexivity|]. apply Forall_forall. intros x Hx.
    apply list_elem_of_filter in Hx as [Hx _]. exact Hx.
Qed.

(** * The firmware and the server *)

(** ** The UID on the wire *)

Lemma trimEnd_cons c s : isWhiteSpace c = false -> trimEnd (String c s) = String c (trimEnd s).
Proof. intros H. cbn [trimEnd]. rewrite H. destruct (trimEnd s); reflexivity. Qed.

(** One byte is printed as two upper-case hexadecimal digits. *)
Lemma printByteHex_digits b :
  String.length (printByteHex b) = 2%nat /\ allChars isUpperHexDigit (printByteHex b) = true.
Proof. destruct b; vm_compute; split; reflexivity. Qed.

Lemma append_cons c s t : (String c s ++ t)%string = String c (s ++ t).
Proof. reflexivity. Qed.

Lemma append_nil t : (EmptyString ++ t)%string = t.
Proof. reflexivity. Qed.

Lemma allChars_app p s t : allChars p (s ++ t) = allChars p s && allChars p t.
Proof.
  induction s as [|c s IH]; [reflexivity|].
  rewrite append_cons. cbn [allChars]. rewrite IH. apply andb_assoc.
Qed.

Lemma length_append s t : String.length (s ++ t) = (String.length s + String.length t)%nat.
Proof.
  induction s as [|c s IH]; [reflexivity|].
  rewrite append_cons. cbn [String.length Nat.add]. f_equal. exact IH.
Qed.

Lemma printUID_digits uidByte :
  String.length (printUID uidByte) = (2 * List.length uidByte)%nat
  /\ allChars isUpperHexDigit (printUID uidByte) = true.
Proof.
  induction uidByte as [|b rest [IHl IHc]]; [split; reflexivity|].
  destruct (printByteHex_digits b) as [Hl Hc]. cbn [printUID List.length]. split.
  - rewrite length_append, Hl, IHl. lia.
  - rewrite allChars_app, Hc, IHc. reflexivity.
Qed.

(** Strings of upper-case hexadecimal digits, as the server sees them. *)
Lemma upperHex_facts s :
  allChars isUpperHexDigit s = true ->
  trim (s ++ String CR EmptyString) = s
  /\ toUpperCase s = s
  /\ hexRun (String.length s) s = true
  /\ parserLines (s ++ CRLF) = ([(s ++ String CR EmptyString)%string], EmptyString).
Proof.
  induction s as [|c s IH]; [repeat split|].
  cbn [allChars]. intros H. apply andb_prop in H as [Hc Hs].
  destruct (IH Hs) as (Ht & Hu & Hh & Hp).
  unfold isUpperHexDigit in Hc.
  apply andb_prop in Hc as [Hc Hlf]. apply andb_prop in Hc as [Hc Hws].
  apply andb_prop in Hc as [Hhex Hup].
  apply negb_true_iff in Hlf, Hws. apply Ascii.eqb_eq in Hup.
  split; [|split; [|split]].
  - unfold trim in *. rewrite append_cons. cbn [trimStart]. rewrite Hws.
    rewrite trimEnd_cons by exact Hws. f_equal.
    destruct s as [|c' s'].
    + reflexivity.
    + rewrite append_cons in Ht. cbn [trimStart] in Ht.
      cbn [allChars] in Hs. apply andb_prop in Hs as [Hc' _].
      unfold isUpperHexDigit in Hc'.
      apply andb_prop in Hc' as [Hc' _]. apply andb_prop in Hc' as [_ Hws'].
      apply negb_true_iff in Hws'. rewrite Hws' in Ht. exact Ht.
  - unfold toUpperCase in *. cbn [mapString]. rewrite Hup, Hu. reflexivity.
  - cbn [String.length hexRun]. rewrite Hhex, Hh. reflexivity.
  - rewrite !append_cons. cbn [parserLines]. rewrite Hp, Hlf. reflexivity.
Qed.

Lemma hexRun_length_iff n s : hexRun (String.length s) s = true ->
  hexRun n s = true <-> String.length s = n.
Proof.
  intros H. split.
  - apply hexRun_length.
  - intros <-. exact H.
Qed.

(** A line the validator rejects is dropped by the access handler of
    either variant: nothing is queued, nothing is written to a port. *)
Lemma invalid_line_dropped v data mode ch port o io :
  uidRegex_test (trim data) = false ->
  result (handleReaderDataOf v data mode ch port o io) = Ok (ch, None)
  /\ writeAttempts (effects (handleReaderDataOf v data mode ch port o io)) = []
  /\ storeReads (effects (handleReaderDataOf v data mode ch port o io)) = []
  /\ storeWriteAttempts (effects (handleReaderDataOf v data mode ch port o io)) = [].
Proof.
  intros Hinv. destruct v; cbn [handleReaderDataOf].
  - unfold Part000.handleReaderData. destruct (isPingResponse data).
    + cbn. repeat split.
    + unfold bind, Part000.isValidUID, bind, logLine, emit, dateNow, ret. js_cbn.
      rewrite Hinv. js_cbn. repeat split.
  - unfold Part001.handleReaderData, Part001.isValidUID. rewrite Hinv.
    unfold bind, logLine, emit, ret. js_cbn. repeat split.
Qed.

(** The UID on the wire.  [sendUIDToServer] prints the [n] bytes of a
    card's UID as [2 n] upper-case hexadecimal digits and a line end; the
    server's line parser turns this into one line, which the handlers trim
    to exactly those digits.  The validator accepts it exactly when the UID
    has 4 bytes; the line of a card with a UID of another length (7 and 10
    bytes exist) is dropped by the access handler of either variant without
    an answer.  The digits arrive in upper case. *)
Theorem scanned_uid_on_the_wire (uidByte : list Byte.byte) :
  let stream := sendUIDToServer EmptyString uidByte in
  exists data,
    parserLines stream = ([data], EmptyString)
    /\ trim data = printUID uidByte
    /\ String.length (trim data) = (2 * List.length uidByte)%nat
    /\ toUpperCase (trim data) = trim data
    /\ (uidRegex_test (trim data) = true <-> List.length uidByte = 4%nat)
    /\ (List.length uidByte <> 4%nat ->
        forall v mode ch port o io,
          result (handleReaderDataOf v data mode ch port o io) = Ok (ch, None)
          /\ writeAttempts (effects (handleReaderDataOf v data mode ch port o io)) = []).
Proof.
  cbn zeta. destruct (printUID_digits uidByte) as [Hl Hc].
  destruct (upperHex_facts _ Hc) as (Ht & Hu & Hh & Hp).
  exists (printUID uidByte ++ String CR EmptyString)%string.
  assert (Hvalid : uidRegex_test (printUID uidByte) = true <-> List.length uidByte = 4%nat).
  { unfold uidRegex_test. rewrite (hexRun_length_iff 8 _ Hh), Hl. lia. }
  split; [|split; [|split; [|split; [|split]]]].
  - unfold sendUIDToServer, serialPrintln, serialPrint. rewrite append_nil.
    change (printUID uidByte ++ "" ++ CRLF)%string with (printUID uidByte ++ CRLF)%string.
    exact Hp.
  - exact Ht.
  - rewrite Ht. exact Hl.
  - rewrite Ht. exact Hu.
  - rewrite Ht. exact Hvalid.
  - intros Hne v mode ch port o io.
    destruct (invalid_line_dropped v (printUID uidByte ++ String CR EmptyString)%string
                mode ch port o io) as (Hr & Hw & _).
    + rewrite Ht. destruct (uidRegex_test (printUID uidByte)) eqn:E; [|reflexivity].
      exfalso. apply Hne, Hvalid. reflexivity.
    + split; assumption.
Qed.

(** ** The walk-out sketch and the server's answers *)

(** On a working port, the first line a resolution sends is the variant's
    wording of the decision. *)
Lemma first_response_line v uid mode port o io dec :
  healthyPort o ->
  tableDecision (result (fetchResidentDataWithRetryOf v uid defaultRetries o io)) = Some dec ->
  head (linesWritten port (effects (resolutionOf v uid mode port o io)))
  = Some (wordingOf v dec ++ nl).
Proof.
  intros Hp Hdec. destruct v; cbn [fetchResidentDataWithRetryOf resolutionOf] in *.
  - destruct (resolution_run uid mode port o io Hp) as [_ Hrun].
    destruct (result (Part000.fetchResidentDataWithRetry uid defaultRetries o io))
      as [residentData|e].
    + destruct Hrun as (-> & _). rewrite (responseOf_table _ _ Hdec).
      destruct dec; reflexivity.
    + injection Hdec as <-. destruct Hrun as (-> & _). reflexivity.
  - destruct (resolution001_line_bound uid mode port o io Hp) as (rest & -> & _).
    cbn [head]. f_equal. f_equal.
    destruct (result (Part001.fetchResidentDataWithRetry uid defaultRetries o io))
      as [residentData|e].
    + unfold tableDecision in Hdec. unfold responseOf001, getField.
      destruct residentData as [data|]; [|injection Hdec as <-; reflexivity].
      destruct (data !! "assigned") as [[| |[|]| | |]|]; cbn in *;
        try discriminate; injection Hdec as <-; reflexivity.
    + injection Hdec as <-. reflexivity.
Qed.

(** What the walk-out reader shows for the outcome of a resolution.  On a
    working port, let the first line the server sends for a scan be what a
    walk-out sketch finds in its serial buffer while it is waiting and has
    not timed out.  In that turn of [loop]: for Accepted the green LED
    alone is lit; for a denial the variant words "Resident Not Found" the
    red LED alone is lit; in both cases the sketch stops waiting.  The
    lines "Resident Not Found - Assign Needed" and "Error" (DeniedUnassigned
    and Error; in part_001 also a record without an [assigned] field) are
    unknown to the sketch: it lights neither the red nor the green LED
    anew (its LED state is kept or falls back to standby), keeps waiting,
    and its timeout keeps running. *)
Theorem walkout_shows_decision (v : Variant) (uid mode : string) (o : Oracle) (io : IO)
    (dec : Decision) (card : option (list Byte.byte)) (s : WalkOut.Sketch) :
  healthyPort o ->
  tableDecision (result (fetchResidentDataWithRetryOf v uid defaultRetries o io)) = Some dec ->
  WalkOut.waitingForResponse s = true ->
  usub (WalkOut.millis s) (WalkOut.responseTimeout s) <= WalkOut.responseDelay ->
  head (linesWritten portWalkOut (effects (resolutionOf v uid mode portWalkOut o io)))
  = Some (WalkOut.serialIn s) ->
  let s' := WalkOut.loop card s in
  if String.eqb (wordingOf v dec) "Resident Found" then
    dec = Accepted
    /\ WalkOut.currentLedState s' = WalkOut.FOUND
    /\ (WalkOut.redLed s', WalkOut.yellowLed s', WalkOut.greenLed s') = (false, false, true)
    /\ WalkOut.waitingForResponse s' = false
  else if String.eqb (wordingOf v dec) "Resident Not Found" then
    WalkOut.currentLedState s' = WalkOut.NOT_FOUND
    /\ (WalkOut.redLed s', WalkOut.yellowLed s', WalkOut.greenLed s') = (true, false, false)
    /\ WalkOut.waitingForResponse s' = false
  else
    WalkOut.waitingForResponse s' = true
    /\ WalkOut.responseTimeout s' = WalkOut.responseTimeout s
    /\ (WalkOut.redLed s' = true -> WalkOut.redLed s = true)
    /\ (WalkOut.greenLed s' = true -> WalkOut.greenLed s = true)
    /\ (WalkOut.currentLedState s' = WalkOut.currentLedState s
        \/ WalkOut.currentLedState s' = WalkOut.STANDBY).
Proof.
  intros Hp Hdec Hwait Hfresh Hline. cbn zeta.
  rewrite (first_response_line v uid mode portWalkOut o io dec Hp Hdec) in Hline.
  injection Hline as Hline.
  destruct s as [millis red yellow green tones out inp lastAction lastScan present
                 lastUID lastSize waiting respTimeout exceeded led].
  cbn [WalkOut.waitingForResponse WalkOut.millis WalkOut.responseTimeout WalkOut.serialIn]
    in Hwait, Hfresh, Hline.
  subst waiting inp.
  unfold WalkOut.loop.
  cbn [WalkOut.waitingForResponse WalkOut.millis WalkOut.responseTimeout WalkOut.serialIn
       WalkOut.lastActionTime WalkOut.currentLedState].
  assert ((WalkOut.responseDelay <? usub millis respTimeout)%Z = false) as Hno
    by (apply Z.ltb_ge; exact Hfresh).
  destruct ((WalkOut.ledDelay <? usub millis lastAction)%Z
            && negb (bool_decide (led = WalkOut.STANDBY))) eqn:Estandby;
    cbn -[Z.modulo Z.pow usub Z.ltb]; rewrite Hno; cbn -[Z.modulo Z.pow usub Z.ltb];
    destruct card as [cardUid|]; [| destruct present | | destruct present];
    cbn -[Z.modulo Z.pow usub Z.ltb];
    destruct v, dec; cbn -[Z.modulo Z.pow usub Z.ltb]; repeat split; auto;
    try (intros; discriminate); try (right; reflexivity); try (left; reflexivity).
Qed.

Lemma walkout_shows_decision_witness :
  let s := WalkOut.setSerialIn ("Resident Found" ++ nl)
             (WalkOut.loop (Some [Byte.x1a; Byte.x2b; Byte.x3c; Byte.x4d])
                (WalkOut.delay 1000 WalkOut.setup)) in
  healthyPort okOracle
  /\ WalkOut.waitingForResponse s = true
  /\ WalkOut.currentLedState (WalkOut.loop None s) = WalkOut.FOUND
  /\ WalkOut.waitingForResponse (WalkOut.loop None s) = false.
Proof.
  cbn zeta.
  assert (Hp : healthyPort okOracle) by (intros k; reflexivity).
  pose proof (walkout_shows_decision part_001 "1A2B3C4D" "Walk Out" okOracle worldAssigned
                Accepted None
                (WalkOut.setSerialIn ("Resident Found" ++ nl)
                   (WalkOut.loop (Some [Byte.x1a; Byte.x2b; Byte.x3c; Byte.x4d])
                      (WalkOut.delay 1000 WalkOut.setup)))
                Hp eq_refl eq_refl) as H.
  cbn zeta in H.
  destruct H as (_ & Hled & _ & Hw).
  - vm_compute. discriminate.
  - vm_compute. reflexivity.
  - repeat apply conj; [exact Hp | reflexivity | exact Hled | exact Hw].
Defined.

(** ** The vehicle sketch: the table of card states *)

Lemma eepromRead_write e a b a' :
  Vehicle.eepromRead (Vehicle.eepromWrite e a b) a'
  = if decide (a = a' /\ (a < List.length e)%nat) then b else Vehicle.eepromRead e a'.
Proof.
  unfold Vehicle.eepromRead, Vehicle.eepromWrite. rewrite list_lookup_insert.
  destruct (decide (a = a' /\ (a < List.length e)%nat)); reflexivity.
Qed.

Lemma length_eepromWrite e a b :
  List.length (Vehicle.eepromWrite e a b) = List.length e.
Proof. apply length_insert. Qed.

Lemma slotMatches_spec e addr uid :
  Vehicle.slotMatches e addr uid = true
  <-> forall j, (j < 4)%nat -> uid !! j = Some (Vehicle.eepromRead e (addr + j)).
Proof.
  unfold Vehicle.slotMatches, Vehicle.UID_SIZE, Vehicle.matchLoop. split.
  - intros H j Hj.
    repeat match type of H with
           | (if bool_decide ?P then _ else _) = true =>
               destruct (bool_decide_reflect P); [|discriminate]
           end.
    destruct j as [|[|[|[|j]]]]; try assumption. lia.
  - intros H.
    rewrite !bool_decide_eq_true_2; [reflexivity| | | |]; apply H; lia.
Qed.

(** Two memories that agree on a slot's four cells match the same UIDs there. *)
Lemma slotMatches_ext e e' addr uid :
  (forall j, (j < 4)%nat -> Vehicle.eepromRead e' (addr + j) = Vehicle.eepromRead e (addr + j)) ->
  Vehicle.slotMatches e' addr uid = Vehicle.slotMatches e addr uid.
Proof.
  intros H. apply eq_true_iff_eq. rewrite !slotMatches_spec.
  split; intros Hm j Hj; [rewrite <- H by exact Hj | rewrite H by exact Hj]; apply Hm, Hj.
Qed.

Lemma setLoop_skip count i e uid state :
  (forall k, (i <= k < i + count)%nat -> usableSlot e uid k = false) ->
  Vehicle.setLoop count i e uid state = e.
Proof.
  revert i. induction count as [|count IH]; intros i H; [reflexivity|].
  cbn [Vehicle.setLoop]. cbn zeta.
  pose proof (H i ltac:(lia)) as Hi. unfold usableSlot in Hi.
  apply orb_false_iff in Hi. destruct Hi as [-> ->].
  apply IH. intros k Hk. apply H. lia.
Qed.

Lemma setLoop_first count i k e uid state :
  (i <= k < i + count)%nat ->
  (forall j, (i <= j < k)%nat -> usableSlot e uid j = false) ->
  Vehicle.setLoop count i e uid state
  = if Vehicle.slotMatches e (k * 5) uid || bool_decide (Vehicle.eepromRead e (k * 5) = Byte.xff)
    then Vehicle.setLoop 1 k e uid state
    else Vehicle.setLoop (i + count - S k) (S k) e uid state.
Proof.
  revert i. induction count as [|count IH]; intros i Hk Hbefore; [lia|].
  destruct (decide (i = k)) as [->|Hne].
  - replace (k + S count - S k)%nat with count by lia.
    cbn [Vehicle.setLoop]. cbn zeta.
    change (k * Vehicle.STATE_RECORD_SIZE)%nat with (k * 5)%nat.
    destruct (Vehicle.slotMatches e (k * 5) uid); [reflexivity|].
    destruct (bool_decide (Vehicle.eepromRead e (k * 5) = Byte.xff)); reflexivity.
  - cbn [Vehicle.setLoop]. cbn zeta.
    pose proof (Hbefore i ltac:(lia)) as Hi. unfold usableSlot in Hi.
    apply orb_false_iff in Hi. destruct Hi as [-> ->].
    rewrite (IH (S i)) by (try lia; intros j Hj; apply Hbefore; lia).
    replace (S i + count - S k)%nat with (i + S count - S k)%nat by lia. reflexivity.
Qed.

Lemma getLoop_first count i k e uid :
  (i <= k < i + count)%nat ->
  (forall j, (i <= j < k)%nat -> Vehicle.slotMatches e (j * 5) uid = false) ->
  Vehicle.slotMatches e (k * 5) uid = true ->
  Vehicle.getLoop count i e uid = Some (Vehicle.eepromRead e (k * 5 + 4)).
Proof.
  revert i. induction count as [|count IH]; intros i Hk Hbefore Hm; [lia|].
  cbn [Vehicle.getLoop]. cbn zeta.
  change (i * Vehicle.STATE_RECORD_SIZE)%nat with (i * 5)%nat.
  destruct (decide (i = k)) as [->|Hne].
  - rewrite Hm. reflexivity.
  - rewrite (Hbefore i) by lia. apply IH; [lia| |exact Hm].
    intros j Hj. apply Hbefore. lia.
Qed.

Lemma getLoop_none count i e uid :
  (forall k, (i <= k < i + count)%nat -> Vehicle.slotMatches e (k * 5) uid = false) ->
  Vehicle.getLoop count i e uid = None.
Proof.
  revert i. induction count as [|count IH]; intros i H; [reflexivity|].
  cbn [Vehicle.getLoop]. cbn zeta.
  change (i * Vehicle.STATE_RECORD_SIZE)%nat with (i * 5)%nat.
  rewrite (H i) by lia. apply IH. intros k Hk. apply H. lia.
Qed.

(** [getUIDState] only looks at which slots match and at their state cells. *)
Lemma getLoop_ext count i e e' uid :
  (forall k, (i <= k < i + count)%nat ->
     Vehicle.slotMatches e' (k * 5) uid = Vehicle.slotMatches e (k * 5) uid
     /\ (Vehicle.slotMatches e (k * 5) uid = true ->
         Vehicle.eepromRead e' (k * 5 + 4) = Vehicle.eepromRead e (k * 5 + 4))) ->
  Vehicle.getLoop count i e' uid = Vehicle.getLoop count i e uid.
Proof.
  revert i. induction count as [|count IH]; intros i H; [reflexivity|].
  cbn [Vehicle.getLoop]. cbn zeta.
  change (i * Vehicle.STATE_RECORD_SIZE)%nat with (i * 5)%nat.
  change Vehicle.UID_SIZE with 4%nat.
  destruct (H i ltac:(lia)) as [-> Hs].
  destruct (Vehicle.slotMatches e (i * 5) uid).
  - rewrite Hs by reflexivity. reflexivity.
  - apply IH. intros k Hk. apply H. lia.
Qed.

(** The least usable slot. *)
Lemma first_usable e uid n :
  (exists k, (k < n)%nat /\ usableSlot e uid k = true) ->
  exists k, (k < n)%nat /\ usableSlot e uid k = true
            /\ forall j, (j < k)%nat -> usableSlot e uid j = false.
Proof.
  induction n as [|n IH]; intros (k & Hk & Hu); [lia|].
  destruct (existsb (usableSlot e uid) (seq 0 n)) eqn:E.
  - apply existsb_exists in E. destruct E as (k' & Hin & Hu').
    apply in_seq in Hin.
    destruct IH as (k0 & Hk0 & Hu0 & Hmin); [exists k'; split; [lia|exact Hu']|].
    exists k0. split; [lia|]. split; assumption.
  - exists n. assert (Hall : forall j, (j < n)%nat -> usableSlot e uid j = false).
    { intros j Hj. destruct (usableSlot e uid j) eqn:Ej; [|reflexivity].
      rewrite <- E. symmetry. apply existsb_exists. exists j. split; [|exact Ej].
      apply in_seq. lia. }
    split; [lia|]. split; [|exact Hall].
    destruct (decide (k = n)) as [->|Hne]; [exact Hu|].
    rewrite Hall in Hu by lia. discriminate.
Qed.

Lemma hasUsableSlot_spec e uid :
  hasUsableSlot e uid = true <-> exists k, (k < 20)%nat /\ usableSlot e uid k = true.
Proof.
  unfold hasUsableSlot. rewrite existsb_exists. change Vehicle.MAX_PAIRED_UIDS with 20%nat.
  split; intros (k & H & Hu); exists k; (split; [|exact Hu]).
  - apply in_seq in H. lia.
  - apply in_seq. lia.
Qed.

(** What one pass of [setUIDState] over a usable slot [k] leaves: the slot
    holds [uid] and [state], and no other cell has changed. *)
Lemma setLoop_slot e uid state k :
  (k * 5 + 5 <= List.length e)%nat -> (4 <= List.length uid)%nat ->
  usableSlot e uid k = true ->
  let e' := Vehicle.setLoop 1 k e uid state in
  Vehicle.slotMatches e' (k * 5) uid = true
  /\ Vehicle.eepromRead e' (k * 5 + 4) = state
  /\ List.length e' = List.length e
  /\ (forall a, (a < k * 5 \/ k * 5 + 5 <= a)%nat ->
        Vehicle.eepromRead e' a = Vehicle.eepromRead e a)
  /\ (Vehicle.slotMatches e (k * 5) uid = false ->
      Vehicle.eepromRead e (k * 5) = Byte.xff).
Proof.
  intros Hlen Huid Hu. cbn zeta. unfold usableSlot in Hu.
  change (k * Vehicle.STATE_RECORD_SIZE)%nat with (k * 5)%nat in Hu.
  cbn [Vehicle.setLoop]. cbn zeta.
  change (k * Vehicle.STATE_RECORD_SIZE)%nat with (k * 5)%nat.
  change Vehicle.UID_SIZE with 4%nat.
  destruct (Vehicle.slotMatches e (k * 5) uid) eqn:Em.
  - repeat apply conj.
    + rewrite <- Em. apply slotMatches_ext. intros j Hj.
      rewrite eepromRead_write. destruct (decide _) as [[? ?]|]; [lia|reflexivity].
    + rewrite eepromRead_write. destruct (decide _) as [|n]; [reflexivity|].
      exfalso. apply n. split; lia.
    + apply length_eepromWrite.
    + intros a Ha. rewrite eepromRead_write.
      destruct (decide _) as [[? ?]|]; [lia|reflexivity].
    + discriminate.
  - cbn [orb] in Hu. rewrite Hu. apply bool_decide_eq_true in Hu.
    destruct uid as [|b0 [|b1 [|b2 [|b3 rest]]]]; cbn [List.length] in Huid; try lia.
    cbn [Vehicle.storeLoop lookup list_lookup].
    repeat apply conj.
    + apply slotMatches_spec. intros j Hj.
      rewrite !eepromRead_write, !length_eepromWrite.
      destruct j as [|[|[|[|j]]]]; try lia; cbn [lookup list_lookup];
        repeat (destruct (decide _) as [[? ?]|?]; try lia); try reflexivity;
        exfalso; match goal with n : ~ _ |- _ => apply n; split; lia end.
    + rewrite eepromRead_write, !length_eepromWrite.
      destruct (decide _) as [|n]; [reflexivity|]. exfalso. apply n. split; lia.
    + rewrite !length_eepromWrite. reflexivity.
    + intros a Ha. rewrite !eepromRead_write, !length_eepromWrite.
      repeat (destruct (decide _) as [[? ?]|?]; try lia). reflexivity.
    + intros _. exact Hu.
Qed.


(** A slot other than [k] reads the same after the pass over slot [k]. *)
Lemma other_slot_kept e e' k j uid :
  (forall a, (a < k * 5 \/ k * 5 + 5 <= a)%nat ->
     Vehicle.eepromRead e' a = Vehicle.eepromRead e a) ->
  j <> k ->
  Vehicle.slotMatches e' (j * 5) uid = Vehicle.slotMatches e (j * 5) uid
  /\ Vehicle.eepromRead e' (j * 5 + 4) = Vehicle.eepromRead e (j * 5 + 4).
Proof.
  intros Hframe Hne. split.
  - apply slotMatches_ext. intros i Hi. apply Hframe. lia.
  - apply Hframe. lia.
Qed.

(** With a usable slot, [setUIDState] records the state where
    [getUIDState] finds it, and the card has a slot from then on. *)
Lemma setUIDState_recorded e uid state :
  (100 <= List.length e)%nat -> (4 <= List.length uid)%nat ->
  hasUsableSlot e uid = true ->
  Vehicle.getUIDState (Vehicle.setUIDState e uid state) uid = Some state
  /\ List.length (Vehicle.setUIDState e uid state) = List.length e
  /\ hasUsableSlot (Vehicle.setUIDState e uid state) uid = true.
Proof.
  intros Hlen Huid Eu.
  apply hasUsableSlot_spec in Eu. apply first_usable in Eu.
  destruct Eu as (k & Hk & Hu & Hmin).
  unfold Vehicle.setUIDState, Vehicle.getUIDState.
  change Vehicle.MAX_PAIRED_UIDS with 20%nat.
  rewrite (setLoop_first 20 0 k) by (try lia; intros j Hj; apply Hmin; lia).
  pose proof Hu as Hu'. unfold usableSlot in Hu'.
  change (k * Vehicle.STATE_RECORD_SIZE)%nat with (k * 5)%nat in Hu'. rewrite Hu'.
  destruct (setLoop_slot e uid state k ltac:(lia) Huid Hu) as (Hm & Hs & Hl & Hframe & _).
  repeat apply conj.
  - rewrite (getLoop_first 20 0 k); [rewrite Hs; reflexivity|lia| |exact Hm].
    intros j Hj.
    destruct (other_slot_kept e _ k j uid Hframe ltac:(lia)) as [-> _].
    pose proof (Hmin j ltac:(lia)) as Hj'. unfold usableSlot in Hj'.
    apply orb_false_iff in Hj'. apply Hj'.
  - exact Hl.
  - apply hasUsableSlot_spec. exists k. split; [exact Hk|].
    unfold usableSlot. change (k * Vehicle.STATE_RECORD_SIZE)%nat with (k * 5)%nat.
    rewrite Hm. reflexivity.
Qed.

(** Reading back what [setUIDState] wrote.  For a memory
    that has the table's 100 cells and a UID array of at least four bytes:
    when one of the 20 slots holds the UID or has an erased first cell,
    [getUIDState] after [setUIDState uid state] finds the UID with that
    state; when none does (the table is full of other cards),
    [setUIDState] changes nothing and [getUIDState] still does not find
    the UID, so that the entry board lets the card in and the exit board
    does not let it out. *)
Theorem eeprom_state_round_trip (e : Vehicle.Eeprom) (uid : list Byte.byte)
    (state : Byte.byte) :
  (100 <= List.length e)%nat ->
  (4 <= List.length uid)%nat ->
  if hasUsableSlot e uid then
    Vehicle.getUIDState (Vehicle.setUIDState e uid state) uid = Some state
  else
    Vehicle.setUIDState e uid state = e
    /\ Vehicle.getUIDState e uid = None
    /\ Vehicle.allow true e uid = true
    /\ Vehicle.allow false e uid = false.
Proof.
  intros Hlen Huid. destruct (hasUsableSlot e uid) eqn:Eu.
  - apply (setUIDState_recorded e uid state Hlen Huid Eu).
  - assert (Hnone : forall k, (0 <= k < 0 + 20)%nat -> usableSlot e uid k = false).
    { intros k Hk. destruct (usableSlot e uid k) eqn:Ek; [|reflexivity].
      rewrite <- Eu. symmetry. apply hasUsableSlot_spec. exists k. split; [lia|exact Ek]. }
    assert (Hget : Vehicle.getUIDState e uid = None).
    { apply getLoop_none. intros k Hk. pose proof (Hnone k Hk) as H.
      unfold usableSlot in H. apply orb_false_iff in H. apply H. }
    split; [apply setLoop_skip; exact Hnone|]. split; [exact Hget|].
    unfold Vehicle.allow. rewrite Hget. split; reflexivity.
Qed.

Lemma eeprom_state_round_trip_witness :
  (100 <= List.length (replicate 100 Byte.xff))%nat
  /\ (4 <= List.length [Byte.x1a; Byte.x2b; Byte.x3c; Byte.x4d])%nat
  /\ Vehicle.getUIDState
       (Vehicle.setUIDState (replicate 100 Byte.xff) [Byte.x1a; Byte.x2b; Byte.x3c; Byte.x4d]
          Vehicle.STATE_INSIDE)
       [Byte.x1a; Byte.x2b; Byte.x3c; Byte.x4d]
     = Some Vehicle.STATE_INSIDE.
Proof.
  assert (H1 : (100 <= List.length (replicate 100 Byte.xff))%nat) by (vm_compute; lia).
  assert (H2 : (4 <= List.length [Byte.x1a; Byte.x2b; Byte.x3c; Byte.x4d])%nat)
    by (vm_compute; lia).
  split; [exact H1|]. split; [exact H2|].
  exact (eeprom_state_round_trip (replicate 100 Byte.xff)
           [Byte.x1a; Byte.x2b; Byte.x3c; Byte.x4d] Vehicle.STATE_INSIDE H1 H2).
Defined.

(** Recording one card leaves the others alone.  For a
    memory that has the table's 100 cells: [setUIDState] for one UID does
    not change what [getUIDState] answers for a UID that differs from it
    in one of the first four bytes and whose first byte is not 0xFF (a
    slot that starts with 0xFF counts as empty and is taken over). *)
Theorem eeprom_other_cards_kept (e : Vehicle.Eeprom) (uid other : list Byte.byte)
    (state : Byte.byte) :
  (100 <= List.length e)%nat ->
  (4 <= List.length uid)%nat ->
  take 4 other <> take 4 uid ->
  other !! 0%nat <> Some Byte.xff ->
  Vehicle.getUIDState (Vehicle.setUIDState e uid state) other = Vehicle.getUIDState e other.
Proof.
  intros Hlen Huid Hdiff Hff. destruct (hasUsableSlot e uid) eqn:Eu.
  - apply hasUsableSlot_spec in Eu. apply first_usable in Eu.
    destruct Eu as (k & Hk & Hu & Hmin).
    unfold Vehicle.setUIDState, Vehicle.getUIDState.
    change Vehicle.MAX_PAIRED_UIDS with 20%nat.
    rewrite (setLoop_first 20 0 k) by (try lia; intros j Hj; apply Hmin; lia).
    pose proof Hu as Hu'. unfold usableSlot in Hu'.
    change (k * Vehicle.STATE_RECORD_SIZE)%nat with (k * 5)%nat in Hu'. rewrite Hu'.
    destruct (setLoop_slot e uid state k ltac:(lia) Huid Hu) as (Hm & _ & _ & Hframe & Hempty).
    assert (Hboth : forall e0, Vehicle.slotMatches e0 (k * 5) uid = true ->
                               Vehicle.slotMatches e0 (k * 5) other = false).
    { intros e0 Hm0. destruct (Vehicle.slotMatches e0 (k * 5) other) eqn:Eo; [|reflexivity].
      exfalso. apply Hdiff. apply list_eq. intros i. rewrite !lookup_take.
      destruct (decide (i < 4)%nat) as [Hi|Hi]; [|reflexivity].
      rewrite (proj1 (slotMatches_spec _ _ _) Hm0 i Hi).
      apply (proj1 (slotMatches_spec _ _ _) Eo i Hi). }
    apply getLoop_ext. intros j Hj.
    destruct (decide (j = k)) as [->|Hne].
    + rewrite (Hboth _ Hm).
      destruct (Vehicle.slotMatches e (k * 5) uid) eqn:Em.
      * rewrite (Hboth _ Em). split; [reflexivity|discriminate].
      * destruct (Vehicle.slotMatches e (k * 5) other) eqn:Eo.
        -- exfalso. apply Hff.
           rewrite (proj1 (slotMatches_spec _ _ _) Eo 0%nat ltac:(lia)).
           rewrite Nat.add_0_r, (Hempty eq_refl). reflexivity.
        -- split; [reflexivity|discriminate].
    + destruct (other_slot_kept e _ k j other Hframe Hne) as [-> ->].
      split; [reflexivity|intros _; reflexivity].
  - rewrite (setLoop_skip 20 0); [reflexivity|].
    intros k Hk. destruct (usableSlot e uid k) eqn:Ek; [|reflexivity].
    rewrite <- Eu. symmetry. apply hasUsableSlot_spec. exists k. split; [lia|exact Ek].
Qed.

Lemma eeprom_other_cards_kept_witness :
  let e := Vehicle.setUIDState (replicate 100 Byte.xff)
             [Byte.x0b; Byte.xad; Byte.xf0; Byte.x0d] Vehicle.STATE_INSIDE in
  Vehicle.getUIDState
    (Vehicle.setUIDState e [Byte.x1a; Byte.x2b; Byte.x3c; Byte.x4d] Vehicle.STATE_INSIDE)
    [Byte.x0b; Byte.xad; Byte.xf0; Byte.x0d]
  = Some Vehicle.STATE_INSIDE.
Proof.
  cbn zeta.
  rewrite (eeprom_other_cards_kept _ [Byte.x1a; Byte.x2b; Byte.x3c; Byte.x4d]
             [Byte.x0b; Byte.xad; Byte.xf0; Byte.x0d] Vehicle.STATE_INSIDE).
  - vm_compute. reflexivity.
  - vm_compute. lia.
  - vm_compute. lia.
  - vm_compute. discriminate.
  - vm_compute. discriminate.
Defined.


(** ** The vehicle sketch: events between the boards *)

Lemma append_assoc' (s t u : string) : ((s ++ t) ++ u)%string = (s ++ (t ++ u))%string.
Proof.
  induction s as [|c s IH]; [rewrite !append_nil; reflexivity|].
  rewrite !append_cons, IH. reflexivity.
Qed.

Lemma hasChar_allChars c p s :
  p c = false -> allChars p s = true -> hasChar c s = false.
Proof.
  intros Hc. induction s as [|c' s IH]; [reflexivity|]. cbn [allChars hasChar].
  intros H. apply andb_true_iff in H. destruct H as [Hp Hs].
  rewrite (IH Hs), orb_false_r. destruct (Ascii.eqb_spec c' c) as [->|]; [|reflexivity].
  congruence.
Qed.

Lemma readStringUntil_app c s t :
  hasChar c s = false ->
  readStringUntil c (s ++ t) = (let (a, r) := readStringUntil c t in ((s ++ a)%string, r)).
Proof.
  induction s as [|c' s IH]; intros H.
  - rewrite append_nil. destruct (readStringUntil c t). rewrite append_nil. reflexivity.
  - cbn [hasChar] in H. apply orb_false_iff in H. destruct H as [Hc Hs].
    rewrite append_cons. cbn [readStringUntil]. rewrite Hc, (IH Hs).
    destruct (readStringUntil c t). rewrite append_cons. reflexivity.
Qed.

Lemma dropTrailingSpace_app s t :
  dropTrailingSpace t <> EmptyString ->
  dropTrailingSpace (s ++ t) = (s ++ dropTrailingSpace t)%string.
Proof.
  intros Ht. induction s as [|c s IH]; [rewrite !append_nil; reflexivity|].
  rewrite !append_cons. cbn [dropTrailingSpace]. rewrite IH.
  destruct (s ++ dropTrailingSpace t)%string eqn:E; [|reflexivity].
  exfalso. destruct s; [rewrite append_nil in E; contradiction|].
  rewrite append_cons in E. discriminate.
Qed.

Lemma indexOf_app c s t :
  hasChar c s = false ->
  Vehicle.indexOf c (s ++ String c t) = Some (String.length s).
Proof.
  induction s as [|c' s IH]; intros H.
  - rewrite append_nil. cbn [Vehicle.indexOf]. rewrite Ascii.eqb_refl. reflexivity.
  - cbn [hasChar] in H. apply orb_false_iff in H. destruct H as [Hc Hs].
    rewrite append_cons. cbn [Vehicle.indexOf String.length]. rewrite Hc, (IH Hs). reflexivity.
Qed.

Lemma substring_skip p n s :
  String.substring (String.length p) n (p ++ s) = String.substring 0 n s.
Proof.
  induction p as [|c p IH]; [rewrite append_nil; reflexivity|].
  rewrite append_cons. cbn [String.length String.substring]. exact IH.
Qed.

Lemma substring_prefix m s :
  String.substring 0 (String.length m) (m ++ s) = m.
Proof.
  induction m as [|c m IH].
  - rewrite append_nil. destruct s; reflexivity.
  - rewrite append_cons. cbn [String.length String.substring]. rewrite IH. reflexivity.
Qed.

Lemma arduinoSubstring_middle p m s :
  Vehicle.arduinoSubstring (p ++ m ++ s) (String.length p) (String.length p + String.length m)
  = m.
Proof.
  unfold Vehicle.arduinoSubstring.
  destruct (Nat.ltb_spec (String.length p + String.length m) (String.length p)); [lia|].
  rewrite !length_append.
  destruct (Nat.leb_spec (String.length p + (String.length m + String.length s))
              (String.length p)) as [Hle|Hlt].
  - destruct m; [reflexivity|]. cbn [String.length] in Hle. lia.
  - destruct (Nat.ltb_spec (String.length p + (String.length m + String.length s))
                (String.length p + String.length m)); [lia|].
    replace (String.length p + String.length m - String.length p)%nat
      with (String.length m) by lia.
    rewrite substring_skip. apply substring_prefix.
Qed.

Lemma arduinoSubstring_tail p s :
  Vehicle.arduinoSubstring (p ++ s) (String.length p) (String.length (p ++ s)) = s.
Proof.
  pose proof (arduinoSubstring_middle p s EmptyString) as H.
  assert (Hnil : forall u : string, (u ++ EmptyString)%string = u).
  { induction u as [|c u IH]; [apply append_nil|]. rewrite append_cons, IH. reflexivity. }
  rewrite Hnil in H. rewrite length_append. exact H.
Qed.

(** Two digits of [printByteHex] are read back by [strtoul]. *)
Lemma printByteHex_two b :
  exists h l, printByteHex b = String h (String l EmptyString).
Proof. destruct b; vm_compute; do 2 eexists; reflexivity. Qed.

Lemma strtoul_printByteHex b :
  Vehicle.toByte (Vehicle.strtoul16 (printByteHex b)) = b.
Proof. destruct b; vm_compute; reflexivity. Qed.

Lemma decodeLoop_printUID b0 b1 b2 b3 rest :
  Vehicle.decodeLoop Vehicle.UID_SIZE 0 (printUID (b0 :: b1 :: b2 :: b3 :: rest))
  = [b0; b1; b2; b3].
Proof.
  cbn [printUID].
  rewrite <- (strtoul_printByteHex b0) at 2. rewrite <- (strtoul_printByteHex b1) at 2.
  rewrite <- (strtoul_printByteHex b2) at 2. rewrite <- (strtoul_printByteHex b3) at 2.
  destruct (printByteHex_two b0) as (h0 & l0 & ->).
  destruct (printByteHex_two b1) as (h1 & l1 & ->).
  destruct (printByteHex_two b2) as (h2 & l2 & ->).
  destruct (printByteHex_two b3) as (h3 & l3 & ->).
  rewrite !append_cons, !append_nil.
  unfold Vehicle.UID_SIZE, Vehicle.decodeLoop, Vehicle.arduinoSubstring.
  cbn [Nat.mul Nat.add Nat.ltb Nat.leb String.length String.substring Nat.sub].
  assert (H00 : forall u, String.substring 0 0 u = EmptyString) by (intros [|? ?]; reflexivity).
  rewrite H00. reflexivity.
Qed.

(** [setUIDState] looks at the first four bytes of the array only. *)
Lemma slotMatches_take e addr uid :
  Vehicle.slotMatches e addr (take 4 uid) = Vehicle.slotMatches e addr uid.
Proof.
  apply eq_true_iff_eq. rewrite !slotMatches_spec.
  split; intros H j Hj; specialize (H j Hj); rewrite lookup_take in *;
    destruct (decide (j < 4)%nat); try lia; exact H.
Qed.

Lemma setLoop_take count i e uid state :
  Vehicle.setLoop count i e (take 4 uid) state = Vehicle.setLoop count i e uid state.
Proof.
  revert i. induction count as [|count IH]; intros i; [reflexivity|].
  cbn [Vehicle.setLoop]. cbn zeta. rewrite slotMatches_take, IH.
  destruct uid as [|b0 [|b1 [|b2 [|b3 rest]]]]; reflexivity.
Qed.


Lemma hasChar_app c s t : hasChar c (s ++ t) = hasChar c s || hasChar c t.
Proof.
  induction s as [|c' s IH]; [rewrite append_nil; reflexivity|].
  rewrite append_cons. cbn [hasChar]. rewrite IH, orb_assoc. reflexivity.
Qed.

Lemma readStringUntil_line c s t :
  hasChar c s = false -> readStringUntil c (s ++ String c t) = (s, t).
Proof.
  intros H. rewrite (readStringUntil_app c s _ H). cbn [readStringUntil].
  rewrite Ascii.eqb_refl.
  assert (Hnil : forall u : string, (u ++ EmptyString)%string = u).
  { induction u as [|c' u IH]; [apply append_nil|]. rewrite append_cons, IH. reflexivity. }
  rewrite Hnil. reflexivity.
Qed.

(** What [processIncomingEvent] makes of a well-formed event line. *)
Lemma processIncomingEvent_line e U eventType :
  hasChar "," U = false ->
  Vehicle.processIncomingEvent e ("EVENT:" ++ U ++ String "," eventType)
  = let uid := Vehicle.decodeLoop Vehicle.UID_SIZE 0 U in
    if String.eqb eventType "VEHICLE_ENTRY" || String.eqb eventType "WALKIN_ENTRY" then
      Vehicle.setUIDState e uid Vehicle.STATE_INSIDE
    else if String.eqb eventType "VEHICLE_EXIT" || String.eqb eventType "WALKIN_EXIT" then
      Vehicle.setUIDState e uid Vehicle.STATE_OUTSIDE
    else e.
Proof.
  intros Hcomma. unfold Vehicle.processIncomingEvent.
  assert (Hstart : Vehicle.startsWith ("EVENT:" ++ U ++ String "," eventType) "EVENT:" = true).
  { unfold Vehicle.startsWith. apply String.prefix_correct. apply substring_prefix. }
  rewrite Hstart. cbn [negb].
  assert (Hidx : Vehicle.indexOf "," ("EVENT:" ++ U ++ String "," eventType)
                 = Some (String.length "EVENT:" + String.length U)%nat).
  { rewrite <- append_assoc', indexOf_app, length_append; [reflexivity|].
    rewrite hasChar_app, Hcomma. reflexivity. }
  assert (Huid : Vehicle.arduinoSubstring ("EVENT:" ++ U ++ String "," eventType) 6
                   (String.length "EVENT:" + String.length U) = U)
    by apply (arduinoSubstring_middle "EVENT:" U (String "," eventType)).
  assert (Htype : Vehicle.arduinoSubstring ("EVENT:" ++ U ++ String "," eventType)
                    (String.length "EVENT:" + String.length U + 1)
                    (String.length ("EVENT:" ++ U ++ String "," eventType)) = eventType).
  { replace (String.length "EVENT:" + String.length U + 1)%nat
      with (String.length ("EVENT:" ++ U ++ ",")) by (rewrite !length_append; reflexivity).
    replace ("EVENT:" ++ U ++ String "," eventType)%string
      with (("EVENT:" ++ U ++ ",") ++ eventType)%string.
    - apply arduinoSubstring_tail.
    - rewrite !append_assoc'. rewrite (append_cons "," EmptyString eventType), append_nil.
      reflexivity. }
  rewrite Hidx. cbn zeta. rewrite Huid, Htype. reflexivity.
Qed.

Lemma readEvent_line e line rest :
  hasChar LF line = false -> line <> EmptyString ->
  Vehicle.readEvent e (line ++ String LF rest)
  = (Vehicle.processIncomingEvent e (arduinoTrim line), rest).
Proof.
  intros Hlf Hne. unfold Vehicle.readEvent.
  destruct (line ++ String LF rest)%string eqn:Estream.
  { exfalso. destruct line; [contradiction|]. rewrite append_cons in Estream. discriminate. }
  rewrite <- Estream, (readStringUntil_line _ _ _ Hlf). reflexivity.
Qed.

(** The line [sendEventToOtherArduino] prints, and what is left of it after
    [trim]. *)
Lemma sent_event_line uid deviceModeEntry userTypeVehicle :
  let eventType := eventTypeOf deviceModeEntry userTypeVehicle in
  let line := ("EVENT:" ++ printUID uid ++ String "," (eventType ++ String CR EmptyString))%string in
  Vehicle.sendEventToOtherArduino EmptyString uid eventType
  = (line ++ String LF EmptyString)%string
  /\ hasChar LF line = false
  /\ arduinoTrim line = ("EVENT:" ++ printUID uid ++ String "," eventType)%string
  /\ hasChar "," (printUID uid) = false.
Proof.
  cbn zeta. destruct (printUID_digits uid) as [_ Hdigits].
  assert (Hlf : hasChar LF (printUID uid) = false)
    by (apply (hasChar_allChars _ isUpperHexDigit); [reflexivity|exact Hdigits]).
  assert (Hcomma : hasChar "," (printUID uid) = false)
    by (apply (hasChar_allChars _ isUpperHexDigit); [reflexivity|exact Hdigits]).
  set (eventType := eventTypeOf deviceModeEntry userTypeVehicle).
  assert (Hev : hasChar LF (String "," (eventType ++ String CR EmptyString)) = false)
    by (destruct deviceModeEntry, userTypeVehicle; reflexivity).
  assert (Htrim : dropTrailingSpace (String "," (eventType ++ String CR EmptyString))
                  = String "," eventType)
    by (destruct deviceModeEntry, userTypeVehicle; reflexivity).
  repeat apply conj.
  - unfold Vehicle.sendEventToOtherArduino, serialPrint, serialPrintln, CRLF.
    subst eventType.
    destruct deviceModeEntry, userTypeVehicle; cbn [eventTypeOf];
      rewrite !append_assoc'; repeat (rewrite ?append_cons, ?append_nil); reflexivity.
  - rewrite !hasChar_app, Hlf, Hev. reflexivity.
  - unfold arduinoTrim.
    replace (skipSpace ("EVENT:" ++ printUID uid
                        ++ String "," (eventType ++ String CR EmptyString)))
      with ("EVENT:" ++ printUID uid ++ String "," (eventType ++ String CR EmptyString))%string
      by (rewrite !append_cons; reflexivity).
    rewrite <- append_assoc', dropTrailingSpace_app by (rewrite Htrim; discriminate).
    rewrite Htrim, append_assoc'. reflexivity.
  - exact Hcomma.
Qed.

Lemma decoded_uid e uid state :
  (4 <= List.length uid)%nat ->
  Vehicle.setUIDState e (Vehicle.decodeLoop Vehicle.UID_SIZE 0 (printUID uid)) state
  = Vehicle.setUIDState e uid state.
Proof.
  intros Huid.
  destruct uid as [|b0 [|b1 [|b2 [|b3 rest]]]]; cbn [List.length] in Huid; try lia.
  rewrite decodeLoop_printUID. unfold Vehicle.setUIDState.
  rewrite <- (setLoop_take _ _ _ (b0 :: b1 :: b2 :: b3 :: rest)). reflexivity.
Qed.

(** The peer records what the sender recorded.  A board that allows a scan
    writes the card's new state into its own table and prints an event
    line; the other board, reading that line, applies [setUIDState] to its
    table with the same UID bytes and the same state, whatever the two
    macros [DEVICE_MODE_ENTRY] and [USER_TYPE_VEHICLE] are and for any UID
    of at least four bytes (longer UIDs are cut to their first four bytes
    on both sides), and the line is consumed whole. *)
Theorem peer_records_same_state (e : Vehicle.Eeprom) (uid : list Byte.byte)
    (deviceModeEntry userTypeVehicle : bool) :
  (4 <= List.length uid)%nat ->
  Vehicle.readEvent e
    (Vehicle.sendEventToOtherArduino EmptyString uid
       (eventTypeOf deviceModeEntry userTypeVehicle))
  = (Vehicle.setUIDState e uid (recordedState deviceModeEntry), EmptyString).
Proof.
  intros Huid.
  destruct (sent_event_line uid deviceModeEntry userTypeVehicle) as (Hline & Hlf & Htrim & Hcomma).
  rewrite Hline, readEvent_line; [|exact Hlf|rewrite append_cons; discriminate].
  rewrite Htrim, (processIncomingEvent_line e _ _ Hcomma). cbn zeta.
  rewrite <- (decoded_uid e uid (recordedState deviceModeEntry) Huid).
  destruct deviceModeEntry, userTypeVehicle; reflexivity.
Qed.

Lemma peer_records_same_state_witness :
  (4 <= List.length [Byte.x1a; Byte.x2b; Byte.x3c; Byte.x4d])%nat
  /\ fst (Vehicle.readEvent (replicate 100 Byte.xff)
            (Vehicle.sendEventToOtherArduino EmptyString
               [Byte.x1a; Byte.x2b; Byte.x3c; Byte.x4d] "VEHICLE_ENTRY"))
     = ([Byte.x1a; Byte.x2b; Byte.x3c; Byte.x4d; Byte.x01] ++ replicate 95 Byte.xff)%list.
Proof.
  assert (H4 : (4 <= List.length [Byte.x1a; Byte.x2b; Byte.x3c; Byte.x4d])%nat)
    by (vm_compute; lia).
  split; [exact H4|].
  pose proof (peer_records_same_state (replicate 100 Byte.xff)
                [Byte.x1a; Byte.x2b; Byte.x3c; Byte.x4d] true true H4) as H.
  change (eventTypeOf true true) with "VEHICLE_ENTRY" in H.
  rewrite H. vm_compute. reflexivity.
Defined.

(** A card that was let in is refused until its exit event arrives.  On the
    entry board ([DEVICE_MODE_ENTRY] true), with a memory that has the
    table's 100 cells, a UID of at least four bytes and a slot the card
    can use: once the board has recorded an allowed scan, [allow] refuses
    the same card; after the board has read the event line the exit board
    prints for that card, [allow] lets it in again. *)
Theorem entry_refused_until_exit_event (e : Vehicle.Eeprom) (uid : list Byte.byte)
    (userTypeVehicle : bool) :
  (100 <= List.length e)%nat ->
  (4 <= List.length uid)%nat ->
  hasUsableSlot e uid = true ->
  let entered := Vehicle.setUIDState e uid (recordedState true) in
  let left := fst (Vehicle.readEvent entered
                     (Vehicle.sendEventToOtherArduino EmptyString uid
                        (eventTypeOf false userTypeVehicle))) in
  Vehicle.allow true entered uid = false
  /\ Vehicle.allow true left uid = true.
Proof.
  intros Hlen Huid Hslot. cbn zeta.
  destruct (setUIDState_recorded e uid (recordedState true) Hlen Huid Hslot)
    as (Hget & Hlen' & Hslot').
  split.
  - unfold Vehicle.allow. rewrite Hget. reflexivity.
  - destruct (sent_event_line uid false userTypeVehicle) as (Hline & Hlf & Htrim & Hcomma).
    rewrite Hline, readEvent_line; [|exact Hlf|rewrite append_cons; discriminate].
    cbn [fst]. rewrite Htrim, (processIncomingEvent_line _ _ _ Hcomma). cbn zeta.
    assert (Hexit : forall e0 u,
              (if String.eqb (eventTypeOf false userTypeVehicle) "VEHICLE_ENTRY"
                  || String.eqb (eventTypeOf false userTypeVehicle) "WALKIN_ENTRY"
               then Vehicle.setUIDState e0 u Vehicle.STATE_INSIDE
               else if String.eqb (eventTypeOf false userTypeVehicle) "VEHICLE_EXIT"
                       || String.eqb (eventTypeOf false userTypeVehicle) "WALKIN_EXIT"
                    then Vehicle.setUIDState e0 u Vehicle.STATE_OUTSIDE
                    else e0)
              = Vehicle.setUIDState e0 u Vehicle.STATE_OUTSIDE)
      by (intros e0 u; destruct userTypeVehicle; reflexivity).
    rewrite Hexit, decoded_uid by exact Huid.
    destruct (setUIDState_recorded _ uid Vehicle.STATE_OUTSIDE
                ltac:(rewrite Hlen'; exact Hlen) Huid Hslot') as (Hget2 & _ & _).
    unfold Vehicle.allow. rewrite Hget2. reflexivity.
Qed.

Lemma entry_refused_until_exit_event_witness :
  let uid := [Byte.x1a; Byte.x2b; Byte.x3c; Byte.x4d] in
  let e := replicate 100 Byte.xff in
  (100 <= List.length e)%nat
  /\ (4 <= List.length uid)%nat
  /\ hasUsableSlot e uid = true
  /\ Vehicle.allow true e uid = true
  /\ Vehicle.allow true (Vehicle.setUIDState e uid (recordedState true)) uid = false.
Proof.
  cbn zeta.
  assert (H1 : (100 <= List.length (replicate 100 Byte.xff))%nat) by (vm_compute; lia).
  assert (H2 : (4 <= List.length [Byte.x1a; Byte.x2b; Byte.x3c; Byte.x4d])%nat)
    by (vm_compute; lia).
  assert (H3 : hasUsableSlot (replicate 100 Byte.xff)
                 [Byte.x1a; Byte.x2b; Byte.x3c; Byte.x4d] = true) by reflexivity.
  repeat apply conj; [exact H1|exact H2|exact H3|reflexivity|].
  exact (proj1 (entry_refused_until_exit_event _ _ true H1 H2 H3)).
Defined.


(** ** The walk-in sketch and the server's answers *)




(** ** The assignment sketch and the enrollment handler *)

(** Whatever the store and the port do, a line that reaches the enrollment
    port is one of the handler's four. *)
Lemma enrollment_line v data o io line :
  head (linesWritten portAssign (effects (onAssignDataOf v data o io))) = Some line ->
  line ∈ assignResponses.
Proof.
  pose proof (onAssignData_footprint v data o io) as Hf.
  induction Hf as [|e t He Ht IH]; [discriminate|].
  destruct e as [p m [|]| | | |]; cbn; try exact IH.
  destruct He as [-> Hm]. rewrite decide_True by reflexivity.
  cbn. intros Heq. injection Heq as <-. exact Hm.
Qed.




(** ** What the sketches print, as the server reads it *)

Lemma append_nil_r (s : string) : (s ++ EmptyString)%string = s.
Proof. induction s as [|c s IH]; [apply append_nil|]. rewrite append_cons, IH. reflexivity. Qed.

Lemma printedLines_app l1 l2 :
  printedLines (l1 ++ l2) = (printedLines l1 ++ printedLines l2)%string.
Proof.
  induction l1 as [|l l1 IH]; [rewrite append_nil; reflexivity|].
  cbn [app printedLines fold_right]. fold (printedLines (l1 ++ l2)). fold (printedLines l1).
  rewrite IH, !append_assoc'. reflexivity.
Qed.

Lemma parserLines_line line rest :
  hasChar LF line = false ->
  parserLines (line ++ CRLF ++ rest)
  = (let (lines, tail) := parserLines rest in ((line ++ String CR EmptyString)%string :: lines, tail)).
Proof.
  intros H. induction line as [|c line IH].
  - rewrite !append_nil. unfold CRLF. rewrite !append_cons, append_nil.
    cbn [parserLines]. destruct (parserLines rest) as [lines tail]. reflexivity.
  - cbn [hasChar] in H. apply orb_false_iff in H. destruct H as [Hc Hl].
    rewrite !append_cons. cbn [parserLines]. rewrite (IH Hl).
    destruct (parserLines rest) as [lines tail]. rewrite Hc. reflexivity.
Qed.

Lemma parserLines_printed lines :
  Forall (fun line => hasChar LF line = false) lines ->
  parserLines (printedLines lines)
  = (map (fun line => (line ++ String CR EmptyString)%string) lines, EmptyString).
Proof.
  induction 1 as [|line lines Hl _ IH]; [reflexivity|].
  cbn [printedLines fold_right map]. fold (printedLines lines).
  rewrite (parserLines_line _ _ Hl), IH. reflexivity.
Qed.

Lemma printsOnly_refl card out : printsOnly card out out.
Proof. exists []. split; [symmetry; apply append_nil_r|constructor]. Qed.

Lemma printsOnly_trans card out1 out2 out3 :
  printsOnly card out1 out2 -> printsOnly card out2 out3 -> printsOnly card out1 out3.
Proof.
  intros (l1 & -> & H1) (l2 & -> & H2). exists (l1 ++ l2)%list. split.
  - rewrite printedLines_app, append_assoc'. reflexivity.
  - apply Forall_app. split; assumption.
Qed.

Lemma printsOnly_println card out out' line :
  printsOnly card out out' -> wireLine card line ->
  printsOnly card out (serialPrintln out' line).
Proof.
  intros H Hl. apply (printsOnly_trans _ _ out'); [exact H|].
  exists [line]. split; [|constructor; [exact Hl|constructor]].
  unfold serialPrintln. cbn [printedLines fold_right]. rewrite append_nil_r. reflexivity.
Qed.

(** A line that starts with a character the validator refuses. *)
Lemma refused_by_first_char c line :
  isHexDigit c = false -> isWhiteSpace c = false ->
  uidRegex_test (trim (String c line)) = false.
Proof.
  intros Hh Hw. unfold trim. cbn [trimStart]. rewrite Hw, (trimEnd_cons _ _ Hw).
  unfold uidRegex_test. cbn [hexRun]. rewrite Hh. reflexivity.
Qed.

Lemma hasChar_readStringUntil c s : hasChar c (readStringUntil c s).1 = false.
Proof.
  induction s as [|c' s IH]; [reflexivity|]. cbn [readStringUntil].
  destruct (Ascii.eqb c' c) eqn:E; [reflexivity|].
  destruct (readStringUntil c s) as [a r]. cbn [fst hasChar] in *. rewrite E, IH. reflexivity.
Qed.

Lemma hasChar_skipSpace c s : hasChar c s = false -> hasChar c (skipSpace s) = false.
Proof.
  induction s as [|c' s IH]; [reflexivity|]. intros H. cbn [skipSpace].
  destruct (isspace c'); [|exact H].
  cbn [hasChar] in H. apply orb_false_iff in H. apply IH, H.
Qed.

Lemma hasChar_dropTrailingSpace c s :
  hasChar c s = false -> hasChar c (dropTrailingSpace s) = false.
Proof.
  induction s as [|c' s IH]; [reflexivity|]. intros H.
  cbn [hasChar] in H. apply orb_false_iff in H. destruct H as [Hc Hs].
  cbn [dropTrailingSpace]. specialize (IH Hs).
  destruct (dropTrailingSpace s) as [|c'' t].
  - destruct (isspace c'); [reflexivity|]. cbn [hasChar]. rewrite Hc. reflexivity.
  - cbn [hasChar] in *. rewrite Hc, IH. reflexivity.
Qed.

Lemma hasChar_arduinoTrim c s : hasChar c s = false -> hasChar c (arduinoTrim s) = false.
Proof. intros H. apply hasChar_dropTrailingSpace, hasChar_skipSpace, H. Qed.

(** The echo of the server's line. *)
Lemma printsOnly_echo card out out' line :
  hasChar LF line = false ->
  printsOnly card out out' ->
  printsOnly card out
    (serialPrintln (serialPrint out' "Response received: ") (arduinoTrim line)).
Proof.
  intros Hlf H. apply (printsOnly_trans _ _ out'); [exact H|].
  exists [("Response received: " ++ arduinoTrim line)%string].
  split.
  - unfold serialPrintln, serialPrint. cbn [printedLines fold_right].
    rewrite append_nil_r, !append_assoc'. reflexivity.
  - constructor; [split|constructor].
    + rewrite hasChar_app, hasChar_arduinoTrim by exact Hlf. reflexivity.
    + left. rewrite !append_cons. apply refused_by_first_char; reflexivity.
Qed.

(** The UID of the card at the reader. *)
Lemma printsOnly_uid uid out out' :
  printsOnly (Some uid) out out' ->
  printsOnly (Some uid) out (sendUIDToServer out' uid).
Proof.
  intros H. apply (printsOnly_trans _ _ out'); [exact H|].
  exists [printUID uid]. split.
  - unfold sendUIDToServer, serialPrintln, serialPrint. cbn [printedLines fold_right].
    rewrite append_nil_r, append_nil, append_assoc'. reflexivity.
  - constructor; [split|constructor].
    + destruct (printUID_digits uid) as [_ Hd].
      apply (hasChar_allChars _ isUpperHexDigit); [reflexivity|exact Hd].
    + right. exists uid. split; reflexivity.
Qed.

Ltac wire_line := split; [vm_compute; reflexivity | left; vm_compute; reflexivity].

Ltac prints :=
  lazymatch goal with
  | |- printsOnly _ ?o ?o => apply printsOnly_refl
  | |- printsOnly _ _ (serialPrintln (serialPrint _ "Response received: ") _) =>
      apply printsOnly_echo; [assumption | prints]
  | |- printsOnly _ _ (serialPrintln _ _) => apply printsOnly_println; [prints | wire_line]
  | |- printsOnly _ _ (sendUIDToServer _ _) => apply printsOnly_uid; prints
  end.

Ltac sketch_cases simplify :=
  repeat (simplify;
          match goal with
          | |- context [let (_, _) := readStringUntil LF ?b in _] =>
              let H := fresh "Hlf" in
              pose proof (hasChar_readStringUntil LF b) as H;
              destruct (readStringUntil LF b) as [? ?]; cbn [fst] in H
          | |- context [if ?c then _ else _] =>
              lazymatch type of c with bool => destruct c end
          end);
  simplify.

Lemma walkout_loop_prints card s :
  printsOnly card (WalkOut.serialOut s) (WalkOut.serialOut (WalkOut.loop card s)).
Proof.
  destruct s as [millis red yellow green tones out inp lastAction lastScan present
                 lastUID lastSize waiting respTimeout exceeded led].
  unfold WalkOut.loop, WalkOut.readResponse.
  destruct card as [uid|]; destruct inp as [|c inp];
    sketch_cases ltac:(cbn -[Z.modulo Z.pow usub Z.ltb WalkOut.isSameUID readStringUntil
                             hasChar arduinoTrim String.eqb]);
    prints.
Qed.

Lemma walkin_loop_prints card s :
  printsOnly card (WalkIn.serialOut s) (WalkIn.serialOut (WalkIn.loop card s)).
Proof.
  destruct s as [millis red yellow green tones out inp lastAction lastScan present
                 lastUID lastSize waiting respTimeout exceeded cached cachedAt refreshing led].
  unfold WalkIn.loop, WalkIn.readResponse.
  destruct card as [uid|]; destruct inp as [|c inp];
    sketch_cases ltac:(cbn -[Z.modulo Z.pow usub Z.ltb WalkIn.isSameUID readStringUntil
                             hasChar arduinoTrim String.eqb]);
    prints.
Qed.

Lemma assign_loop_prints card s :
  printsOnly card (Assign.serialOut s) (Assign.serialOut (Assign.loop card s)).
Proof.
  destruct s as [millis red yellow green blue white out inp lastAction lastScan present
                 lastUID lastSize waiting respTimeout exceeded led].
  unfold Assign.loop, Assign.readResponse.
  destruct card as [uid|]; destruct inp as [|c inp];
    sketch_cases ltac:(cbn -[Z.modulo Z.pow usub Z.ltb Assign.isSameUID readStringUntil
                             hasChar arduinoTrim String.eqb]);
    prints.
Qed.

Lemma invalid_line_not_enrolled v data o io :
  uidRegex_test (trim data) = false ->
  let r := onAssignDataOf v data o io in
  writeAttempts (effects r) = [] /\ storeReads (effects r) = []
  /\ store (world r) = store io.
Proof.
  intros Hinv. cbn zeta. destruct v; cbn [onAssignDataOf];
    unfold Part000.onAssignData, Part001.onAssignData, Part001.isValidUID,
      Part000.isValidUID, bind, logLine, emit, dateNow, ret;
    js_cbn; rewrite Hinv; js_cbn; repeat split.
Qed.

Lemma printsOnly_addsForServer card out out' :
  printsOnly card out out' -> addsForServer card out out'.
Proof.
  intros (lines & -> & Hl).
  exists (printedLines lines), (map (fun line => (line ++ String CR EmptyString)%string) lines).
  split; [reflexivity|]. split.
  - apply parserLines_printed. eapply Forall_impl; [exact Hl|]. intros line H. apply H.
  - apply Forall_map. eapply Forall_impl; [exact Hl|].
    intros line [_ [Hinv|(uid & -> & ->)]].
    + right. split; [exact Hinv|]. split.
      * intros v mode ch port o io. cbn zeta.
        destruct (invalid_line_dropped v _ mode ch port o io Hinv) as (H1 & H2 & H3 & _).
        repeat split; assumption.
      * intros v o io. apply invalid_line_not_enrolled, Hinv.
    + left. exists uid. split; [reflexivity|].
      destruct (printUID_digits uid) as [_ Hd].
      apply (upperHex_facts _ Hd).
Qed.

(** The sketches' diagnostics never start a lookup.  The walk-out, walk-in
    and assignment sketches print their diagnostics on the serial line the
    server reads.  Whatever the state of the sketch, the bytes in its
    buffer and the card at the reader, what one turn of [loop] adds to the
    output reaches the server as whole lines, and each line is either the
    UID of the card at the reader or a line the validator refuses, which
    the server's handlers drop without queueing, reading the store or
    writing to a port. *)
Theorem sketches_print_only_the_uid (card : option (list Byte.byte)) :
  (forall s, addsForServer card (WalkOut.serialOut s) (WalkOut.serialOut (WalkOut.loop card s)))
  /\ (forall s, addsForServer card (WalkIn.serialOut s) (WalkIn.serialOut (WalkIn.loop card s)))
  /\ (forall s, addsForServer card (Assign.serialOut s) (Assign.serialOut (Assign.loop card s))).
Proof.
  split; [|split]; intros s; apply printsOnly_addsForServer.
  - apply walkout_loop_prints.
  - apply walkin_loop_prints.
  - apply assign_loop_prints.
Qed.


(** ** A card held at the walk-out reader *)

Lemma lookups_printed lines :
  Forall (fun line => hasChar LF line = false) lines ->
  lookups (printedLines lines)
  = List.length (List.filter (fun line => uidRegex_test (trim (line ++ String CR EmptyString)))
                   lines).
Proof.
  intros H. unfold lookups. rewrite (parserLines_printed _ H). cbn [fst].
  induction lines as [|l lines IH]; [reflexivity|].
  apply Forall_cons in H. destruct H as [_ H]. cbn [map List.filter].
  destruct (uidRegex_test (trim (l ++ String CR EmptyString))); cbn [List.length];
    rewrite (IH H); reflexivity.
Qed.

Lemma printsAtMost_refl n out : printsAtMost n out out.
Proof.
  exists []. split; [symmetry; apply append_nil_r|]. split; [constructor|].
  cbn. lia.
Qed.

Lemma printsAtMost_trans n m out1 out2 out3 :
  printsAtMost n out1 out2 -> printsAtMost m out2 out3 -> printsAtMost (n + m) out1 out3.
Proof.
  intros (l1 & -> & H1 & N1) (l2 & -> & H2 & N2). exists (l1 ++ l2)%list.
  assert (H12 : Forall (fun line => hasChar LF line = false) (l1 ++ l2))
    by (apply Forall_app; split; assumption).
  split; [rewrite printedLines_app, append_assoc'; reflexivity|]. split; [exact H12|].
  rewrite lookups_printed in * by assumption.
  rewrite List.filter_app, List.length_app. lia.
Qed.

Lemma printsAtMost_println n out out' line :
  hasChar LF line = false ->
  uidRegex_test (trim (line ++ String CR EmptyString)) = false ->
  printsAtMost n out out' ->
  printsAtMost n out (serialPrintln out' line).
Proof.
  intros Hlf Hinv H. replace n with (n + 0)%nat by lia.
  apply (printsAtMost_trans _ _ _ out'); [exact H|].
  exists [line]. split; [|split].
  - unfold serialPrintln. cbn [printedLines fold_right]. rewrite append_nil_r. reflexivity.
  - constructor; [exact Hlf|constructor].
  - rewrite lookups_printed by (constructor; [exact Hlf|constructor]).
    cbn [List.filter]. rewrite Hinv. cbn. lia.
Qed.

Lemma printsAtMost_echo n out out' line :
  hasChar LF line = false ->
  printsAtMost n out out' ->
  printsAtMost n out (serialPrintln (serialPrint out' "Response received: ") (arduinoTrim line)).
Proof.
  intros Hlf H.
  replace (serialPrintln (serialPrint out' "Response received: ") (arduinoTrim line))
    with (serialPrintln out' ("Response received: " ++ arduinoTrim line)).
  2:{ unfold serialPrintln, serialPrint. rewrite !append_assoc'. reflexivity. }
  apply printsAtMost_println; [| |exact H].
  - rewrite hasChar_app, hasChar_arduinoTrim by exact Hlf. reflexivity.
  - rewrite !append_cons. apply refused_by_first_char; reflexivity.
Qed.

Lemma printsAtMost_uid n uid out out' :
  printsAtMost n out out' -> printsAtMost (S n) out (sendUIDToServer out' uid).
Proof.
  intros H. replace (S n) with (n + 1)%nat by lia.
  apply (printsAtMost_trans _ _ _ out'); [exact H|].
  assert (Hlf : hasChar LF (printUID uid) = false).
  { destruct (printUID_digits uid) as [_ Hd].
    apply (hasChar_allChars _ isUpperHexDigit); [reflexivity|exact Hd]. }
  exists [printUID uid]. split; [|split].
  - unfold sendUIDToServer, serialPrintln, serialPrint. cbn [printedLines fold_right].
    rewrite append_nil_r, append_nil, append_assoc'. reflexivity.
  - constructor; [exact Hlf|constructor].
  - rewrite lookups_printed by (constructor; [exact Hlf|constructor]).
    cbn [List.filter]. destruct (uidRegex_test _); cbn; lia.
Qed.

Ltac prints_at_most :=
  lazymatch goal with
  | |- printsAtMost _ ?o ?o => apply printsAtMost_refl
  | |- printsAtMost _ _ (serialPrintln (serialPrint _ "Response received: ") _) =>
      apply printsAtMost_echo; [assumption | prints_at_most]
  | |- printsAtMost _ _ (serialPrintln _ _) =>
      apply printsAtMost_println;
      [vm_compute; reflexivity | vm_compute; reflexivity | prints_at_most]
  | |- printsAtMost (S _) _ (sendUIDToServer _ _) => apply printsAtMost_uid; prints_at_most
  end.

(** [isSameUID] reads back what [saveLastUID] stored. *)
Lemma copyUID_lookup count i uid array j :
  (i + count <= List.length uid)%nat -> (i + count <= List.length array)%nat ->
  WalkOut.copyUID count i uid array !! j
  = if decide (i <= j < i + count)%nat then uid !! j else array !! j.
Proof.
  revert i array. induction count as [|count IH]; intros i array Hu Ha.
  - cbn [WalkOut.copyUID]. destruct (decide _); [lia|reflexivity].
  - cbn [WalkOut.copyUID].
    destruct (uid !! i) as [b|] eqn:Eb.
    2:{ apply lookup_ge_None in Eb. lia. }
    rewrite IH by (rewrite ?length_insert; lia).
    destruct (decide (S i <= j < S i + count)%nat).
    + rewrite decide_True by lia. reflexivity.
    + destruct (decide (i = j)) as [<-|Hne].
      * rewrite decide_True by lia. rewrite list_lookup_insert_eq by lia. symmetry. exact Eb.
      * rewrite decide_False by lia. apply list_lookup_insert_ne. exact Hne.
Qed.

Lemma length_copyUID count i uid array :
  List.length (WalkOut.copyUID count i uid array) = List.length array.
Proof.
  revert i array. induction count as [|count IH]; intros i array; [reflexivity|].
  cbn [WalkOut.copyUID]. destruct (uid !! i); [|reflexivity].
  rewrite IH. apply length_insert.
Qed.

Lemma sameBytes_spec count i uid array :
  WalkOut.sameBytes count i uid array = true
  <-> forall j, (i <= j < i + count)%nat -> uid !! j = array !! j.
Proof.
  revert i. induction count as [|count IH]; intros i.
  - cbn [WalkOut.sameBytes]. split; [intros _ j Hj; lia|reflexivity].
  - cbn [WalkOut.sameBytes]. destruct (bool_decide_reflect (uid !! i = array !! i)) as [E|E].
    + rewrite IH. split; intros H j Hj.
      * destruct (decide (j = i)) as [->|]; [exact E|apply H; lia].
      * apply H. lia.
    + split; [discriminate|]. intros H. exfalso. apply E, H. lia.
Qed.

Lemma isSameUID_saveLastUID uid s :
  (List.length uid <= List.length (WalkOut.lastUID s))%nat ->
  WalkOut.isSameUID uid (WalkOut.saveLastUID uid s) = true.
Proof.
  intros Hlen. unfold WalkOut.isSameUID, WalkOut.saveLastUID.
  destruct s as [millis red yellow green tones out inp lastAction lastScan present
                 lastUID lastSize waiting respTimeout exceeded led].
  cbn [WalkOut.lastUID WalkOut.lastUIDSize WalkOut.setLastUID] in *.
  rewrite Nat.eqb_refl. cbn [negb]. apply sameBytes_spec. intros j Hj.
  rewrite copyUID_lookup by lia. rewrite decide_True by lia. reflexivity.
Qed.


Lemma walkOut_loop_blocks card s :
  WalkOut.loop card s
  = WalkOut.readResponse
      (walkOutScan card (WalkOut.millis s)
         (walkOutTimeout (WalkOut.millis s) (walkOutStandby (WalkOut.millis s) s))).
Proof. reflexivity. Qed.

Lemma spends_trans uid s1 s2 s3 : spends uid s1 s2 -> spends uid s2 s3 -> spends uid s1 s3.
Proof.
  intros (L1 & n & P1 & N1) (L2 & m & P2 & N2). split; [congruence|].
  exists (n + m)%nat. split; [apply (printsAtMost_trans _ _ _ _ _ P1 P2)|lia].
Qed.

(** A step that leaves the remembered UID alone and prints only lines the
    validator refuses. *)
Lemma spends_quiet uid s s' :
  WalkOut.lastUID s' = WalkOut.lastUID s ->
  WalkOut.lastUIDSize s' = WalkOut.lastUIDSize s ->
  printsAtMost 0 (WalkOut.serialOut s) (WalkOut.serialOut s') ->
  spends uid s s'.
Proof.
  intros Hu Hs Hp. split; [rewrite Hu; reflexivity|]. exists 0%nat. split; [exact Hp|].
  unfold lookupsLeft, WalkOut.isSameUID. rewrite Hu, Hs. lia.
Qed.

Lemma walkOutStandby_spends uid t s : spends uid s (walkOutStandby t s).
Proof.
  unfold walkOutStandby. destruct (_ && _); apply spends_quiet; destruct s; cbn;
    try reflexivity; prints_at_most.
Qed.

Lemma walkOutTimeout_spends uid t s : spends uid s (walkOutTimeout t s).
Proof.
  unfold walkOutTimeout. destruct (_ && _); apply spends_quiet; destruct s;
    cbn -[Z.modulo Z.pow]; try reflexivity; prints_at_most.
Qed.

Lemma walkOutScan_spends uid t s :
  (List.length uid <= List.length (WalkOut.lastUID s))%nat ->
  spends uid s (walkOutScan (Some uid) t s).
Proof.
  intros Hlen. unfold walkOutScan.
  destruct (_ && _); [|apply spends_quiet; try reflexivity; prints_at_most].
  destruct (WalkOut.isSameUID uid s) eqn:Esame; cbn [negb];
    [apply spends_quiet; try reflexivity; prints_at_most|].
  split.
  - destruct s; cbn. apply length_copyUID.
  - exists 1%nat. split.
    + destruct s; cbn. prints_at_most.
    + unfold lookupsLeft. rewrite Esame.
      replace (WalkOut.isSameUID uid _) with true; [lia|].
      symmetry. rewrite <- (isSameUID_saveLastUID uid s Hlen).
      destruct s; reflexivity.
Qed.

Ltac split_ifs simplify :=
  repeat (simplify;
          match goal with
          | |- context [if ?c then _ else _] =>
              lazymatch type of c with bool => destruct c end
          end);
  simplify.

Lemma keepsLastUID_comp f g : keepsLastUID f -> keepsLastUID g -> keepsLastUID (fun s => g (f s)).
Proof.
  intros Hf Hg s. destruct (Hf s) as [<- <-]. apply Hg.
Qed.

Lemma keepsLastUID_id : keepsLastUID (fun s => s).
Proof. intros s. split; reflexivity. Qed.

Lemma keepsLastUID_if (b : bool) f g :
  keepsLastUID f -> keepsLastUID g -> keepsLastUID (fun s => if b then f s else g s).
Proof. intros Hf Hg s. destruct b; [apply Hf | apply Hg]. Qed.

Ltac keeps_field := intros s; destruct s; split; reflexivity.

Lemma keepsLastUID_setSerialIn b : keepsLastUID (WalkOut.setSerialIn b).
Proof. keeps_field. Qed.
Lemma keepsLastUID_setSerialOut b : keepsLastUID (WalkOut.setSerialOut b).
Proof. keeps_field. Qed.
Lemma keepsLastUID_println l : keepsLastUID (WalkOut.println l).
Proof. keeps_field. Qed.
Lemma keepsLastUID_delay ms : keepsLastUID (WalkOut.delay ms).
Proof. keeps_field. Qed.
Lemma keepsLastUID_setWaiting b : keepsLastUID (WalkOut.setWaitingForResponse b).
Proof. keeps_field. Qed.
Lemma keepsLastUID_setTimeoutExceeded b : keepsLastUID (WalkOut.setTimeoutExceeded b).
Proof. keeps_field. Qed.
Lemma keepsLastUID_userFound : keepsLastUID WalkOut.userFound.
Proof. keeps_field. Qed.
Lemma keepsLastUID_userNotFound : keepsLastUID WalkOut.userNotFound.
Proof. keeps_field. Qed.
Lemma keepsLastUID_playDeniedSound : keepsLastUID WalkOut.playDeniedSound.
Proof. keeps_field. Qed.
Lemma keepsLastUID_updateLogs status : keepsLastUID (WalkOut.updateLogs status).
Proof.
  intros s. unfold WalkOut.updateLogs, WalkOut.logToFirebase.
  destruct (String.eqb status "accepted"); [|destruct (String.eqb status "denied")];
    destruct s; split; reflexivity.
Qed.

Lemma walkOut_readResponse_keeps : keepsLastUID WalkOut.readResponse.
Proof.
  intros s. unfold WalkOut.readResponse.
  destruct (WalkOut.serialIn s) as [|c inp] eqn:Ein; [split; reflexivity|].
  destruct (readStringUntil LF (String c inp)) as [line rest].
  cbv zeta.
  set (s1 := if hasChar LF (String c inp) then s else WalkOut.delay readTimeout s).
  assert (H1 : WalkOut.lastUID s1 = WalkOut.lastUID s
               /\ WalkOut.lastUIDSize s1 = WalkOut.lastUIDSize s).
  { subst s1. destruct (hasChar LF (String c inp)); [split; reflexivity|].
    apply keepsLastUID_delay. }
  destruct H1 as [<- <-]. clearbody s1.
  set (s2 := WalkOut.println (arduinoTrim line)
               (WalkOut.setSerialOut
                  (serialPrint (WalkOut.serialOut (WalkOut.setSerialIn rest s1))
                     "Response received: ")
                  (WalkOut.setSerialIn rest s1))).
  assert (H2 : WalkOut.lastUID s2 = WalkOut.lastUID s1
               /\ WalkOut.lastUIDSize s2 = WalkOut.lastUIDSize s1).
  { subst s2.
    destruct (keepsLastUID_setSerialIn rest s1) as [<- <-].
    destruct (keepsLastUID_setSerialOut
                (serialPrint (WalkOut.serialOut (WalkOut.setSerialIn rest s1))
                   "Response received: ") (WalkOut.setSerialIn rest s1)) as [<- <-].
    apply keepsLastUID_println. }
  destruct H2 as [<- <-]. clearbody s2.
  destruct (String.eqb (arduinoTrim line) "Resident Found");
    [|destruct (String.eqb (arduinoTrim line) "Resident Not Found"
                || String.eqb (arduinoTrim line) "LED:RED");
      [|destruct (String.eqb (arduinoTrim line) "UID Not Assigned")]].
  - destruct (keepsLastUID_userFound s2) as [<- <-].
    destruct (keepsLastUID_updateLogs "accepted" (WalkOut.userFound s2)) as [<- <-].
    destruct (keepsLastUID_setWaiting false
                (WalkOut.updateLogs "accepted" (WalkOut.userFound s2))) as [<- <-].
    apply keepsLastUID_setTimeoutExceeded.
  - destruct (keepsLastUID_userNotFound s2) as [<- <-].
    destruct (keepsLastUID_updateLogs "denied" (WalkOut.userNotFound s2)) as [<- <-].
    destruct (keepsLastUID_setWaiting false
                (WalkOut.updateLogs "denied" (WalkOut.userNotFound s2))) as [<- <-].
    apply keepsLastUID_setTimeoutExceeded.
  - destruct (keepsLastUID_println
                "Access Denied: UID found but not assigned. Please assign it to the admin."
                s2) as [<- <-].
    set (s3 := WalkOut.println _ s2).
    destruct (keepsLastUID_updateLogs "denied" s3) as [<- <-].
    destruct (keepsLastUID_setWaiting false (WalkOut.updateLogs "denied" s3)) as [<- <-].
    destruct (keepsLastUID_setTimeoutExceeded false
                (WalkOut.setWaitingForResponse false (WalkOut.updateLogs "denied" s3)))
      as [<- <-].
    apply keepsLastUID_playDeniedSound.
  - apply keepsLastUID_println.
Qed.

Lemma walkOut_readResponse_prints s :
  printsAtMost 0 (WalkOut.serialOut s) (WalkOut.serialOut (WalkOut.readResponse s)).
Proof.
  unfold WalkOut.readResponse.
  destruct s as [millis red yellow green tones out inp lastAction lastScan present
                 lastUID lastSize waiting respTimeout exceeded led].
  cbn [WalkOut.serialIn]. destruct inp as [|c inp].
  { apply printsAtMost_refl. }
  pose proof (hasChar_readStringUntil LF (String c inp)) as Hlf.
  destruct (readStringUntil LF (String c inp)) as [line rest]. cbn [fst] in Hlf.
  split_ifs ltac:(cbn -[Z.modulo Z.pow arduinoTrim String.eqb hasChar]).
  all: prints_at_most.
Qed.

Lemma walkOut_readResponse_spends uid s : spends uid s (WalkOut.readResponse s).
Proof.
  destruct (walkOut_readResponse_keeps s) as [Hu Hs].
  apply spends_quiet; [exact Hu | exact Hs | apply walkOut_readResponse_prints].
Qed.

Lemma walkout_turn uid s :
  (List.length uid <= List.length (WalkOut.lastUID s))%nat ->
  spends uid s (WalkOut.loop (Some uid) s).
Proof.
  intros Hlen. rewrite walkOut_loop_blocks.
  pose proof (walkOutStandby_spends uid (WalkOut.millis s) s) as H1.
  pose proof (walkOutTimeout_spends uid (WalkOut.millis s)
                (walkOutStandby (WalkOut.millis s) s)) as H2.
  pose proof (spends_trans _ _ _ _ H1 H2) as H12.
  apply (spends_trans _ _ _ _ H12).
  eapply spends_trans; [|apply walkOut_readResponse_spends].
  apply walkOutScan_spends. destruct H12 as [-> _]. exact Hlen.
Qed.

Lemma walkOutTick_spends uid dt incoming s : spends uid s (walkOutTick dt incoming s).
Proof. apply spends_quiet; destruct s; try reflexivity. cbn. prints_at_most. Qed.

(** A card held at the walk-out reader is looked up at most once.  For a
    UID that fits the sketch's UID array and any sequence of turns of
    [loop] that all read the same card, whatever time passes between them
    and whatever bytes arrive from the server: what the sketch prints
    reaches the server as whole lines, at most one of which passes the
    validator; none does when the sketch already remembers the card as the
    last one it sent. *)
Theorem walkout_held_card_sent_once (uid : list Byte.byte) (turns : list (Z * string))
    (s : WalkOut.Sketch) :
  (List.length uid <= List.length (WalkOut.lastUID s))%nat ->
  exists added,
    WalkOut.serialOut (holdCard uid turns s) = (WalkOut.serialOut s ++ added)%string
    /\ (parserLines added).2 = EmptyString
    /\ (lookups added <= 1)%nat
    /\ (WalkOut.isSameUID uid s = true -> lookups added = 0%nat).
Proof.
  intros Hlen.
  assert (H : spends uid s (holdCard uid turns s)).
  { revert s Hlen. induction turns as [|[dt incoming] turns IH]; intros s Hlen.
    - apply spends_quiet; try reflexivity. apply printsAtMost_refl.
    - cbn [holdCard].
      pose proof (walkOutTick_spends uid dt incoming s) as H1.
      assert (H2 : spends uid (walkOutTick dt incoming s)
                     (WalkOut.loop (Some uid) (walkOutTick dt incoming s))).
      { apply walkout_turn. destruct H1 as [-> _]. exact Hlen. }
      pose proof (spends_trans _ _ _ _ H1 H2) as H12.
      apply (spends_trans _ _ _ _ H12). apply IH.
      destruct H12 as [-> _]. exact Hlen. }
  destruct H as (_ & n & (lines & -> & Hlf & Hn) & Hleft).
  exists (printedLines lines). split; [reflexivity|].
  split; [rewrite (parserLines_printed _ Hlf); reflexivity|].
  unfold lookupsLeft in Hleft. split.
  - destruct (WalkOut.isSameUID uid s), (WalkOut.isSameUID uid (holdCard uid turns s)); lia.
  - intros Hsame. rewrite Hsame in Hleft. lia.
Qed.

Lemma walkout_held_card_sent_once_witness :
  let uid := [Byte.x1a; Byte.x2b; Byte.x3c; Byte.x4d] in
  let s := WalkOut.delay 1000 WalkOut.setup in
  (List.length uid <= List.length (WalkOut.lastUID s))%nat
  /\ lookups (WalkOut.serialOut
                (holdCard uid [(0, EmptyString); (400, "Resident Found" ++ nl); (400, EmptyString)]
                   (WalkOut.setSerialOut EmptyString s))) = 1%nat.
Proof.
  cbn zeta.
  assert (Hlen : (List.length [Byte.x1a; Byte.x2b; Byte.x3c; Byte.x4d]
                  <= List.length (WalkOut.lastUID (WalkOut.delay 1000 WalkOut.setup)))%nat)
    by (vm_compute; lia).
  split; [exact Hlen|].
  destruct (walkout_held_card_sent_once [Byte.x1a; Byte.x2b; Byte.x3c; Byte.x4d]
              [(0, EmptyString); (400, "Resident Found" ++ nl); (400, EmptyString)]
              (WalkOut.setSerialOut EmptyString (WalkOut.delay 1000 WalkOut.setup)) Hlen)
    as (added & _ & _ & _ & _).
  vm_compute. reflexivity.
Defined.
